(** * The stat.ink exporter of s3si.ts, embedded in Rocq

    Shallow embedding of [src/exporters/stat.ink.ts]: the [StatInkAPI]
    client (uuid list, uploads, cached catalogs, salmon weapon map) and the
    [StatInkExporter] mappers (versus battles and coop sessions).

    - JavaScript numbers that are counts or identifiers are integers ([Z]);
      numbers that may carry a fraction (colours, ratios, powers, the danger
      rate) are rationals ([Q]), and a product computed in floating point is
      passed through the rounding function [fl] of the environment.
    - Strings are byte strings (UTF-8), objects are records, nullable fields
      are [option], [Map<string, string>] and plain objects used as
      dictionaries are [gmap].
    - Asynchronous methods are run to completion one after the other: a
      method is a function from the state of the world to a result (a value
      or a thrown exception) and the next state.  [Promise.all] over a mapped
      array is sequenced from left to right (when several of its callbacks
      throw, the exception kept here is the leftmost one; no statement below
      depends on which one it is), and the fetch mutex [FETCH_LOCK], which
      only serialises concurrent fetches, has no effect in this sequential
      reading. *)

From Stdlib Require Import ZArith QArith Qround Qabs Lqa String Ascii List Lia.
From Stdlib Require Import DecimalString DecimalZ HexadecimalString.
From stdpp Require Import base gmap strings list fin_maps.

Local Open Scope string_scope.
Local Open Scope Z_scope.

(** ** JavaScript primitives used by the exporter *)

Module Js.

(** [hay.includes(needle)] on strings. *)
Fixpoint includes (needle hay : string) : bool :=
  String.prefix needle hay ||
  match hay with
  | EmptyString => false
  | String _ rest => includes needle rest
  end.

(** Scanning loop of [replaceAll] for a non-empty pattern: [skip] counts
    the characters of a match that are still to be dropped. *)
Fixpoint replaceAll_go (pat rep : string) (skip : nat) (s : string) : string :=
  match s with
  | EmptyString => EmptyString
  | String c rest =>
      match skip with
      | S k => replaceAll_go pat rep k rest
      | O =>
          if String.prefix pat s
          then rep +:+ replaceAll_go pat rep (String.length pat - 1) rest
          else String c (replaceAll_go pat rep O rest)
      end
  end.

(** [s.replaceAll(pat, rep)] for a string pattern. *)
Definition replaceAll (pat rep s : string) : string :=
  match pat with
  | EmptyString =>
      rep +:+ String.concat EmptyString (map (fun c => String c rep) (list_ascii_of_string s))
  | _ => replaceAll_go pat rep O s
  end.

Fixpoint repeat_string (p : string) (k : nat) : string :=
  match k with
  | O => EmptyString
  | S k' => p +:+ repeat_string p k'
  end.

(** [s.padStart(targetLength, padString)]. *)
Definition padStart (targetLength : nat) (padString s : string) : string :=
  let len := String.length s in
  if (targetLength <=? len)%nat || (String.length padString =? 0)%nat then s
  else
    let missing := (targetLength - len)%nat in
    String.substring 0 missing (repeat_string padString missing) +:+ s.

Definition lower_ascii (c : ascii) : ascii :=
  let n := nat_of_ascii c in
  if (65 <=? n)%nat && (n <=? 90)%nat then ascii_of_nat (n + 32) else c.

(** [s.toLowerCase()], on the ASCII letters. *)
Fixpoint toLowerCase (s : string) : string :=
  match s with
  | EmptyString => EmptyString
  | String c rest => String (lower_ascii c) (toLowerCase rest)
  end.

(** [n.toString()] of an integer. *)
Definition toString (n : Z) : string :=
  DecimalString.NilZero.string_of_int (Z.to_int n).

(** [n.toString(16)] of an integer. *)
Definition toString16 (n : Z) : string :=
  let digits := HexadecimalString.NilZero.string_of_uint (N.to_hex_uint (Z.abs_N n)) in
  if (n <? 0)%Z then "-" +:+ digits else digits.

Definition is_digit (c : ascii) : bool :=
  let n := nat_of_ascii c in (48 <=? n)%nat && (n <=? 57)%nat.

Definition digit_value (c : ascii) : Z := Z.of_nat (nat_of_ascii c) - 48.

(** Value of the longest prefix of decimal digits, [None] when the string
    does not start with a digit. *)
Fixpoint parse_digits (acc : option Z) (s : string) : option Z :=
  match s with
  | String c rest =>
      if is_digit c
      then parse_digits (Some (10 * default 0 acc + digit_value c)) rest
      else acc
  | EmptyString => acc
  end.

Definition is_space (c : ascii) : bool :=
  let n := nat_of_ascii c in
  (n =? 32)%nat || ((9 <=? n)%nat && (n <=? 13)%nat).

Fixpoint trimStart (s : string) : string :=
  match s with
  | String c rest => if is_space c then trimStart rest else s
  | EmptyString => EmptyString
  end.

(** [parseInt(s)] in radix 10: leading white space, an optional sign, then
    the longest run of decimal digits; [None] stands for [NaN].  (The
    [0x] prefix that selects radix 16 cannot occur in the strings the
    exporter passes, which are built from decimal digits.) *)
Definition parseInt (s : string) : option Z :=
  match trimStart s with
  | String "-" rest => Z.opp <$> parse_digits None rest
  | String "+" rest => parse_digits None rest
  | t => parse_digits None t
  end.

(** [x.toString()] of the result of integer arithmetic on a [parseInt]. *)
Definition toString_nan (n : option Z) : string :=
  match n with
  | Some z => toString z
  | None => "NaN"
  end.

(** [Math.round(x)]: the nearest integer, halves going up. *)
Definition Math_round (x : Q) : Z := Qfloor (x + (1 # 2)).

(** The class [\w] of a regular expression without the unicode flag. *)
Definition is_word_char (c : ascii) : bool :=
  let n := nat_of_ascii c in
  is_digit c || ((65 <=? n)%nat && (n <=? 90)%nat)
  || ((97 <=? n)%nat && (n <=? 122)%nat) || (n =? 95)%nat.

(** A JavaScript string used as a condition: only the empty string is
    falsy. *)
Definition truthy_string (s : string) : bool :=
  negb (String.length s =? 0)%nat.

End Js.

(** ** Source records (SplatNet 3 side)

    The declarations of [types.ts] are not part of the translated file; the
    records below carry the fields that [stat.ink.ts] reads, nullable ones as
    [option]. *)

Module Color.
Record t := { r : Q; g : Q; b : Q; a : Q }.
End Color.

(** The [url] of an image: a string, (after the file exporter) an object
    with a [pathname], or [null]; an image without [url] has [None]. *)
Inductive ImageUrl :=
| UrlString (s : string)
| UrlObject (pathname : string)
| UrlNull.

Module Image.
Record t := { url : option ImageUrl }.
End Image.

Module IdRef.
Record t := { id : string }.
End IdRef.

Module Named.
Record t := { name : string }.
End Named.

Module PlayerGear.
Record t := {
  primaryGearPower : Named.t;
  additionalGearPowers : list Named.t }.
End PlayerGear.

Module VsPlayerResult.
Record t := {
  kill : Z;
  death : Z;
  assist : Z;
  special : Z;
  noroshiTry : option Z }.
End VsPlayerResult.

Module VsPlayer.
Record t := {
  isMyself : bool;
  name : string;
  nameId : option string;
  byname : string;
  weapon : IdRef.t;
  paint : Z;
  headGear : PlayerGear.t;
  clothingGear : PlayerGear.t;
  shoesGear : PlayerGear.t;
  crown : bool;
  result : option VsPlayerResult.t }.
End VsPlayer.

Module VsTeamResult.
Record t := { paintRatio : option Q; score : option Z }.
End VsTeamResult.

Module VsTeam.
Record t := {
  players : list VsPlayer.t;
  color : Color.t;
  result : option VsTeamResult.t;
  festTeamName : option string;
  tricolorRole : option string }.
End VsTeam.

Module VsMode.
Record t := { mode : string; id : string }.
End VsMode.

Module VsRule.
Record t := { rule : string }.
End VsRule.

Module VsStage.
Record t := { id : string; name : string }.
End VsStage.

Module BankaraMatch.
Record t := { mode : string; earnedUdemaePoint : option Z }.
End BankaraMatch.

Module FestMatch.
Record t := {
  dragonMatchType : string;
  contribution : Q;
  myFestPower : option Q }.
End FestMatch.

Module XMatch.
Record t := { lastXPower : option Q }.
End XMatch.

Module VsHistoryDetail.
Record t := {
  id : string;
  vsMode : VsMode.t;
  vsRule : VsRule.t;
  vsStage : VsStage.t;
  judgement : string;
  knockout : option string;
  myTeam : VsTeam.t;
  otherTeams : list VsTeam.t;
  bankaraMatch : option BankaraMatch.t;
  festMatch : option FestMatch.t;
  xMatch : option XMatch.t;
  playedTime : string;
  duration : Z;
  awards : list Named.t }.
End VsHistoryDetail.

Module XMatchMeasurement.
Record t := { state : string; xPowerAfter : option Q }.
End XMatchMeasurement.

Module VsGroupInfo.
Record t := { xMatchMeasurement : option XMatchMeasurement.t }.
End VsGroupInfo.

Module ChallengeProgress.
Record t := { index : Z; winCount : Z; loseCount : Z }.
End ChallengeProgress.

Module BankaraMatchChallenge.
Record t := {
  isPromo : bool;
  isUdemaeUp : option bool;
  udemaeAfter : option string;
  earnedUdemaePoint : option Z }.
End BankaraMatchChallenge.

Module ListNode.
Record t := { udemae : string }.
End ListNode.

Module RankState.
Record t := { rank : string; rankPoint : Z }.
End RankState.

Module VsInfo.
Record t := {
  groupInfo : option VsGroupInfo.t;
  challengeProgress : option ChallengeProgress.t;
  bankaraMatchChallenge : option BankaraMatchChallenge.t;
  listNode : option ListNode.t;
  detail : VsHistoryDetail.t;
  rankBeforeState : option RankState.t;
  rankState : option RankState.t }.
End VsInfo.

Module CoopWeapon.
Record t := { name : string; image : option Image.t }.
End CoopWeapon.

Module CoopSpecial.
Record t := { name : string; image : Image.t }.
End CoopSpecial.

Module CoopPlayer.
Record t := {
  name : string;
  nameId : string;
  byname : string;
  uniform : IdRef.t }.
End CoopPlayer.

Module CoopHistoryPlayerResult.
Record t := {
  player : CoopPlayer.t;
  weapons : list CoopWeapon.t;
  specialWeapon : option CoopSpecial.t;
  defeatEnemyCount : Z;
  deliverCount : Z;
  goldenAssistCount : Z;
  goldenDeliverCount : Z;
  rescueCount : Z;
  rescuedCount : Z }.
End CoopHistoryPlayerResult.

Module WaveResult.
Record t := {
  waveNumber : Z;
  waterLevel : Z;
  eventWave : option IdRef.t;
  deliverNorm : Z;
  goldenPopCount : Z;
  teamDeliverCount : Z;
  specialWeapons : list CoopSpecial.t }.
End WaveResult.

Module EnemyResult.
Record t := {
  enemy : IdRef.t;
  popCount : Z;
  teamDefeatCount : Z;
  defeatCount : Z }.
End EnemyResult.

Module BossResult.
Record t := { hasDefeatBoss : bool; boss : IdRef.t }.
End BossResult.

Module Scale.
Record t := { gold : Z; silver : Z; bronze : Z }.
End Scale.

Module CoopHistoryDetail.
Record t := {
  id : string;
  rule : string;
  dangerRate : Q;
  resultWave : Z;
  bossResult : option BossResult.t;
  myResult : CoopHistoryPlayerResult.t;
  memberResults : list CoopHistoryPlayerResult.t;
  scale : option Scale.t;
  playedTime : string;
  enemyResults : list EnemyResult.t;
  smellMeter : option Z;
  waveResults : list WaveResult.t;
  afterGrade : option IdRef.t;
  afterGradePoint : option Z;
  coopStage : IdRef.t;
  jobPoint : option Z;
  jobScore : option Z;
  jobRate : option Q;
  jobBonus : option Z }.
End CoopHistoryDetail.

Module GradeBefore.
Record t := { grade : IdRef.t; gradePoint : Z }.
End GradeBefore.

Module CoopGroupInfo.
Record t := { mode : string }.
End CoopGroupInfo.

Module CoopInfo.
Record t := {
  gradeBefore : option GradeBefore.t;
  groupInfo : option CoopGroupInfo.t;
  detail : CoopHistoryDetail.t }.
End CoopInfo.

(** [Game]: the union of the two session kinds, discriminated by [type]. *)
Inductive Game :=
| GameVsInfo (vs : VsInfo.t)
| GameCoopInfo (coop : CoopInfo.t).

(** [Game["type"]]. *)
Inductive GameType := VsInfoType | CoopInfoType.

Definition Game_type (game : Game) : GameType :=
  match game with
  | GameVsInfo _ => VsInfoType
  | GameCoopInfo _ => CoopInfoType
  end.

(** ** Target records (stat.ink side) *)

(** A catalog entry of stat.ink ([StatInkWeapon], [StatInkAbility] and
    [StatInkStage] are arrays of these): [name] maps a locale to the display
    name in that locale, in the order of the object's properties. *)
Module CatalogEntry.
Record t := {
  key : string;
  name : list (string * string);
  aliases : list string }.
End CatalogEntry.

(** [Object.values(entry.name)]. *)
Definition Object_values (o : list (string * string)) : list string :=
  map snd o.

(** A JSON value whose shape the source does not fix ([unknown]). *)
#[warnings="-register-all"]
Inductive JsValue :=
| JsNull
| JsBool (b : bool)
| JsNumber (q : Q)
| JsString (s : string)
| JsArray (items : list JsValue)
| JsObject (fields : list (string * JsValue)).

(** A value used as a condition. *)
Definition truthy (v : JsValue) : bool :=
  match v with
  | JsNull => false
  | JsBool b => b
  | JsNumber q => negb (Qeq_bool q 0)
  | JsString s => Js.truthy_string s
  | JsArray _ => true
  | JsObject _ => true
  end.

(** The value of a property of a parsed JSON object: of the fields with
    that name the last one, which is the one [JSON.parse] keeps. *)
Fixpoint Js_lookup (key : string) (fields : list (string * JsValue)) : option JsValue :=
  match fields with
  | [] => None
  | (k, v) :: rest =>
      match Js_lookup key rest with
      | Some later => Some later
      | None => if String.eqb k key then Some v else None
      end
  end.

(** [v.key] on a value that is not [null], for a key that no prototype
    defines ([error], [url], [message]): the field of an object, and
    [undefined] on an array, a boolean, a number or a string. *)
Definition Js_field (key : string) (v : JsValue) : option JsValue :=
  match v with
  | JsObject fields => Js_lookup key fields
  | _ => None
  end.

(** A boolean, a number or a string. *)
Inductive JsPrimitive :=
| PrimBool (b : bool)
| PrimNumber (q : Q)
| PrimString (s : string).

(** The body of the answer to a uuid-list request, as [response.json()]
    gives it, whatever the server sent: an array, or any other JSON value
    (an object, a primitive or [null]).  An array is taken at the element
    type the source annotates and returns, [string[]]. *)
Inductive StatInkUuidList :=
| UuidArray (ids : list string)
| UuidObject (fields : list (string * JsValue))
| UuidPrimitive (v : JsPrimitive)
| UuidNull.

(** The body as a JSON value. *)
Definition uuid_value (uuidResult : StatInkUuidList) : JsValue :=
  match uuidResult with
  | UuidArray ids => JsArray (JsString <$> ids)
  | UuidObject fields => JsObject fields
  | UuidPrimitive (PrimBool b) => JsBool b
  | UuidPrimitive (PrimNumber q) => JsNumber q
  | UuidPrimitive (PrimString s) => JsString s
  | UuidNull => JsNull
  end.

(** The body of the answer to an upload, as [resp.json()] gives it: any
    JSON value.  The annotation [StatInkPostResponse] is not checked when
    the program runs. *)
Definition StatInkPostResponse : Type := JsValue.

Module StatInkGear.
Record t := {
  primary_ability : string;
  secondary_abilities : list (option string) }.
End StatInkGear.

Module StatInkGears.
Record t := {
  headgear : StatInkGear.t;
  clothing : StatInkGear.t;
  shoes : StatInkGear.t }.
End StatInkGears.

Module StatInkPlayer.
Record t := {
  me : string;
  rank_in_team : Z;
  name : string;
  number : option string;
  splashtag_title : string;
  weapon : string;
  inked : Z;
  gears : StatInkGears.t;
  crown : string;
  disconnected : string;
  kill_or_assist : option Z;
  assist : option Z;
  kill : option Z;
  death : option Z;
  signal : option Z;
  special : option Z }.
End StatInkPlayer.

Module StatInkPostBody.
Record t := {
  uuid : string;
  lobby : string;
  rule : option string;
  stage : string;
  result : option string;
  weapon : string;
  inked : Z;
  rank_in_team : Z;
  medals : list string;
  our_team_players : list StatInkPlayer.t;
  their_team_players : list StatInkPlayer.t;
  agent : string;
  agent_version : string;
  agent_variables_upload_mode : string;
  automated : string;
  start_at : Z;
  end_at : Z;
  kill_or_assist : option Z;
  assist : option Z;
  kill : option Z;
  death : option Z;
  signal : option Z;
  special : option Z;
  our_team_color : option string;
  their_team_color : option string;
  third_team_color : option string;
  fest_dragon : option string;
  clout_change : option Q;
  fest_power : option Q;
  our_team_percent : option Q;
  their_team_percent : option Q;
  our_team_inked : option Z;
  their_team_inked : option Z;
  our_team_theme : option string;
  our_team_role : option string;
  their_team_theme : option string;
  their_team_role : option string;
  third_team_players : option (list StatInkPlayer.t);
  third_team_percent : option Q;
  third_team_inked : option Z;
  third_team_theme : option string;
  third_team_role : option string;
  knockout : option string;
  our_team_count : option Z;
  their_team_count : option Z;
  rank_exp_change : option Z;
  rank_before : option string;
  rank_before_s_plus : option Z;
  rank_up_battle : option string;
  rank_after : option string;
  rank_after_s_plus : option Z;
  challenge_win : option Z;
  challenge_lose : option Z;
  x_power_before : option Q;
  x_power_after : option Q;
  rank_before_exp : option Z;
  rank_after_exp : option Z }.
End StatInkPostBody.

Module StatInkCoopWave.
Record t := {
  tide : option string;
  event : option string;
  golden_quota : Z;
  golden_appearances : Z;
  golden_delivered : Z;
  special_uses : gmap string Z;
  danger_rate : option Z }.
End StatInkCoopWave.

Module StatInkCoopPlayer.
Record t := {
  me : string;
  name : string;
  number : string;
  splashtag_title : string;
  uniform : string;
  special : option string;
  weapons : list (option string);
  golden_eggs : Z;
  golden_assist : Z;
  power_eggs : Z;
  rescue : Z;
  rescued : Z;
  defeat_boss : Z;
  disconnected : string }.
End StatInkCoopPlayer.

Module StatInkCoopBoss.
Record t := { appearances : Z; defeated : Z; defeated_by_me : Z }.
End StatInkCoopBoss.

Module StatInkCoopPostBody.
Record t := {
  uuid : string;
  private : string;
  big_run : string;
  eggstra_work : string;
  stage : string;
  danger_rate : option Q;
  clear_waves : Z;
  fail_reason : option string;
  king_smell : option Z;
  king_salmonid : option string;
  clear_extra : string;
  title_before : option string;
  title_exp_before : option Z;
  title_after : option string;
  title_exp_after : option Z;
  golden_eggs : Z;
  power_eggs : Z;
  gold_scale : option Z;
  silver_scale : option Z;
  bronze_scale : option Z;
  job_point : option Z;
  job_score : option Z;
  job_rate : option Q;
  job_bonus : option Z;
  waves : list StatInkCoopWave.t;
  players : list StatInkCoopPlayer.t;
  bosses : gmap Z StatInkCoopBoss.t;
  agent : string;
  agent_version : string;
  agent_variables_upload_mode : string;
  automated : string;
  start_at : Z }.
End StatInkCoopPostBody.

(** What [msgpack.encode] is given: the body of an upload. *)
Inductive PostBody :=
| BattleBody (body : StatInkPostBody.t)
| CoopBody (body : StatInkCoopPostBody.t).

(** ** Transport, exceptions and the environment *)

Definition Headers := list (string * string).

(** A [Response]: its status and its body as [json()] parses it; [None]
    when [json()] rejects. *)
Module Response.
Record t (T : Type) := { status : Z; json : option T }.
Arguments status {T} _.
Arguments json {T} _.
End Response.

(** The bodies this client decodes. *)
Inductive AnyJson :=
| UuidListJson (j : StatInkUuidList)
| CatalogJson (j : list CatalogEntry.t)
| PostJson (j : JsValue).

Class Body (T : Type) := erase : T -> AnyJson.

#[export] Instance Body_uuid_list : Body StatInkUuidList := UuidListJson.
#[export] Instance Body_catalog : Body (list CatalogEntry.t) := CatalogJson.
#[export] Instance Body_post : Body JsValue := PostJson.

Definition erase_response {T} `{Body T} (resp : Response.t T) : Response.t AnyJson :=
  {| Response.status := Response.status resp;
     Response.json := erase <$> Response.json resp |}.

(** [APIError], by the arguments its constructor is given: the response,
    its parsed body and a message, which [uuidList] reads off the body and
    so can be any JSON value or [undefined]. *)
Module APIError.
Record t := {
  response : Response.t AnyJson;
  json : option AnyJson;
  message : option JsValue }.
End APIError.

(** What a method can throw. *)
Inductive Exn :=
| ThrowAPIError (e : APIError.t)
| ThrowError (message : string)
| ThrowTypeError (message : string)
| ThrowSyntaxError.

(** The requests the fetcher is asked to send. *)
Inductive Request :=
| GET (url : string) (headers : Headers)
| POST (url : string) (headers : Headers) (body : PostBody).

Definition is_POST (req : Request) : bool :=
  match req with
  | POST _ _ _ => true
  | GET _ _ => false
  end.

(** The uploads among a list of requests. *)
Definition uploads (reqs : list Request) : list Request := List.filter is_POST reqs.

(** What [stat.ink.ts] imports and is constructed with, none of it in the
    translated file:
    - the constants of [constant.ts], the tables of [SPLATNET3_STATINK_MAP]
      as partial functions;
    - the helpers of [utils.ts]: [b64Number] decodes an id to its number
      (taken total, with integer values), and the three functions that derive
      an upload id from a session id;
    - of the runtime, [new Date(s).getTime()] and the rounding [fl] of a
      real number to the nearest floating-point number;
    - the fetcher of [env.newFetcher()]: [fetch.get] and [fetch.post] with
      the body of the answer as [json()] parses it: a catalog at the type
      the caller annotates (an array of entries), the uuid list and the
      answer to an upload as whatever JSON value the server sent; the answer
      may depend on the requests sent before;
    - the two arguments of the constructor. *)
Module Env.
Record t := {
  AGENT_NAME : string;
  S3SI_VERSION : string;
  USERAGENT : string;
  RULE : string -> option string;
  RESULT : string -> option string;
  DRAGON : string -> option string;
  COOP_SPECIAL_MAP : string -> option string;
  COOP_EVENT_MAP : Z -> option string;
  WATER_LEVEL_MAP : Z -> option string;
  b64Number : string -> Z;
  gameId : string -> string;
  s3siGameId : string -> string;
  s3sCoopGameId : string -> string;
  Date_getTime : string -> Z;
  fl : Q -> Q;
  get_uuid_list : list Request -> string -> Headers -> Response.t StatInkUuidList;
  get_catalog : list Request -> string -> Headers -> Response.t (list CatalogEntry.t);
  post : list Request -> string -> Headers -> PostBody -> Response.t StatInkPostResponse;
  statInkApiKey : string;
  uploadMode : string }.
End Env.

(** The mutable state: the fields [cache] and [_salmonWeaponMap] of the
    [StatInkAPI] object, the requests sent so far (oldest first) and the
    lines written by [console.warn]. *)
Module World.
Record t := {
  cache : gmap string (list CatalogEntry.t);
  _salmonWeaponMap : gmap string string;
  requests : list Request;
  console : list string }.
End World.

(** The state of a freshly constructed exporter. *)
Definition World_initial : World.t :=
  {| World.cache := ∅;
     World._salmonWeaponMap := ∅;
     World.requests := [];
     World.console := [] |}.

Definition set_cache (url : string) (json : list CatalogEntry.t) (w : World.t) : World.t :=
  {| World.cache := <[url := json]> (World.cache w);
     World._salmonWeaponMap := World._salmonWeaponMap w;
     World.requests := World.requests w;
     World.console := World.console w |}.

Definition set_salmonWeaponMap (name key : string) (w : World.t) : World.t :=
  {| World.cache := World.cache w;
     World._salmonWeaponMap := <[name := key]> (World._salmonWeaponMap w);
     World.requests := World.requests w;
     World.console := World.console w |}.

Definition send (req : Request) (w : World.t) : World.t :=
  {| World.cache := World.cache w;
     World._salmonWeaponMap := World._salmonWeaponMap w;
     World.requests := (World.requests w ++ [req])%list;
     World.console := World.console w |}.

Definition console_warn (line : string) (w : World.t) : World.t :=
  {| World.cache := World.cache w;
     World._salmonWeaponMap := World._salmonWeaponMap w;
     World.requests := World.requests w;
     World.console := (World.console w ++ [line])%list |}.

(** ** The monad of asynchronous methods *)

Inductive Result (A : Type) :=
| Ok (a : A)
| Throw (e : Exn).
Arguments Ok {A} a.
Arguments Throw {A} e.

Definition M (A : Type) : Type := World.t -> Result A * World.t.

Definition ret {A} (a : A) : M A := fun w => (Ok a, w).

Definition throw {A} (e : Exn) : M A := fun w => (Throw e, w).

Definition bind {A B} (m : M A) (k : A -> M B) : M B :=
  fun w =>
    match m w with
    | (Ok a, w') => k a w'
    | (Throw e, w') => (Throw e, w')
    end.

Notation "'let*' x ':=' m 'in' k" := (bind m (fun x => k))
  (at level 10, x pattern, m at level 100, k at level 200).

Definition get_world : M World.t := fun w => (Ok w, w).

Definition modify (f : World.t -> World.t) : M unit := fun w => (Ok tt, f w).

(** [Promise.all(l.map(f))], sequenced from left to right. *)
Fixpoint mapM {A B} (f : A -> M B) (l : list A) : M (list B) :=
  match l with
  | [] => ret []
  | x :: rest =>
      let* y := f x in
      let* ys := mapM f rest in
      ret (y :: ys)
  end.

(** [Promise.all(l.map(f))] for a callback that also takes the index. *)
Fixpoint mapM_index {A B} (f : A -> Z -> M B) (index : Z) (l : list A) : M (list B) :=
  match l with
  | [] => ret []
  | x :: rest =>
      let* y := f x index in
      let* ys := mapM_index f (index + 1) rest in
      ret (y :: ys)
  end.

(** A [for ... of] loop whose body returns nothing. *)
Fixpoint forM {A} (l : list A) (body : A -> M unit) : M unit :=
  match l with
  | [] => ret tt
  | x :: rest => let* _ := body x in forM rest body
  end.

(** The value of a computation's result, when it did not throw. *)
Definition value {A} (r : Result A * World.t) : option A :=
  match fst r with
  | Ok a => Some a
  | Throw _ => None
  end.

(** ** [StatInkAPI] *)

Definition COOP_POINT_MAP (clear_waves : Z) : option Z :=
  if clear_waves =? 0 then Some (-20)
  else if clear_waves =? 1 then Some (-10)
  else if clear_waves =? 2 then Some 0
  else if clear_waves =? 3 then Some 20
  else None.

(** [await resp.json()]. *)
Definition Response_json {T} (resp : Response.t T) : M T :=
  match Response.json resp with
  | Some j => ret j
  | None => throw ThrowSyntaxError
  end.

Definition checkResponse {T} `{Body T} (resp : Response.t T) : M unit :=
  if negb (Response.status resp / 100 =? 2) then
    throw (ThrowAPIError
      {| APIError.response := erase_response resp;
         APIError.json := erase <$> Response.json resp;
         APIError.message := Some (JsString "Failed to fetch data from stat.ink") |})
  else ret tt.

Definition statInk : string := "https://stat.ink".

(** The constructor of [StatInkAPI]: the key must have 43 characters. *)
Definition StatInkAPI_new (statInkApiKey : string) : Result World.t :=
  if negb (String.length statInkApiKey =? 43)%nat
  then Throw (ThrowError "Invalid stat.ink API key")
  else Ok World_initial.

Definition requestHeaders (env : Env.t) : Headers :=
  [ ("User-Agent", Env.USERAGENT env);
    ("Authorization", "Bearer " +:+ Env.statInkApiKey env) ].

(** [fetch.get] on the uuid-list endpoints. *)
Definition fetch_get_uuid_list (env : Env.t) (url : string) (headers : Headers)
  : M (Response.t StatInkUuidList) :=
  fun w => (Ok (Env.get_uuid_list env (World.requests w) url headers),
            send (GET url headers) w).

(** [fetch.get] on the catalog endpoints. *)
Definition fetch_get_catalog (env : Env.t) (url : string) (headers : Headers)
  : M (Response.t (list CatalogEntry.t)) :=
  fun w => (Ok (Env.get_catalog env (World.requests w) url headers),
            send (GET url headers) w).

(** [fetch.post]. *)
Definition fetch_post (env : Env.t) (url : string) (headers : Headers) (body : PostBody)
  : M (Response.t StatInkPostResponse) :=
  fun w => (Ok (Env.post env (World.requests w) url headers body),
            send (POST url headers body) w).

(** [v.key], for a key that no prototype defines: reading a property of
    [null] throws a [TypeError] (the message is the engine's, here V8's). *)
Definition Js_get (v : JsValue) (key : string) : Result (option JsValue) :=
  match v with
  | JsNull =>
      Throw (ThrowTypeError ("Cannot read properties of null (reading '" +:+ key +:+ "')"))
  | _ => Ok (Js_field key v)
  end.

Definition uuidList (env : Env.t) (type : GameType) : M (list string) :=
  let* response :=
    fetch_get_uuid_list env
      (match type with
       | VsInfoType => statInk +:+ "/api/v3/s3s/uuid-list"
       | CoopInfoType => statInk +:+ "/api/v3/salmon/uuid-list"
       end)
      (requestHeaders env) in
  let* _ := checkResponse response in
  let* uuidResult := Response_json response in
  match uuidResult with
  | UuidArray ids => ret ids
  | _ =>
      (* the arguments of [new APIError] are evaluated first, and among
         them [uuidResult.message] *)
      match Js_get (uuid_value uuidResult) "message" with
      | Ok message =>
          throw (ThrowAPIError
            {| APIError.response := erase_response response;
               APIError.json := Some (erase uuidResult);
               APIError.message := message |})
      | Throw e => throw e
      end
  end.

(** [resp.json().catch(() => ({}))]. *)
Definition json_or_empty (resp : Response.t StatInkPostResponse) : StatInkPostResponse :=
  default (JsObject []) (Response.json resp).

(** The condition of [if (json.error)], once [json.error] is read. *)
Definition has_error (json : StatInkPostResponse) : bool :=
  match Js_field "error" json with
  | Some v => truthy v
  | None => false
  end.

(** The common body of [postBattle] and [postCoop], which differ in the
    endpoint and the kind of body only. *)
Definition post_body (env : Env.t) (path : string) (body : PostBody)
  : M StatInkPostResponse :=
  let* resp :=
    fetch_post env (statInk +:+ path)
      (requestHeaders env ++ [("Content-Type", "application/x-msgpack")])%list
      body in
  let json := json_or_empty resp in
  if negb (Response.status resp =? 200) && negb (Response.status resp =? 201) then
    throw (ThrowAPIError
      {| APIError.response := erase_response resp;
         APIError.message := Some (JsString "Failed to export battle");
         APIError.json := Some (erase json) |})
  else
    (* [json.error] *)
    match Js_get json "error" with
    | Throw e => throw e
    | Ok _ =>
        if has_error json then
          throw (ThrowAPIError
            {| APIError.response := erase_response resp;
               APIError.message := Some (JsString "Failed to export battle");
               APIError.json := Some (erase json) |})
        else ret json
    end.

Definition postBattle (env : Env.t) (body : StatInkPostBody.t) : M StatInkPostResponse :=
  post_body env "/api/v3/battle" (BattleBody body).

Definition postCoop (env : Env.t) (body : StatInkCoopPostBody.t) : M StatInkPostResponse :=
  post_body env "/api/v3/salmon" (CoopBody body).

Definition _getCached (env : Env.t) (url : string) : M (list CatalogEntry.t) :=
  let* w := get_world in
  match World.cache w !! url with
  | Some cached => ret cached
  | None =>
      let* resp := fetch_get_catalog env url (requestHeaders env) in
      let* _ := checkResponse resp in
      let* json := Response_json resp in
      let* _ := modify (set_cache url json) in
      ret json
  end.

(** The middle dot of stat.ink (U+00B7) and the hyphenation point of
    SplatNet (U+2027), as UTF-8: searching and replacing a whole code point
    byte-wise agrees with doing so on code units. *)
Definition STAT_INK_DOT : string := "·".
Definition SPLATNET_DOT : string := "‧".

Definition _getAliasName (name : string) : list string :=
  if Js.includes STAT_INK_DOT name
  then [name; Js.replaceAll STAT_INK_DOT SPLATNET_DOT name]
  else [name].

Definition getSalmonWeapon (env : Env.t) : M (list CatalogEntry.t) :=
  _getCached env (statInk +:+ "/api/v3/salmon/weapon?full=1").

Definition getWeapon (env : Env.t) : M (list CatalogEntry.t) :=
  _getCached env (statInk +:+ "/api/v3/weapon?full=1").

Definition getAbility (env : Env.t) : M (list CatalogEntry.t) :=
  _getCached env (statInk +:+ "/api/v3/ability?full=1").

Definition getStage (env : Env.t) : M (list CatalogEntry.t) :=
  _getCached env (statInk +:+ "/api/v3/stage").

(** The names one weapon contributes, in order:
    [Object.values(weapon.name).flatMap((n) => this._getAliasName(n))]. *)
Definition weapon_names (weapon : CatalogEntry.t) : list string :=
  flat_map _getAliasName (Object_values (CatalogEntry.name weapon)).

(** The body of the inner loop of [getSalmonWeaponMap]: warn when the name
    is already mapped to another key, then set it. *)
Definition salmonWeaponMap_step (key name : string) (w : World.t) : World.t :=
  let prevKey := World._salmonWeaponMap w !! name in
  let w1 :=
    match prevKey with
    | Some prev =>
        if negb (String.eqb prev key)
        then console_warn ("Duplicate weapon name: " +:+ name) w
        else w
    | None => w
    end in
  set_salmonWeaponMap name key w1.

Definition getSalmonWeaponMap (env : Env.t) : M (gmap string string) :=
  let* w := get_world in
  if (size (World._salmonWeaponMap w) =? 0)%nat then
    let* weapons := getSalmonWeapon env in
    let* _ :=
      forM weapons (fun weapon =>
        forM (weapon_names weapon) (fun name =>
          modify (salmonWeaponMap_step (CatalogEntry.key weapon) name))) in
    let* w' := get_world in
    if (size (World._salmonWeaponMap w') =? 0)%nat
    then throw (ThrowError "Failed to get salmon weapon map")
    else ret (World._salmonWeaponMap w')
  else ret (World._salmonWeaponMap w).

(** ** [StatInkExporter]: versus battles *)

(** Running a synchronous function that may throw inside a method. *)
Definition lift {A} (r : Result A) : M A :=
  match r with
  | Ok a => ret a
  | Throw e => throw e
  end.

(** [l.includes(x)] on an array of strings. *)
Definition Array_includes (x : string) (l : list string) : bool :=
  existsb (String.eqb x) l.

(** [l.findIndex(p)], which is [l.indexOf(l.find(p))] when an element is
    found; [-1] otherwise. *)
Fixpoint findIndex {A} (p : A -> bool) (index : Z) (l : list A) : Z :=
  match l with
  | [] => -1
  | x :: rest => if p x then index else findIndex p (index + 1) rest
  end.

Definition isTriColor (env : Env.t) (vsDetail : VsHistoryDetail.t) : bool :=
  String.eqb (VsMode.mode (VsHistoryDetail.vsMode vsDetail)) "FEST"
  && (Env.b64Number env (VsMode.id (VsHistoryDetail.vsMode vsDetail)) =? 8).

Definition mapLobby (env : Env.t) (vsDetail : VsHistoryDetail.t) : Result string :=
  let vsMode := VsMode.mode (VsHistoryDetail.vsMode vsDetail) in
  let unknown := Throw (ThrowTypeError ("Unknown vsMode " +:+ vsMode)) in
  if String.eqb vsMode "REGULAR" then Ok "regular"
  else if String.eqb vsMode "BANKARA" then
    let mode :=
      match VsHistoryDetail.bankaraMatch vsDetail with
      | Some bankaraMatch => BankaraMatch.mode bankaraMatch
      | None => "UNKNOWN"
      end in
    if String.eqb mode "OPEN" then Ok "bankara_open"
    else if String.eqb mode "CHALLENGE" then Ok "bankara_challenge"
    else unknown
  else if String.eqb vsMode "PRIVATE" then Ok "private"
  else if String.eqb vsMode "FEST" then
    let modeId := Env.b64Number env (VsMode.id (VsHistoryDetail.vsMode vsDetail)) in
    if modeId =? 6 then Ok "splatfest_open"
    else if modeId =? 7 then Ok "splatfest_challenge"
    else if modeId =? 8 then Ok "splatfest_open"
    else unknown
  else if String.eqb vsMode "X_MATCH" then Ok "xmatch"
  else unknown.

(** The stage of the catalog one of whose aliases is the decoded id:
    [stage.find((s) => s.aliases.includes(id))]. *)
Definition find_stage (id : string) (stage : list CatalogEntry.t) : option CatalogEntry.t :=
  find (fun s => Array_includes id (CatalogEntry.aliases s)) stage.

Definition mapStage (env : Env.t) (vsDetail : VsHistoryDetail.t) : M string :=
  let vsStage := VsHistoryDetail.vsStage vsDetail in
  let id := Js.toString (Env.b64Number env (VsStage.id vsStage)) in
  let* stage := getStage env in
  match find_stage id stage with
  | None => throw (ThrowError ("Unknown stage: " +:+ VsStage.name vsStage))
  | Some result => ret (CatalogEntry.key result)
  end.

Definition mapAbility (amap : list CatalogEntry.t) (power : Named.t) : option string :=
  CatalogEntry.key <$>
    find (fun a => Array_includes (Named.name power) (Object_values (CatalogEntry.name a))) amap.

Definition mapGear (amap : list CatalogEntry.t) (gear : PlayerGear.t) : Result StatInkGear.t :=
  let primaryGearPower := PlayerGear.primaryGearPower gear in
  let unknown := Throw (ThrowError ("Unknown ability: " +:+ Named.name primaryGearPower)) in
  match mapAbility amap primaryGearPower with
  | Some primary =>
      if Js.truthy_string primary then
        Ok {| StatInkGear.primary_ability := primary;
              StatInkGear.secondary_abilities :=
                map (mapAbility amap) (PlayerGear.additionalGearPowers gear) |}
      else unknown
  | None => unknown
  end.

Definition mapGears (env : Env.t) (player : VsPlayer.t) : M StatInkGears.t :=
  let* amap := getAbility env in
  let* headgear := lift (mapGear amap (VsPlayer.headGear player)) in
  let* clothing := lift (mapGear amap (VsPlayer.clothingGear player)) in
  let* shoes := lift (mapGear amap (VsPlayer.shoesGear player)) in
  ret {| StatInkGears.headgear := headgear;
         StatInkGears.clothing := clothing;
         StatInkGears.shoes := shoes |}.

Definition yes_no (b : bool) : string := if b then "yes" else "no".

Definition mapPlayer (env : Env.t) (player : VsPlayer.t) (index : Z) : M StatInkPlayer.t :=
  let* gears := mapGears env player in
  let result := VsPlayer.result player in
  ret {| StatInkPlayer.me := yes_no (VsPlayer.isMyself player);
         StatInkPlayer.rank_in_team := index + 1;
         StatInkPlayer.name := VsPlayer.name player;
         StatInkPlayer.number := VsPlayer.nameId player;
         StatInkPlayer.splashtag_title := VsPlayer.byname player;
         StatInkPlayer.weapon := Js.toString (Env.b64Number env (IdRef.id (VsPlayer.weapon player)));
         StatInkPlayer.inked := VsPlayer.paint player;
         StatInkPlayer.gears := gears;
         StatInkPlayer.crown := yes_no (VsPlayer.crown player);
         StatInkPlayer.disconnected :=
           match result with Some _ => "no" | None => "yes" end;
         StatInkPlayer.kill_or_assist := VsPlayerResult.kill <$> result;
         StatInkPlayer.assist := VsPlayerResult.assist <$> result;
         StatInkPlayer.kill :=
           (fun r => VsPlayerResult.kill r - VsPlayerResult.assist r) <$> result;
         StatInkPlayer.death := VsPlayerResult.death <$> result;
         StatInkPlayer.signal := result ≫= VsPlayerResult.noroshiTry;
         StatInkPlayer.special := VsPlayerResult.special <$> result |}.

Definition float2hex (env : Env.t) (i : Q) : string :=
  Js.padStart 2 "0" (Js.toString16 (Js.Math_round (Env.fl env (i * 255)))).

Definition mapColor (env : Env.t) (color : Color.t) : string :=
  let nums := [Color.r color; Color.g color; Color.b color; Color.a color] in
  String.concat EmptyString (map (float2hex env) nums).

(** The text before the first decimal digit. *)
Fixpoint before_digits (s : string) : string :=
  match s with
  | String c rest => if Js.is_digit c then EmptyString else String c (before_digits rest)
  | EmptyString => EmptyString
  end.

(** The first run of decimal digits, empty when there is none. *)
Fixpoint first_digits (s : string) : string :=
  match s with
  | String c rest =>
      if Js.is_digit c
      then String c (match rest with
                     | String d _ => if Js.is_digit d then first_digits rest else EmptyString
                     | EmptyString => EmptyString
                     end)
      else first_digits rest
  | EmptyString => EmptyString
  end.

(** [parseUdemae]: [udemae.split(/([0-9]+)/)] starts with the text before the
    first run of digits, followed by that run when there is one. *)
Definition parseUdemae (udemae : string) : string * option Z :=
  let rank := before_digits udemae in
  let rankNum := first_digits udemae in
  (Js.toLowerCase rank,
   if Js.truthy_string rankNum then Js.parseInt rankNum else None).

Definition sum_paint (players : list VsPlayer.t) : Z :=
  fold_left (fun acc i => acc + VsPlayer.paint i) players 0.

(** [(team?.result?.paintRatio ?? 0) * 100]. *)
Definition team_percent (env : Env.t) (team : VsTeam.t) : Q :=
  Env.fl env (default 0%Q (VsTeam.result team ≫= VsTeamResult.paintRatio) * 100)%Q.

(** A string field that is set only when the source string is truthy. *)
Definition when_truthy (s : option string) : option string :=
  match s with
  | Some t => if Js.truthy_string t then Some t else None
  | None => None
  end.

Definition team_role (team : VsTeam.t) : option string :=
  (fun role => if String.eqb role "DEFENSE" then "defender" else "attacker")
    <$> when_truthy (VsTeam.tricolorRole team).

(** The rank fields of a battle, in the order [mapBattle] assigns them. *)
Module RankFields.
Record t := {
  rank_exp_change : option Z;
  rank_before : option string;
  rank_before_s_plus : option Z;
  rank_up_battle : option string;
  rank_after : option string;
  rank_after_s_plus : option Z;
  rank_before_exp : option Z;
  rank_after_exp : option Z }.
End RankFields.

Definition mapRank (vs : VsInfo.t) : RankFields.t :=
  let bankaraMatch := VsHistoryDetail.bankaraMatch (VsInfo.detail vs) in
  let bankaraMatchChallenge := VsInfo.bankaraMatchChallenge vs in
  let challengeProgress := VsInfo.challengeProgress vs in
  (* result.rank_exp_change = bankaraMatch?.earnedUdemaePoint ?? undefined *)
  let exp_change0 := bankaraMatch ≫= BankaraMatch.earnedUdemaePoint in
  (* if (listNode?.udemae) *)
  let before :=
    match VsInfo.listNode vs with
    | Some listNode =>
        if Js.truthy_string (ListNode.udemae listNode)
        then (Some (fst (parseUdemae (ListNode.udemae listNode))),
              snd (parseUdemae (ListNode.udemae listNode)))
        else (None, None)
    | None => (None, None)
    end in
  (* if (bankaraMatchChallenge && challengeProgress) *)
  let '(rank_up_battle, after1, exp_change1) :=
    match bankaraMatchChallenge, challengeProgress with
    | Some bmc, Some progress =>
        let first_with_after :=
          if ChallengeProgress.index progress =? 0
          then when_truthy (BankaraMatchChallenge.udemaeAfter bmc)
          else None in
        match first_with_after with
        | Some udemaeAfter =>
            (Some (yes_no (BankaraMatchChallenge.isPromo bmc)),
             (Some (fst (parseUdemae udemaeAfter)), snd (parseUdemae udemaeAfter)),
             BankaraMatchChallenge.earnedUdemaePoint bmc)
        | None =>
            (Some (yes_no (BankaraMatchChallenge.isPromo bmc)), before, exp_change0)
        end
    | _, _ => (None, (None, None), exp_change0)
    end in
  (* if (rankBeforeState && rankState) *)
  match VsInfo.rankBeforeState vs, VsInfo.rankState vs with
  | Some rankBeforeState, Some rankState =>
      let isUdemaeUp :=
        default false (bankaraMatchChallenge ≫= BankaraMatchChallenge.isUdemaeUp) in
      let exp_change2 :=
        match exp_change1 with
        | None =>
            if negb isUdemaeUp
            then Some (RankState.rankPoint rankState - RankState.rankPoint rankBeforeState)
            else None
        | Some change => Some change
        end in
      let after2 :=
        match when_truthy (fst after1) with
        | Some _ => after1
        | None =>
            (Some (fst (parseUdemae (RankState.rank rankState))),
             snd (parseUdemae (RankState.rank rankState)))
        end in
      {| RankFields.rank_exp_change := exp_change2;
         RankFields.rank_before := fst before;
         RankFields.rank_before_s_plus := snd before;
         RankFields.rank_up_battle := rank_up_battle;
         RankFields.rank_after := fst after2;
         RankFields.rank_after_s_plus := snd after2;
         RankFields.rank_before_exp := Some (RankState.rankPoint rankBeforeState);
         RankFields.rank_after_exp := Some (RankState.rankPoint rankState) |}
  | _, _ =>
      {| RankFields.rank_exp_change := exp_change1;
         RankFields.rank_before := fst before;
         RankFields.rank_before_s_plus := snd before;
         RankFields.rank_up_battle := rank_up_battle;
         RankFields.rank_after := fst after1;
         RankFields.rank_after_s_plus := snd after1;
         RankFields.rank_before_exp := None;
         RankFields.rank_after_exp := None |}
  end.

(** The X power before and after. *)
Definition mapXPower (vs : VsInfo.t) : option Q * option Q :=
  match VsHistoryDetail.xMatch (VsInfo.detail vs) with
  | Some xMatch =>
      let last := XMatch.lastXPower xMatch in
      match VsInfo.groupInfo vs ≫= VsGroupInfo.xMatchMeasurement with
      | Some measurement =>
          if String.eqb (XMatchMeasurement.state measurement) "COMPLETED"
             && match VsInfo.challengeProgress vs with
                | Some progress => ChallengeProgress.index progress =? 0
                | None => false
                end
          then (last, XMatchMeasurement.xPowerAfter measurement)
          else (last, last)
      | None => (last, last)
      end
  | None => (None, None)
  end.

Definition mapBattle (env : Env.t) (vs : VsInfo.t) : M StatInkPostBody.t :=
  let vsDetail := VsInfo.detail vs in
  let rule := VsRule.rule (VsHistoryDetail.vsRule vsDetail) in
  let myTeam := VsHistoryDetail.myTeam vsDetail in
  let otherTeams := VsHistoryDetail.otherTeams vsDetail in
  let festMatch := VsHistoryDetail.festMatch vsDetail in
  match find VsPlayer.isMyself (VsTeam.players myTeam) with
  | None => throw (ThrowError "Self not found")
  | Some self =>
      let startedAt := Env.Date_getTime env (VsHistoryDetail.playedTime vsDetail) / 1000 in
      match otherTeams with
      | [] => throw (ThrowError "Other teams is empty")
      | theirTeam :: moreTeams =>
          let uuid := Env.gameId env (VsHistoryDetail.id vsDetail) in
          let* lobby := lift (mapLobby env vsDetail) in
          let* stage := mapStage env vsDetail in
          let* our_team_players := mapM_index (mapPlayer env) 0 (VsTeam.players myTeam) in
          let* their_team_players := mapM_index (mapPlayer env) 0 (VsTeam.players theirTeam) in
          let result := VsPlayer.result self in
          (* otherTeams.length === 2 *)
          let thirdTeam :=
            match moreTeams with
            | [third] => Some third
            | _ => None
            end in
          let turf := String.eqb rule "TURF_WAR" || String.eqb rule "TRI_COLOR" in
          let* third_team_players :=
            match thirdTeam with
            | Some third =>
                if turf
                then let* ps := mapM_index (mapPlayer env) 0 (VsTeam.players third) in
                     ret (Some ps)
                else ret None
            | None => ret None
            end in
          let when_turf {A} (x : option A) : option A := if turf then x else None in
          let rank := mapRank vs in
          let x_power := mapXPower vs in
          ret {|
            StatInkPostBody.uuid := uuid;
            StatInkPostBody.lobby := lobby;
            StatInkPostBody.rule := Env.RULE env rule;
            StatInkPostBody.stage := stage;
            StatInkPostBody.result := Env.RESULT env (VsHistoryDetail.judgement vsDetail);
            StatInkPostBody.weapon :=
              Js.toString (Env.b64Number env (IdRef.id (VsPlayer.weapon self)));
            StatInkPostBody.inked := VsPlayer.paint self;
            StatInkPostBody.rank_in_team :=
              findIndex VsPlayer.isMyself 0 (VsTeam.players myTeam) + 1;
            StatInkPostBody.medals := map Named.name (VsHistoryDetail.awards vsDetail);
            StatInkPostBody.our_team_players := our_team_players;
            StatInkPostBody.their_team_players := their_team_players;
            StatInkPostBody.agent := Env.AGENT_NAME env;
            StatInkPostBody.agent_version := Env.S3SI_VERSION env;
            StatInkPostBody.agent_variables_upload_mode := Env.uploadMode env;
            StatInkPostBody.automated := "yes";
            StatInkPostBody.start_at := startedAt;
            StatInkPostBody.end_at := startedAt + VsHistoryDetail.duration vsDetail;
            StatInkPostBody.kill_or_assist := VsPlayerResult.kill <$> result;
            StatInkPostBody.assist := VsPlayerResult.assist <$> result;
            StatInkPostBody.kill :=
              (fun r => VsPlayerResult.kill r - VsPlayerResult.assist r) <$> result;
            StatInkPostBody.death := VsPlayerResult.death <$> result;
            StatInkPostBody.signal := result ≫= VsPlayerResult.noroshiTry;
            StatInkPostBody.special := VsPlayerResult.special <$> result;
            StatInkPostBody.our_team_color := Some (mapColor env (VsTeam.color myTeam));
            StatInkPostBody.their_team_color := Some (mapColor env (VsTeam.color theirTeam));
            StatInkPostBody.third_team_color :=
              (fun third => mapColor env (VsTeam.color third)) <$> thirdTeam;
            StatInkPostBody.fest_dragon :=
              festMatch ≫= (fun f => Env.DRAGON env (FestMatch.dragonMatchType f));
            StatInkPostBody.clout_change := FestMatch.contribution <$> festMatch;
            StatInkPostBody.fest_power := festMatch ≫= FestMatch.myFestPower;
            StatInkPostBody.our_team_percent := when_turf (Some (team_percent env myTeam));
            StatInkPostBody.their_team_percent := when_turf (Some (team_percent env theirTeam));
            StatInkPostBody.our_team_inked := when_turf (Some (sum_paint (VsTeam.players myTeam)));
            StatInkPostBody.their_team_inked :=
              when_turf (Some (sum_paint (VsTeam.players theirTeam)));
            StatInkPostBody.our_team_theme := when_turf (when_truthy (VsTeam.festTeamName myTeam));
            StatInkPostBody.our_team_role := when_turf (team_role myTeam);
            StatInkPostBody.their_team_theme :=
              when_turf (when_truthy (VsTeam.festTeamName theirTeam));
            StatInkPostBody.their_team_role := when_turf (team_role theirTeam);
            StatInkPostBody.third_team_players := third_team_players;
            StatInkPostBody.third_team_percent := when_turf (team_percent env <$> thirdTeam);
            StatInkPostBody.third_team_inked :=
              when_turf ((fun third => sum_paint (VsTeam.players third)) <$> thirdTeam);
            StatInkPostBody.third_team_theme :=
              when_turf (thirdTeam ≫= (fun third => when_truthy (VsTeam.festTeamName third)));
            StatInkPostBody.third_team_role := when_turf (thirdTeam ≫= team_role);
            StatInkPostBody.knockout :=
              (fun k => if String.eqb k "NEITHER" then "no" else "yes")
                <$> when_truthy (VsHistoryDetail.knockout vsDetail);
            StatInkPostBody.our_team_count := VsTeam.result myTeam ≫= VsTeamResult.score;
            StatInkPostBody.their_team_count := VsTeam.result theirTeam ≫= VsTeamResult.score;
            StatInkPostBody.rank_exp_change := RankFields.rank_exp_change rank;
            StatInkPostBody.rank_before := RankFields.rank_before rank;
            StatInkPostBody.rank_before_s_plus := RankFields.rank_before_s_plus rank;
            StatInkPostBody.rank_up_battle := RankFields.rank_up_battle rank;
            StatInkPostBody.rank_after := RankFields.rank_after rank;
            StatInkPostBody.rank_after_s_plus := RankFields.rank_after_s_plus rank;
            StatInkPostBody.challenge_win :=
              ChallengeProgress.winCount <$> VsInfo.challengeProgress vs;
            StatInkPostBody.challenge_lose :=
              ChallengeProgress.loseCount <$> VsInfo.challengeProgress vs;
            StatInkPostBody.x_power_before := fst x_power;
            StatInkPostBody.x_power_after := snd x_power;
            StatInkPostBody.rank_before_exp := RankFields.rank_before_exp rank;
            StatInkPostBody.rank_after_exp := RankFields.rank_after_exp rank |}
      end
  end.

(** ** [StatInkExporter]: coop sessions *)

Definition RANDOM_FILENAME : string :=
  "473fffb2442075078d8bb7125744905abdeae651b6a5b7453ae295582e45f7d1".

Definition isRandom (image : option Image.t) : bool :=
  match image ≫= Image.url with
  | Some (UrlString url) => Js.includes RANDOM_FILENAME url
  | Some (UrlObject pathname) => Js.includes RANDOM_FILENAME pathname
  | Some UrlNull | None => false
  end.

Definition mapCoopWeapon (env : Env.t) (w : CoopWeapon.t) : M (option string) :=
  let* weaponMap := getSalmonWeaponMap env in
  match when_truthy (weaponMap !! CoopWeapon.name w) with
  | Some weapon => ret (Some weapon)
  | None =>
      if isRandom (CoopWeapon.image w) then ret None
      else throw (ThrowError ("Weapon not found: " +:+ CoopWeapon.name w))
  end.

(** Whether [s] starts with [_0.] followed by a word character: the part
    of the pattern after the group. *)
Definition after_group (s : string) : bool :=
  match s with
  | String "_" (String "0" (String "." (String c _))) => Js.is_word_char c
  | _ => false
  end.

(** The group [(\w+)] of [/\/(\w+)_0\.\w+/] matched at the start of [s],
    the text after a slash: the longest run of word characters that the
    rest of the pattern can follow. *)
Fixpoint match_group (s : string) : option string :=
  match s with
  | String c rest =>
      if Js.is_word_char c then
        match match_group rest with
        | Some group => Some (String c group)
        | None => if after_group rest then Some (String c EmptyString) else None
        end
      else None
  | EmptyString => None
  end.

(** [/\/(\w+)_0\.\w+/.exec(s)?.[1]]: the group of the leftmost match. *)
Fixpoint exec_group (s : string) : option string :=
  match s with
  | String c rest =>
      match (if Ascii.eqb c "/" then match_group rest else None) with
      | Some group => Some group
      | None => exec_group rest
      end
  | EmptyString => None
  end.

(** [mapSpecial].  In [typeof url === "object" ? url.pathname : url ?? ""]
    a [null] url counts as an object, and reading its [pathname] throws. *)
Definition mapSpecial (env : Env.t) (specialWeapon : CoopSpecial.t) : Result (option string) :=
  let image := CoopSpecial.image specialWeapon in
  match Image.url image with
  | Some UrlNull =>
      Throw (ThrowTypeError "Cannot read properties of null (reading 'pathname')")
  | url =>
      let imageName :=
        match url with
        | Some (UrlObject pathname) => pathname
        | Some (UrlString url) => url
        | _ => EmptyString
        end in
      let hash := default EmptyString (exec_group imageName) in
      match when_truthy (Env.COOP_SPECIAL_MAP env hash) with
      | Some special => Ok (Some special)
      | None =>
          if isRandom (Some image) then Ok None
          else Throw (ThrowError
                 ("Special not found: " +:+ CoopSpecial.name specialWeapon
                  +:+ " (" +:+ imageName +:+ ")"))
      end
  end.

(** The test of [mapCoopPlayer]:
    [[...].every((v) => v === 0) || !specialWeapon]. *)
Definition is_disconnected (p : CoopHistoryPlayerResult.t) : bool :=
  forallb (fun v => v =? 0)
    [ CoopHistoryPlayerResult.goldenDeliverCount p;
      CoopHistoryPlayerResult.deliverCount p;
      CoopHistoryPlayerResult.rescueCount p;
      CoopHistoryPlayerResult.rescuedCount p;
      CoopHistoryPlayerResult.defeatEnemyCount p ]
  || match CoopHistoryPlayerResult.specialWeapon p with
     | Some _ => false
     | None => true
     end.

Definition mapCoopPlayer (env : Env.t) (isMyself : bool) (p : CoopHistoryPlayerResult.t)
  : M StatInkCoopPlayer.t :=
  let player := CoopHistoryPlayerResult.player p in
  let disconnected := is_disconnected p in
  let* special :=
    match CoopHistoryPlayerResult.specialWeapon p with
    | Some specialWeapon => lift (mapSpecial env specialWeapon)
    | None => ret None
    end in
  let* weapons := mapM (mapCoopWeapon env) (CoopHistoryPlayerResult.weapons p) in
  ret {| StatInkCoopPlayer.me := yes_no isMyself;
         StatInkCoopPlayer.name := CoopPlayer.name player;
         StatInkCoopPlayer.number := CoopPlayer.nameId player;
         StatInkCoopPlayer.splashtag_title := CoopPlayer.byname player;
         StatInkCoopPlayer.uniform :=
           Js.toString (Env.b64Number env (IdRef.id (CoopPlayer.uniform player)));
         StatInkCoopPlayer.special := special;
         StatInkCoopPlayer.weapons := weapons;
         StatInkCoopPlayer.golden_eggs := CoopHistoryPlayerResult.goldenDeliverCount p;
         StatInkCoopPlayer.golden_assist := CoopHistoryPlayerResult.goldenAssistCount p;
         StatInkCoopPlayer.power_eggs := CoopHistoryPlayerResult.deliverCount p;
         StatInkCoopPlayer.rescue := CoopHistoryPlayerResult.rescueCount p;
         StatInkCoopPlayer.rescued := CoopHistoryPlayerResult.rescuedCount p;
         StatInkCoopPlayer.defeat_boss := CoopHistoryPlayerResult.defeatEnemyCount p;
         StatInkCoopPlayer.disconnected := yes_no disconnected |}.

Definition mapKing (env : Env.t) (id : option string) : option string :=
  (fun i => Js.toString (Env.b64Number env i)) <$> when_truthy id.

(** The counting [reduce] of [mapWave]. *)
Definition count_special_uses (keys : list string) : gmap string Z :=
  fold_left (fun p key => <[key := default 0 (p !! key) + 1]> p) keys ∅.

Definition mapWave (env : Env.t) (wave : WaveResult.t) : M StatInkCoopWave.t :=
  let event :=
    WaveResult.eventWave wave
      ≫= (fun e => Env.COOP_EVENT_MAP env (Env.b64Number env (IdRef.id e))) in
  let* specials :=
    mapM (fun w => lift (mapSpecial env w)) (WaveResult.specialWeapons wave) in
  let special_uses :=
    count_special_uses
      (flat_map (fun key => match when_truthy key with Some k => [k] | None => [] end)
                specials) in
  ret {| StatInkCoopWave.tide := Env.WATER_LEVEL_MAP env (WaveResult.waterLevel wave);
         StatInkCoopWave.event := event;
         StatInkCoopWave.golden_quota := WaveResult.deliverNorm wave;
         StatInkCoopWave.golden_appearances := WaveResult.goldenPopCount wave;
         StatInkCoopWave.golden_delivered := WaveResult.teamDeliverCount wave;
         StatInkCoopWave.special_uses := special_uses;
         StatInkCoopWave.danger_rate := None |}.

(** [maxWaves]: 5 for the team contest, 3 otherwise. *)
Definition maxWaves (detail : CoopHistoryDetail.t) : Z :=
  if String.eqb (CoopHistoryDetail.rule detail) "TEAM_CONTEST" then 5 else 3.

(** [clear_waves]: the waves numbered up to [maxWaves], minus one, plus one
    when [resultWave] is zero; zero when there is no wave. *)
Definition clear_waves_of (detail : CoopHistoryDetail.t) : Z :=
  let waveResults := CoopHistoryDetail.waveResults detail in
  if (0 <? length waveResults)%nat then
    Z.of_nat (length (List.filter (fun i => WaveResult.waveNumber i <? maxWaves detail + 1)
                             waveResults))
    - 1 + (if CoopHistoryDetail.resultWave detail =? 0 then 1 else 0)
  else 0.

(** The title and points before the session when no [gradeBefore] is
    given, from the title and points after it and the point change
    [expDiff]. *)
Definition infer_title_before
    (title_after : option string) (title_exp_after : option Z) (expDiff : option Z)
  : option string * option Z :=
  match title_after, title_exp_after, expDiff with
  | Some title_after, Some title_exp_after, Some expDiff =>
      if (title_exp_after =? 40) && (expDiff =? 20) then
        (* 20 -> 40 or ?(rank up) -> 40 *)
        (None, None)
      else if (title_exp_after =? 40) && (expDiff <? 0)
              && negb (String.eqb title_after "8") then
        (* 60,50 -> 40 or ?(rank down) to 40 *)
        (None, None)
      else if (title_exp_after =? 999) && negb (expDiff =? 0) then
        (* 980,990 -> 999 *)
        (Some title_after, None)
      else if title_exp_after - expDiff >=? 0 then
        (Some title_after, Some (title_exp_after - expDiff))
      else
        (Some (Js.toString_nan ((fun n => n - 1) <$> Js.parseInt title_after)), None)
  | _, _, _ => (None, None)
  end.

(** [fail_reason]. *)
Definition fail_reason_of (detail : CoopHistoryDetail.t) (clear_waves : Z) : option string :=
  let waveResults := CoopHistoryDetail.waveResults detail in
  if negb (clear_waves =? maxWaves detail) && (0 <? length waveResults)%nat then
    match last waveResults with
    | Some lastWave =>
        if WaveResult.teamDeliverCount lastWave >=? WaveResult.deliverNorm lastWave
        then Some "wipe_out"
        else None
    | None => None
    end
  else None.

(** [Object.fromEntries] over the enemies: a later entry with the same
    decoded id replaces an earlier one. *)
Definition bosses_of (env : Env.t) (enemyResults : list EnemyResult.t)
  : gmap Z StatInkCoopBoss.t :=
  fold_left
    (fun acc i =>
       <[Env.b64Number env (IdRef.id (EnemyResult.enemy i)) :=
           {| StatInkCoopBoss.appearances := EnemyResult.popCount i;
              StatInkCoopBoss.defeated := EnemyResult.teamDefeatCount i;
              StatInkCoopBoss.defeated_by_me := EnemyResult.defeatCount i |}]> acc)
    enemyResults ∅.

(** [delivered >= quota * 1.5], the product being exact on counts. *)
Definition at_least_one_and_a_half (delivered quota : Z) : bool :=
  Qle_bool (inject_Z quota * (3 # 2)) (inject_Z delivered).

(** [added_percent] of the danger-rate loop, from the number of players and
    the eggs of the previous wave. *)
Definition added_percent (num_players : nat) (quota delivered : Z) : Z :=
  if (num_players =? 4)%nat then
    if delivered >=? quota * 2 then 60
    else if at_least_one_and_a_half delivered quota then 30
    else 0
  else if (num_players =? 3)%nat then
    if delivered >=? quota * 2 then 40
    else if at_least_one_and_a_half delivered quota then 20
    else 0
  else if (num_players =? 2)%nat then
    if delivered >=? quota * 2 then 20
    else if at_least_one_and_a_half delivered quota then
      let added_percent := 10 in
      let added_percent := 5 in
      added_percent
    else 0
  else if (num_players =? 1)%nat then
    if delivered >=? quota * 2 then 10
    else if at_least_one_and_a_half delivered quota then 5
    else 0
  else 0.

Definition set_danger_rate (haz_level : Z) (wave : StatInkCoopWave.t) : StatInkCoopWave.t :=
  {| StatInkCoopWave.tide := StatInkCoopWave.tide wave;
     StatInkCoopWave.event := StatInkCoopWave.event wave;
     StatInkCoopWave.golden_quota := StatInkCoopWave.golden_quota wave;
     StatInkCoopWave.golden_appearances := StatInkCoopWave.golden_appearances wave;
     StatInkCoopWave.golden_delivered := StatInkCoopWave.golden_delivered wave;
     StatInkCoopWave.special_uses := StatInkCoopWave.special_uses wave;
     StatInkCoopWave.danger_rate := Some haz_level |}.

(** The loop that fills [danger_rate] wave by wave; [lastWave] is the wave
    updated by the previous iteration.  ([null] counts as zero in a sum.) *)
Fixpoint fill_danger_rate (num_players : nat) (lastWave : option StatInkCoopWave.t)
    (waves : list StatInkCoopWave.t) : list StatInkCoopWave.t :=
  match waves with
  | [] => []
  | wave :: rest =>
      let haz_level :=
        match lastWave with
        | None => 60
        | Some lastWave =>
            let quota := StatInkCoopWave.golden_quota lastWave in
            let delivered := StatInkCoopWave.golden_delivered lastWave in
            let prev_percent := default 0 (StatInkCoopWave.danger_rate lastWave) in
            prev_percent + added_percent num_players quota delivered
        end in
      let wave := set_danger_rate haz_level wave in
      wave :: fill_danger_rate num_players (Some wave) rest
  end.

(** The literal [result] of [mapCoop], given the mapped waves and players,
    followed by the loop that fills the danger rate of the waves. *)
Definition mapCoop_result (env : Env.t) (coop : CoopInfo.t)
    (waves : list StatInkCoopWave.t) (players : list StatInkCoopPlayer.t)
  : StatInkCoopPostBody.t :=
  let detail := CoopInfo.detail coop in
  let waveResults := CoopHistoryDetail.waveResults detail in
  let myResult := CoopHistoryDetail.myResult detail in
  let memberResults := CoopHistoryDetail.memberResults detail in
  let scale := CoopHistoryDetail.scale detail in
  let startedAt := Env.Date_getTime env (CoopHistoryDetail.playedTime detail) / 1000 in
  let golden_eggs :=
    fold_left (fun prev i => prev + WaveResult.teamDeliverCount i) waveResults 0 in
  let power_eggs :=
    CoopHistoryPlayerResult.deliverCount myResult
    + fold_left (fun p i => p + CoopHistoryPlayerResult.deliverCount i) memberResults 0 in
  let bosses := bosses_of env (CoopHistoryDetail.enemyResults detail) in
  let title_after :=
    (fun g => Js.toString (Env.b64Number env (IdRef.id g)))
      <$> CoopHistoryDetail.afterGrade detail in
  let title_exp_after := CoopHistoryDetail.afterGradePoint detail in
  let clear_waves := clear_waves_of detail in
  let title_before_and_exp :=
    match CoopInfo.gradeBefore coop with
    | Some gradeBefore =>
        (Some (Js.toString (Env.b64Number env (IdRef.id (GradeBefore.grade gradeBefore)))),
         Some (GradeBefore.gradePoint gradeBefore))
    | None => infer_title_before title_after title_exp_after (COOP_POINT_MAP clear_waves)
    end in
  let fail_reason := fail_reason_of detail clear_waves in
  let team_contest := String.eqb (CoopHistoryDetail.rule detail) "TEAM_CONTEST" in
  let uuid := Env.gameId env (CoopHistoryDetail.id detail) in
  {|
    StatInkCoopPostBody.uuid := uuid;
    StatInkCoopPostBody.private :=
      yes_no (match CoopInfo.groupInfo coop with
              | Some groupInfo => String.eqb (CoopGroupInfo.mode groupInfo) "PRIVATE_CUSTOM"
              | None => false
              end);
    StatInkCoopPostBody.big_run := yes_no (String.eqb (CoopHistoryDetail.rule detail) "BIG_RUN");
    StatInkCoopPostBody.eggstra_work := yes_no team_contest;
    StatInkCoopPostBody.stage :=
      Js.toString (Env.b64Number env (IdRef.id (CoopHistoryDetail.coopStage detail)));
    StatInkCoopPostBody.danger_rate :=
      if team_contest then None
      else Some (Env.fl env (CoopHistoryDetail.dangerRate detail * 100)%Q);
    StatInkCoopPostBody.clear_waves := clear_waves;
    StatInkCoopPostBody.fail_reason := fail_reason;
    StatInkCoopPostBody.king_smell := CoopHistoryDetail.smellMeter detail;
    StatInkCoopPostBody.king_salmonid :=
      mapKing env ((fun b => IdRef.id (BossResult.boss b))
                     <$> CoopHistoryDetail.bossResult detail);
    StatInkCoopPostBody.clear_extra :=
      yes_no (match CoopHistoryDetail.bossResult detail with
              | Some bossResult => BossResult.hasDefeatBoss bossResult
              | None => false
              end);
    StatInkCoopPostBody.title_before := fst title_before_and_exp;
    StatInkCoopPostBody.title_exp_before := snd title_before_and_exp;
    StatInkCoopPostBody.title_after := title_after;
    StatInkCoopPostBody.title_exp_after := title_exp_after;
    StatInkCoopPostBody.golden_eggs := golden_eggs;
    StatInkCoopPostBody.power_eggs := power_eggs;
    StatInkCoopPostBody.gold_scale := Scale.gold <$> scale;
    StatInkCoopPostBody.silver_scale := Scale.silver <$> scale;
    StatInkCoopPostBody.bronze_scale := Scale.bronze <$> scale;
    StatInkCoopPostBody.job_point := CoopHistoryDetail.jobPoint detail;
    StatInkCoopPostBody.job_score := CoopHistoryDetail.jobScore detail;
    StatInkCoopPostBody.job_rate := CoopHistoryDetail.jobRate detail;
    StatInkCoopPostBody.job_bonus := CoopHistoryDetail.jobBonus detail;
    StatInkCoopPostBody.waves :=
      if team_contest then fill_danger_rate (length players) None waves else waves;
    StatInkCoopPostBody.players := players;
    StatInkCoopPostBody.bosses := bosses;
    StatInkCoopPostBody.agent := Env.AGENT_NAME env;
    StatInkCoopPostBody.agent_version := Env.S3SI_VERSION env;
    StatInkCoopPostBody.agent_variables_upload_mode := Env.uploadMode env;
    StatInkCoopPostBody.automated := "yes";
    StatInkCoopPostBody.start_at := startedAt |}.

Definition mapCoop (env : Env.t) (coop : CoopInfo.t) : M StatInkCoopPostBody.t :=
  let detail := CoopInfo.detail coop in
  let* waves := mapM (mapWave env) (CoopHistoryDetail.waveResults detail) in
  let* players :=
    mapM (fun p => mapCoopPlayer env (fst p) (snd p))
         ((true, CoopHistoryDetail.myResult detail)
          :: map (fun p => (false, p)) (CoopHistoryDetail.memberResults detail)) in
  ret (mapCoop_result env coop waves players).

(** ** [exportGame] and [notExported] *)

(** [ExportResult]; [url] is whatever the answer to the upload has under
    that name. *)
Module ExportResult.
Record t := { status : string; url : option JsValue }.
End ExportResult.

Definition exportGame (env : Env.t) (game : Game) : M ExportResult.t :=
  match game with
  | GameVsInfo vs =>
      let* body := mapBattle env vs in
      (* [const { url } = await this.api.postBattle(body)] *)
      let* json := postBattle env body in
      let* url := lift (Js_get json "url") in
      ret {| ExportResult.status := "success";
             ExportResult.url := url |}
  | GameCoopInfo coop =>
      let* body := mapCoop env coop in
      let* json := postCoop env body in
      let* url := lift (Js_get json "url") in
      ret {| ExportResult.status := "success";
             ExportResult.url := url |}
  end.

(** The test of the loop of [notExported]: none of the three ids derived
    from [id] is in the uploaded list. *)
Definition not_uploaded (env : Env.t) (uuid : list string) (id : string) : bool :=
  let s3sId := Env.gameId env id in
  let s3siId := Env.s3siGameId env id in
  let s3sCoopId := Env.s3sCoopGameId env id in
  negb (Array_includes s3sId uuid) && negb (Array_includes s3siId uuid)
  && negb (Array_includes s3sCoopId uuid).

(** The loop of [notExported]: [out.push(id)] for the ids that pass. *)
Definition notExported_loop (env : Env.t) (uuid : list string) (list : list string)
  : Datatypes.list string :=
  fold_left (fun out id => if not_uploaded env uuid id then (out ++ [id])%list else out)
            list [].

Definition notExported (env : Env.t) (type : GameType) (list : list string)
  : M (Datatypes.list string) :=
  let* uuid := uuidList env type in
  ret (notExported_loop env uuid list).

(** ** A concrete environment and sessions to run the exporter on

    Ids are written in their decoded form, a name, a dash and the number,
    and [demo_b64Number] reads the number after the dash. *)

Fixpoint after_dash (s : string) : string :=
  match s with
  | String c rest => if Ascii.eqb c "-" then rest else after_dash rest
  | EmptyString => EmptyString
  end.

Definition demo_b64Number (id : string) : Z :=
  default 0 (Js.parseInt (after_dash id)).

Definition demo_entry (key name : string) (aliases : list string) : CatalogEntry.t :=
  {| CatalogEntry.key := key;
     CatalogEntry.name := [("en_US", name)];
     CatalogEntry.aliases := aliases |}.

Definition demo_stages : list CatalogEntry.t :=
  [ demo_entry "yunohana" "Scorch Gorge" ["1"; "yunohana"];
    demo_entry "gonzui" "Eeltail Alley" ["2"; "gonzui"] ].

Definition demo_abilities : list CatalogEntry.t :=
  [ demo_entry "ink_saver_main" "Ink Saver (Main)" [];
    demo_entry "swim_speed_up" "Swim Speed Up" [] ].

Definition demo_salmon_weapons : list CatalogEntry.t :=
  [ demo_entry "wakaba" "Splattershot Jr." [];
    {| CatalogEntry.key := "bamboo14mk1";
       CatalogEntry.name := [("en_US", "Bamboozler 14 Mk I"); ("zh_TW", "14式竹筒槍·甲")];
       CatalogEntry.aliases := [] |} ].

(** Two weapons that share a display name. *)
Definition demo_clashing_weapons : list CatalogEntry.t :=
  [ demo_entry "kuma_blaster" "Grizzco Weapon" [];
    demo_entry "kuma_stringer" "Grizzco Weapon" [] ].

Definition demo_upload_ok : Response.t StatInkPostResponse :=
  {| Response.status := 201;
     Response.json :=
       Some (JsObject [ ("id", JsString "0f7a6c1e");
                        ("url", JsString "https://stat.ink/@demo/spl3/1") ]) |}.

(** An answer with status 200 whose [error] field is present and [null]. *)
Definition demo_upload_null_error : Response.t StatInkPostResponse :=
  {| Response.status := 200;
     Response.json :=
       Some (JsObject [ ("error", JsNull);
                        ("url", JsString "https://stat.ink/@demo/spl3/2") ]) |}.

(** An answer with status 200 whose body is [null]. *)
Definition demo_upload_null : Response.t StatInkPostResponse :=
  {| Response.status := 200; Response.json := Some JsNull |}.

(** An answer with status 401 and an error object. *)
Definition demo_upload_refused : Response.t StatInkPostResponse :=
  {| Response.status := 401;
     Response.json := Some (JsObject [ ("error", JsString "Unauthorized") ]) |}.

Definition demo_special_hash : string :=
  "bd327d1b64372dedefd32adb28bea62a5b6152d93aada5d9fc4f669a1955d6d4".

Definition demo_env_with (salmon : list CatalogEntry.t)
    (uuids : Response.t StatInkUuidList)
    (upload : Response.t StatInkPostResponse) : Env.t :=
  {| Env.AGENT_NAME := "s3si.ts";
     Env.S3SI_VERSION := "0.3.0";
     Env.USERAGENT := "s3si.ts/0.3.0";
     Env.RULE := fun rule =>
       if String.eqb rule "TURF_WAR" then Some "nawabari"
       else if String.eqb rule "AREA" then Some "area" else None;
     Env.RESULT := fun judgement =>
       if String.eqb judgement "WIN" then Some "win"
       else if String.eqb judgement "LOSE" then Some "lose" else None;
     Env.DRAGON := fun _ => None;
     Env.COOP_SPECIAL_MAP := fun hash =>
       if String.eqb hash demo_special_hash then Some "nicedama" else None;
     Env.COOP_EVENT_MAP := fun id => if id =? 1 then Some "rush" else None;
     Env.WATER_LEVEL_MAP := fun level =>
       if level =? 0 then Some "low" else if level =? 1 then Some "normal"
       else if level =? 2 then Some "high" else None;
     Env.b64Number := demo_b64Number;
     Env.gameId := fun id => "s3s:" +:+ id;
     Env.s3siGameId := fun id => "s3si:" +:+ id;
     Env.s3sCoopGameId := fun id => "coop:" +:+ id;
     Env.Date_getTime := fun _ => 1700000000000;
     Env.fl := Qred;
     Env.get_uuid_list := fun _ _ _ => uuids;
     Env.get_catalog := fun _ url _ =>
       {| Response.status := 200;
          Response.json :=
            Some (if String.eqb url (statInk +:+ "/api/v3/stage") then demo_stages
                  else if String.eqb url (statInk +:+ "/api/v3/ability?full=1")
                  then demo_abilities
                  else salmon) |};
     Env.post := fun _ _ _ _ => upload;
     Env.statInkApiKey := "0123456789abcdefghijklmnopqrstuvwxyzABCDEFG";
     Env.uploadMode := "Manual" |}.

Definition demo_uuids : Response.t StatInkUuidList :=
  {| Response.status := 200;
     Response.json := Some (UuidArray ["s3s:battle-1"; "s3si:battle-2"; "coop:battle-3"]) |}.

Definition demo_uuids_error : Response.t StatInkUuidList :=
  {| Response.status := 200;
     Response.json :=
       Some (UuidObject [ ("name", JsString "Unauthorized");
                          ("message", JsString "Your request was made with invalid credentials.");
                          ("status", JsNumber 401) ]) |}.

(** A uuid list answered with status 200 and the body [null]. *)
Definition demo_uuids_null : Response.t StatInkUuidList :=
  {| Response.status := 200; Response.json := Some UuidNull |}.

Definition demo_env : Env.t := demo_env_with demo_salmon_weapons demo_uuids demo_upload_ok.

Definition demo_special : CoopSpecial.t :=
  {| CoopSpecial.name := "Booyah Bomb";
     CoopSpecial.image :=
       {| Image.url :=
            Some (UrlString ("https://api.lp1.av5ja.srv.nintendo.net/resources/prod/special_img/blue/"
                             +:+ demo_special_hash +:+ "_0.png")) |} |}.

Definition demo_coop_player (special : option CoopSpecial.t) (eggs : Z)
  : CoopHistoryPlayerResult.t :=
  {| CoopHistoryPlayerResult.player :=
       {| CoopPlayer.name := "Player";
          CoopPlayer.nameId := "1234";
          CoopPlayer.byname := "Splatlandian Youth";
          CoopPlayer.uniform := {| IdRef.id := "CoopUniform-1" |} |};
     CoopHistoryPlayerResult.weapons :=
       [ {| CoopWeapon.name := "Splattershot Jr."; CoopWeapon.image := None |};
         {| CoopWeapon.name := "14式竹筒槍‧甲"; CoopWeapon.image := None |} ];
     CoopHistoryPlayerResult.specialWeapon := special;
     CoopHistoryPlayerResult.defeatEnemyCount := 4;
     CoopHistoryPlayerResult.deliverCount := 310;
     CoopHistoryPlayerResult.goldenAssistCount := 2;
     CoopHistoryPlayerResult.goldenDeliverCount := eggs;
     CoopHistoryPlayerResult.rescueCount := 1;
     CoopHistoryPlayerResult.rescuedCount := 0 |}.

Definition demo_wave (waveNumber deliverNorm teamDeliverCount : Z) : WaveResult.t :=
  {| WaveResult.waveNumber := waveNumber;
     WaveResult.waterLevel := 1;
     WaveResult.eventWave := None;
     WaveResult.deliverNorm := deliverNorm;
     WaveResult.goldenPopCount := teamDeliverCount + 10;
     WaveResult.teamDeliverCount := teamDeliverCount;
     WaveResult.specialWeapons := [demo_special] |}.

Definition demo_coop (rule : string) (waves : list WaveResult.t) (resultWave : Z)
    (afterGradePoint : Z) (members : nat) : CoopInfo.t :=
  {| CoopInfo.gradeBefore := None;
     CoopInfo.groupInfo := None;
     CoopInfo.detail :=
       {| CoopHistoryDetail.id := "CoopHistoryDetail-1";
          CoopHistoryDetail.rule := rule;
          CoopHistoryDetail.dangerRate := 23 # 10;
          CoopHistoryDetail.resultWave := resultWave;
          CoopHistoryDetail.bossResult := None;
          CoopHistoryDetail.myResult := demo_coop_player (Some demo_special) 12;
          CoopHistoryDetail.memberResults :=
            repeat (demo_coop_player (Some demo_special) 9) members;
          CoopHistoryDetail.scale := None;
          CoopHistoryDetail.playedTime := "2023-11-14T22:13:20Z";
          CoopHistoryDetail.enemyResults := [];
          CoopHistoryDetail.smellMeter := Some 3;
          CoopHistoryDetail.waveResults := waves;
          CoopHistoryDetail.afterGrade := Some {| IdRef.id := "CoopGrade-5" |};
          CoopHistoryDetail.afterGradePoint := Some afterGradePoint;
          CoopHistoryDetail.coopStage := {| IdRef.id := "CoopStage-2" |};
          CoopHistoryDetail.jobPoint := Some 300;
          CoopHistoryDetail.jobScore := Some 120;
          CoopHistoryDetail.jobRate := Some (5 # 2);
          CoopHistoryDetail.jobBonus := Some 0 |} |}.

Definition demo_gear : PlayerGear.t :=
  {| PlayerGear.primaryGearPower := {| Named.name := "Ink Saver (Main)" |};
     PlayerGear.additionalGearPowers :=
       [ {| Named.name := "Swim Speed Up" |}; {| Named.name := "Unknown" |} ] |}.

Definition demo_vs_player (isMyself : bool) : VsPlayer.t :=
  {| VsPlayer.isMyself := isMyself;
     VsPlayer.name := "Player";
     VsPlayer.nameId := Some "1234";
     VsPlayer.byname := "Splatlandian Youth";
     VsPlayer.weapon := {| IdRef.id := "Weapon-40" |};
     VsPlayer.paint := 987;
     VsPlayer.headGear := demo_gear;
     VsPlayer.clothingGear := demo_gear;
     VsPlayer.shoesGear := demo_gear;
     VsPlayer.crown := false;
     VsPlayer.result :=
       Some {| VsPlayerResult.kill := 7;
               VsPlayerResult.death := 3;
               VsPlayerResult.assist := 2;
               VsPlayerResult.special := 1;
               VsPlayerResult.noroshiTry := None |} |}.

Definition demo_team (isMine : bool) (color : Color.t) : VsTeam.t :=
  {| VsTeam.players := [demo_vs_player false; demo_vs_player isMine];
     VsTeam.color := color;
     VsTeam.result :=
       Some {| VsTeamResult.paintRatio := Some (481 # 1000);
               VsTeamResult.score := None |};
     VsTeam.festTeamName := None;
     VsTeam.tricolorRole := None |}.

Definition demo_color : Color.t :=
  {| Color.r := 4 # 5; Color.g := 1 # 3; Color.b := 0; Color.a := 1 |}.

(** A regular turf war on the stage with the given id. *)
Definition demo_vs (stageId : string) : VsInfo.t :=
  {| VsInfo.groupInfo := None;
     VsInfo.challengeProgress := None;
     VsInfo.bankaraMatchChallenge := None;
     VsInfo.listNode := None;
     VsInfo.detail :=
       {| VsHistoryDetail.id := "VsHistoryDetail-1";
          VsHistoryDetail.vsMode := {| VsMode.mode := "REGULAR"; VsMode.id := "VsMode-1" |};
          VsHistoryDetail.vsRule := {| VsRule.rule := "TURF_WAR" |};
          VsHistoryDetail.vsStage := {| VsStage.id := stageId; VsStage.name := "Somewhere" |};
          VsHistoryDetail.judgement := "WIN";
          VsHistoryDetail.knockout := None;
          VsHistoryDetail.myTeam := demo_team true demo_color;
          VsHistoryDetail.otherTeams :=
            [demo_team false {| Color.r := 0; Color.g := 1 # 2; Color.b := 1; Color.a := 1 |}];
          VsHistoryDetail.bankaraMatch := None;
          VsHistoryDetail.festMatch := None;
          VsHistoryDetail.xMatch := None;
          VsHistoryDetail.playedTime := "2023-11-14T22:13:20Z";
          VsHistoryDetail.duration := 180;
          VsHistoryDetail.awards := [ {| Named.name := "#1 Turf Inker" |} ] |};
     VsInfo.rankBeforeState := None;
     VsInfo.rankState := None |}.

(** ** Notions the statements below are written with *)

(** Whether [weapon] carries [name] among the names it contributes. *)
Definition produces (name : string) (weapon : CatalogEntry.t) : bool :=
  Array_includes name (weapon_names weapon).

(** The key of the first weapon, in fetch order, that produces [name]. *)
Definition first_key (name : string) (weapons : list CatalogEntry.t) : option string :=
  CatalogEntry.key <$> find (produces name) weapons.

(** The key of the last weapon, in fetch order, that produces [name]. *)
Definition last_key (name : string) (weapons : list CatalogEntry.t) : option string :=
  CatalogEntry.key <$> find (produces name) (rev weapons).

(** Two weapons with different keys produce [name]. *)
Definition clash (name : string) (weapons : list CatalogEntry.t) : Prop :=
  exists weapon1 weapon2,
    In weapon1 weapons /\ In weapon2 weapons /\
    produces name weapon1 = true /\ produces name weapon2 = true /\
    CatalogEntry.key weapon1 <> CatalogEntry.key weapon2.

(** The (name, key) pairs in the order the loops of [getSalmonWeaponMap]
    visit them. *)
Definition entries (weapons : list CatalogEntry.t) : list (string * string) :=
  flat_map (fun weapon => map (fun name => (name, CatalogEntry.key weapon))
                              (weapon_names weapon))
           weapons.

Definition step_entry (w : World.t) (entry : string * string) : World.t :=
  salmonWeaponMap_step (snd entry) (fst entry) w.

(** The key of the last of [es] whose name is [name]. *)
Fixpoint last_entry (name : string) (es : list (string * string)) : option string :=
  match es with
  | [] => None
  | (n, k) :: rest =>
      match last_entry name rest with
      | Some k' => Some k'
      | None => if String.eqb n name then Some k else None
      end
  end.

(** The table of increments of the danger rate as the specification gives
    it, for one to four players: at least twice the quota, at least one and
    a half times the quota, or less. *)
Definition spec_added_percent (players : nat) (quota delivered : Z) : option Z :=
  let pick (twice one_and_a_half : Z) :=
    if 2 * quota <=? delivered then twice
    else if 3 * quota <=? 2 * delivered then one_and_a_half
    else 0 in
  match players with
  | 4%nat => Some (pick 60 30)
  | 3%nat => Some (pick 40 20)
  | 2%nat => Some (pick 20 5)
  | 1%nat => Some (pick 10 5)
  | _ => None
  end.

(** Errors of the mappers, as opposed to errors of the stat.ink API. *)
Definition is_mapping_error (e : Exn) : bool :=
  match e with
  | ThrowError _ | ThrowTypeError _ => true
  | ThrowAPIError _ | ThrowSyntaxError => false
  end.

(** A versus session that maps up to its stage: the player is in the own
    team, there is an opposing team and the lobby is known. *)
Definition maps_up_to_stage (env : Env.t) (vs : VsInfo.t) : Prop :=
  find VsPlayer.isMyself (VsTeam.players (VsHistoryDetail.myTeam (VsInfo.detail vs))) <> None
  /\ VsHistoryDetail.otherTeams (VsInfo.detail vs) <> []
  /\ exists lobby, mapLobby env (VsInfo.detail vs) = Ok lobby.

(** Decoding a colour: the value of a hexadecimal digit, of a two-digit
    channel, and the four channels and components in order. *)
Definition hex_digit (c : ascii) : option Z :=
  let n := nat_of_ascii c in
  if Js.is_digit c then Some (Z.of_nat n - 48)
  else if (97 <=? n)%nat && (n <=? 102)%nat then Some (Z.of_nat n - 87)
  else if (65 <=? n)%nat && (n <=? 70)%nat then Some (Z.of_nat n - 55)
  else None.

Definition parse_hex2 (s : string) : option Z :=
  match s with
  | String hi (String lo EmptyString) =>
      match hex_digit hi, hex_digit lo with
      | Some h, Some l => Some (16 * h + l)
      | _, _ => None
      end
  | _ => None
  end.

Definition channel (k : nat) (s : string) : string := String.substring (2 * k) 2 s.

Definition component (k : nat) (color : Color.t) : Q :=
  nth k [Color.r color; Color.g color; Color.b color; Color.a color] 0%Q.

Definition is_hex_string (s : string) : bool :=
  forallb (fun c => match hex_digit c with Some _ => true | None => false end)
          (list_ascii_of_string s).

(** What the statements on colours need of the floating-point product: on
    [0, 255] it stays in range and is off by at most one half.  (Rounding to
    the nearest double is monotone, fixes 0 and 255, and is off by less than
    a millionth there.) *)
Definition fl_accurate (fl : Q -> Q) : Prop :=
  forall x : Q, (0 <= x <= 255)%Q ->
    (0 <= fl x <= 255)%Q /\ (Qabs (fl x - x) <= 1 # 2)%Q.

(** A colour whose four components lie in [0, 1]. *)
Definition unit_color (color : Color.t) : Prop :=
  forall k : nat, (k < 4)%nat -> (0 <= component k color <= 1)%Q.

(** The check behind the statement on colours, for one channel value. *)
Definition hex_channel_ok (n : nat) : bool :=
  let s := Js.padStart 2 "0" (Js.toString16 (Z.of_nat n)) in
  (String.length s =? 2)%nat && is_hex_string s
  && match parse_hex2 s with
     | Some m => m =? Z.of_nat n
     | None => false
     end.

(** That only the transport's requests differ between two worlds. *)
Definition same_api_state (w w' : World.t) : Prop :=
  World.cache w' = World.cache w
  /\ World._salmonWeaponMap w' = World._salmonWeaponMap w
  /\ World.console w' = World.console w.

(** A method that sends no upload, whatever it returns. *)
Definition no_upload {A} (m : M A) : Prop :=
  forall w r w', m w = (r, w') ->
    uploads (World.requests w') = uploads (World.requests w).

(** The endpoint of [uuidList] and the answer the fetcher gives there. *)
Definition uuid_list_url (type : GameType) : string :=
  match type with
  | VsInfoType => statInk +:+ "/api/v3/s3s/uuid-list"
  | CoopInfoType => statInk +:+ "/api/v3/salmon/uuid-list"
  end.

Definition uuid_list_response (env : Env.t) (type : GameType) (w : World.t)
  : Response.t StatInkUuidList :=
  Env.get_uuid_list env (World.requests w) (uuid_list_url type) (requestHeaders env).

(** The request of an upload and the answer the fetcher gives to it. *)
Definition upload_headers (env : Env.t) : Headers :=
  (requestHeaders env ++ [("Content-Type", "application/x-msgpack")])%list.

Definition upload_request (env : Env.t) (path : string) (body : PostBody) : Request :=
  POST (statInk +:+ path) (upload_headers env) body.

Definition upload_response (env : Env.t) (path : string) (body : PostBody) (w : World.t)
  : Response.t StatInkPostResponse :=
  Env.post env (World.requests w) (statInk +:+ path) (upload_headers env) body.

(** The [APIError] of a failed upload, field by field: the response (its
    status and its body as parsed, if it parses), the parsed body (the empty
    object when it does not parse) and the message. *)
Definition upload_error (resp : Response.t StatInkPostResponse) : Exn :=
  ThrowAPIError
    {| APIError.response :=
         {| Response.status := Response.status resp;
            Response.json :=
              match Response.json resp with
              | Some json => Some (PostJson json)
              | None => None
              end |};
       APIError.message := Some (JsString "Failed to export battle");
       APIError.json :=
         Some (PostJson match Response.json resp with
                        | Some json => json
                        | None => JsObject []
                        end) |}.

(** The [APIError] of a uuid list whose body is not an array, field by
    field: the response, the body and the message read off the body. *)
Definition uuid_list_error (status : Z) (body : StatInkUuidList) (message : option JsValue)
  : Exn :=
  ThrowAPIError
    {| APIError.response :=
         {| Response.status := status; Response.json := Some (UuidListJson body) |};
       APIError.json := Some (UuidListJson body);
       APIError.message := message |}.

(** Status 200 or 201. *)
Definition status_ok (resp : Response.t StatInkPostResponse) : bool :=
  (Response.status resp =? 200) || (Response.status resp =? 201).

(** The environment whose uploads are answered with status 200 and a
    [null] error field. *)
Definition demo_env_null_error : Env.t :=
  demo_env_with demo_salmon_weapons demo_uuids demo_upload_null_error.

(** The environment whose uuid list is answered with an error object. *)
Definition demo_env_uuid_error : Env.t :=
  demo_env_with demo_salmon_weapons demo_uuids_error demo_upload_ok.

(** The environment whose uuid list is answered with the body [null]. *)
Definition demo_env_uuid_null : Env.t :=
  demo_env_with demo_salmon_weapons demo_uuids_null demo_upload_ok.

(** The environments whose uploads are answered with the body [null], and
    with status 401. *)
Definition demo_env_upload_null : Env.t :=
  demo_env_with demo_salmon_weapons demo_uuids demo_upload_null.

Definition demo_env_upload_refused : Env.t :=
  demo_env_with demo_salmon_weapons demo_uuids demo_upload_refused.

(** The environment whose salmon weapons share a display name. *)
Definition demo_env_clash : Env.t :=
  demo_env_with demo_clashing_weapons demo_uuids demo_upload_ok.

(** The body [mapBattle] builds for a battle on a known stage. *)
Definition demo_battle_body : option StatInkPostBody.t :=
  value (mapBattle demo_env (demo_vs "VsStage-1") World_initial).

(** The invariant of the loops of [getSalmonWeaponMap] on the warnings:
    for every name, either its warning is on the console or every pair seen
    so far with that name has the key the map now gives it. *)
Definition warned_or_agreed (seen : list (string * string)) (w : World.t) : Prop :=
  forall name,
    In ("Duplicate weapon name: " +:+ name) (World.console w)
    \/ forall k, In (name, k) seen -> World._salmonWeaponMap w !! name = Some k.

(** ** Notions of the further properties *)

(** A string without a decimal digit, and a string of decimal digits. *)
Definition no_digit (s : string) : bool :=
  forallb (fun c => negb (Js.is_digit c)) (list_ascii_of_string s).

Definition all_digits (s : string) : bool :=
  forallb Js.is_digit (list_ascii_of_string s).

(** A string of word characters, the [\w] of a regular expression. *)
Definition all_word (s : string) : bool :=
  forallb Js.is_word_char (list_ascii_of_string s).

(** The address of a special weapon's image: a directory, a file name
    [hash], the suffix [_0.] and an extension. *)
Definition special_image_name (dir hash ext : string) : string :=
  dir +:+ "/" +:+ hash +:+ "_0." +:+ ext.

Definition special_of (name : string) (url : ImageUrl) : CoopSpecial.t :=
  {| CoopSpecial.name := name; CoopSpecial.image := {| Image.url := Some url |} |}.

(** The spelling SplatNet gives a display name of stat.ink. *)
Definition splatnet_spelling (name : string) : string :=
  Js.replaceAll STAT_INK_DOT SPLATNET_DOT name.

Definition duplicate_warning (name : string) : string :=
  "Duplicate weapon name: " +:+ name.

(** [w'] knows what [w] knows: every catalog cached in [w] is cached in
    [w'], and a salmon weapon map that is built stays as it is. *)
Definition extends (w w' : World.t) : Prop :=
  (forall url json, World.cache w !! url = Some json -> World.cache w' !! url = Some json)
  /\ (World._salmonWeaponMap w <> ∅ ->
      World._salmonWeaponMap w' = World._salmonWeaponMap w).

(** A method that only adds to what the object knows, and that, run again
    in a state that knows what its successful run left, returns the same
    value and leaves that state as it is. *)
Definition replayable {A} (m : M A) : Prop :=
  (forall w r w', m w = (r, w') -> extends w w')
  /\ (forall w a w' w'',
         m w = (Ok a, w') -> extends w' w'' -> m w'' = (Ok a, w'')).

Definition Zsum (l : list Z) : Z := fold_right Z.add 0 l.

(** Whether [mapSpecial] gives a special weapon the key [key]. *)
Definition special_is (env : Env.t) (key : string) (specialWeapon : CoopSpecial.t) : bool :=
  match mapSpecial env specialWeapon with
  | Ok (Some k) => String.eqb k key
  | _ => false
  end.

(** The entry of [bosses] an enemy result gives. *)
Definition boss_of (i : EnemyResult.t) : StatInkCoopBoss.t :=
  {| StatInkCoopBoss.appearances := EnemyResult.popCount i;
     StatInkCoopBoss.defeated := EnemyResult.teamDefeatCount i;
     StatInkCoopBoss.defeated_by_me := EnemyResult.defeatCount i |}.

(** Whether the decoded id of an enemy is [id]. *)
Definition enemy_is (env : Env.t) (id : Z) (i : EnemyResult.t) : bool :=
  Env.b64Number env (IdRef.id (EnemyResult.enemy i)) =? id.

Definition request_url (req : Request) : string :=
  match req with
  | GET url _ => url
  | POST url _ _ => url
  end.

Definition request_headers (req : Request) : Headers :=
  match req with
  | GET _ headers => headers
  | POST _ headers _ => headers
  end.

(** A request to the API of stat.ink that carries the user agent and the
    API key as a bearer token. *)
Definition authorized (env : Env.t) (req : Request) : Prop :=
  String.prefix (statInk +:+ "/api/v3/") (request_url req) = true
  /\ In ("User-Agent", Env.USERAGENT env) (request_headers req)
  /\ In ("Authorization", "Bearer " +:+ Env.statInkApiKey env) (request_headers req).

(** A method that keeps the requests sent before it and adds authorized
    requests only. *)
Definition sends_only (env : Env.t) {A} (m : M A) : Prop :=
  forall w r w', m w = (r, w') ->
    exists new, World.requests w' = (World.requests w ++ new)%list
                /\ Forall (authorized env) new.

(** The addresses of the catalogs the exporter reads. *)
Definition catalog_url (url : string) : Prop :=
  url = statInk +:+ "/api/v3/stage"
  \/ url = statInk +:+ "/api/v3/ability?full=1"
  \/ url = statInk +:+ "/api/v3/salmon/weapon?full=1".

(** An Anarchy battle outside a series, with the rank states before and
    after it and no earned points. *)
Definition demo_ranked (pointsBefore pointsAfter : Z) : VsInfo.t :=
  let vs := demo_vs "VsStage-1" in
  let detail := VsInfo.detail vs in
  {| VsInfo.groupInfo := None;
     VsInfo.challengeProgress := None;
     VsInfo.bankaraMatchChallenge := None;
     VsInfo.listNode := Some {| ListNode.udemae := "S+3" |};
     VsInfo.detail :=
       {| VsHistoryDetail.id := VsHistoryDetail.id detail;
          VsHistoryDetail.vsMode := {| VsMode.mode := "BANKARA"; VsMode.id := "VsMode-51" |};
          VsHistoryDetail.vsRule := {| VsRule.rule := "AREA" |};
          VsHistoryDetail.vsStage := VsHistoryDetail.vsStage detail;
          VsHistoryDetail.judgement := "LOSE";
          VsHistoryDetail.knockout := Some "NEITHER";
          VsHistoryDetail.myTeam := VsHistoryDetail.myTeam detail;
          VsHistoryDetail.otherTeams := VsHistoryDetail.otherTeams detail;
          VsHistoryDetail.bankaraMatch :=
            Some {| BankaraMatch.mode := "OPEN"; BankaraMatch.earnedUdemaePoint := None |};
          VsHistoryDetail.festMatch := None;
          VsHistoryDetail.xMatch := None;
          VsHistoryDetail.playedTime := VsHistoryDetail.playedTime detail;
          VsHistoryDetail.duration := 300;
          VsHistoryDetail.awards := [] |};
     VsInfo.rankBeforeState :=
       Some {| RankState.rank := "S+3"; RankState.rankPoint := pointsBefore |};
     VsInfo.rankState :=
       Some {| RankState.rank := "S+3"; RankState.rankPoint := pointsAfter |} |}.

(** The mapping step of [exportGame]: the endpoint and the body. *)
Definition mapGame (env : Env.t) (game : Game) : M (string * PostBody) :=
  match game with
  | GameVsInfo vs => let* body := mapBattle env vs in ret ("/api/v3/battle", BattleBody body)
  | GameCoopInfo coop => let* body := mapCoop env coop in ret ("/api/v3/salmon", CoopBody body)
  end.

(** The catalogs of stages and of abilities are cached. *)
Definition battle_catalogs_cached (w : World.t) : Prop :=
  is_Some (World.cache w !! (statInk +:+ "/api/v3/stage"))
  /\ is_Some (World.cache w !! (statInk +:+ "/api/v3/ability?full=1")).

(** The salmon weapon map is built. *)
Definition salmon_map_built (w : World.t) : Prop :=
  World._salmonWeaponMap w <> ∅.

(** A method that, in a state where [ready] holds, sends no request and
    leaves the state as it is. *)
Definition quiet_when (ready : World.t -> Prop) {A} (m : M A) : Prop :=
  forall w, ready w -> snd (m w) = w.

(** A coop session with the given enemy results. *)
Definition demo_coop_with_enemies (enemyResults : list EnemyResult.t) : CoopInfo.t :=
  let coop := demo_coop "REGULAR" [demo_wave 1 10 12; demo_wave 2 12 5] 2 60 3 in
  let detail := CoopInfo.detail coop in
  {| CoopInfo.gradeBefore := CoopInfo.gradeBefore coop;
     CoopInfo.groupInfo := CoopInfo.groupInfo coop;
     CoopInfo.detail :=
       {| CoopHistoryDetail.id := CoopHistoryDetail.id detail;
          CoopHistoryDetail.rule := CoopHistoryDetail.rule detail;
          CoopHistoryDetail.dangerRate := CoopHistoryDetail.dangerRate detail;
          CoopHistoryDetail.resultWave := CoopHistoryDetail.resultWave detail;
          CoopHistoryDetail.bossResult := CoopHistoryDetail.bossResult detail;
          CoopHistoryDetail.myResult := CoopHistoryDetail.myResult detail;
          CoopHistoryDetail.memberResults := CoopHistoryDetail.memberResults detail;
          CoopHistoryDetail.scale := CoopHistoryDetail.scale detail;
          CoopHistoryDetail.playedTime := CoopHistoryDetail.playedTime detail;
          CoopHistoryDetail.enemyResults := enemyResults;
          CoopHistoryDetail.smellMeter := CoopHistoryDetail.smellMeter detail;
          CoopHistoryDetail.waveResults := CoopHistoryDetail.waveResults detail;
          CoopHistoryDetail.afterGrade := CoopHistoryDetail.afterGrade detail;
          CoopHistoryDetail.afterGradePoint := CoopHistoryDetail.afterGradePoint detail;
          CoopHistoryDetail.coopStage := CoopHistoryDetail.coopStage detail;
          CoopHistoryDetail.jobPoint := CoopHistoryDetail.jobPoint detail;
          CoopHistoryDetail.jobScore := CoopHistoryDetail.jobScore detail;
          CoopHistoryDetail.jobRate := CoopHistoryDetail.jobRate detail;
          CoopHistoryDetail.jobBonus := CoopHistoryDetail.jobBonus detail |} |}.

Definition demo_enemy (id : string) (popCount teamDefeatCount defeatCount : Z)
  : EnemyResult.t :=
  {| EnemyResult.enemy := {| IdRef.id := id |};
     EnemyResult.popCount := popCount;
     EnemyResult.teamDefeatCount := teamDefeatCount;
     EnemyResult.defeatCount := defeatCount |}.

(** * Properties *)

Local Open Scope list_scope.

(** ** The monad *)

Lemma bind_Ok {A B} (m : M A) (k : A -> M B) w b w' :
  bind m k w = (Ok b, w') ->
  exists a w1, m w = (Ok a, w1) /\ k a w1 = (Ok b, w').
Proof.
  unfold bind. destruct (m w) as [[a|e] w1]; intros H.
  - exists a, w1. split; [reflexivity | exact H].
  - discriminate H.
Qed.

Lemma bind_run {A B} (m : M A) (k : A -> M B) w a w1 :
  m w = (Ok a, w1) -> bind m k w = k a w1.
Proof. unfold bind. intros ->. reflexivity. Qed.

Lemma bind_throw {A B} (m : M A) (k : A -> M B) w e w1 :
  m w = (Throw e, w1) -> bind m k w = (Throw e, w1).
Proof. unfold bind. intros ->. reflexivity. Qed.

Lemma lift_Ok {A} (r : Result A) w a w' :
  lift r w = (Ok a, w') -> r = Ok a /\ w' = w.
Proof.
  destruct r as [x|e]; cbn; intros H; inversion H; subst; auto.
Qed.

Lemma mapM_length {A B} (f : A -> M B) (l : list A) w ys w' :
  mapM f l w = (Ok ys, w') -> length ys = length l.
Proof.
  revert w ys w'. induction l as [|x rest IH]; intros w ys w' H; cbn in H.
  - inversion H. reflexivity.
  - apply bind_Ok in H as (y & w1 & _ & H).
    apply bind_Ok in H as (ys' & w2 & Hrest & H).
    inversion H; subst. cbn. f_equal. eapply IH, Hrest.
Qed.

Lemma mapM_Forall2 {A B} (f : A -> M B) (P : A -> B -> Prop) (l : list A) :
  (forall x w y w', f x w = (Ok y, w') -> P x y) ->
  forall w ys w', mapM f l w = (Ok ys, w') -> Forall2 P l ys.
Proof.
  intros Hf. induction l as [|x rest IH]; intros w ys w' H; cbn in H.
  - inversion H. constructor.
  - apply bind_Ok in H as (y & w1 & Hy & H).
    apply bind_Ok in H as (ys' & w2 & Hrest & H).
    inversion H; subst. constructor; eauto.
Qed.

(** ** [uuidList] *)


Lemma uuidList_run env type w :
  uuidList env type w =
  (let response := uuid_list_response env type w in
   if negb (Response.status response / 100 =? 2) then
     Throw (ThrowAPIError
       {| APIError.response :=
            {| Response.status := Response.status response;
               Response.json :=
                 match Response.json response with
                 | Some body => Some (UuidListJson body)
                 | None => None
                 end |};
          APIError.json :=
            match Response.json response with
            | Some body => Some (UuidListJson body)
            | None => None
            end;
          APIError.message := Some (JsString "Failed to fetch data from stat.ink") |})
   else
     match Response.json response with
     | None => Throw ThrowSyntaxError
     | Some (UuidArray ids) => Ok ids
     | Some (UuidObject fields) =>
         Throw (uuid_list_error (Response.status response) (UuidObject fields)
                  (Js_lookup "message" fields))
     | Some (UuidPrimitive v) =>
         Throw (uuid_list_error (Response.status response) (UuidPrimitive v) None)
     | Some UuidNull =>
         Throw (ThrowTypeError "Cannot read properties of null (reading 'message')")
     end,
   send (GET (uuid_list_url type) (requestHeaders env)) w).
Proof.
  unfold uuidList, uuid_list_response, uuid_list_url, uuid_list_error,
    fetch_get_uuid_list, checkResponse, Response_json, bind.
  destruct type; cbn;
    match goal with
    | |- context [Env.get_uuid_list ?e ?l ?u ?h] =>
        destruct (Env.get_uuid_list e l u h) as [status [[ids|fields|[b|q|s]|]|]]
    end; cbn; destruct (status / 100 =? 2); reflexivity.
Qed.

(** C10, as the code has it.  [uuidList] returns only arrays: a call that
    does not throw returns the array that a 2xx response carried as its body
    (and such a response does make it return).  A 2xx response whose body is
    not an array makes it throw: for an object or a primitive the [APIError]
    that carries the response (its status and that body), the body and the
    body's [message] ([undefined] when it has none); for [null], on which
    [message] cannot be read, a [TypeError].  A 2xx response that does not
    parse makes it throw the [SyntaxError] of [json()]. *)
Theorem uuidList_returns_the_array env type w :
  (forall ids,
      (exists w', uuidList env type w = (Ok ids, w')) <->
      Response.status (uuid_list_response env type w) / 100 = 2
      /\ Response.json (uuid_list_response env type w) = Some (UuidArray ids))
  /\ (forall fields,
      Response.status (uuid_list_response env type w) / 100 = 2 ->
      Response.json (uuid_list_response env type w) = Some (UuidObject fields) ->
      fst (uuidList env type w) =
      Throw (ThrowAPIError
        {| APIError.response :=
             {| Response.status := Response.status (uuid_list_response env type w);
                Response.json := Some (UuidListJson (UuidObject fields)) |};
           APIError.json := Some (UuidListJson (UuidObject fields));
           APIError.message := Js_lookup "message" fields |}))
  /\ (forall v,
      Response.status (uuid_list_response env type w) / 100 = 2 ->
      Response.json (uuid_list_response env type w) = Some (UuidPrimitive v) ->
      fst (uuidList env type w) =
      Throw (ThrowAPIError
        {| APIError.response :=
             {| Response.status := Response.status (uuid_list_response env type w);
                Response.json := Some (UuidListJson (UuidPrimitive v)) |};
           APIError.json := Some (UuidListJson (UuidPrimitive v));
           APIError.message := None |}))
  /\ (Response.status (uuid_list_response env type w) / 100 = 2 ->
      Response.json (uuid_list_response env type w) = Some UuidNull ->
      exists message, fst (uuidList env type w) = Throw (ThrowTypeError message))
  /\ (Response.status (uuid_list_response env type w) / 100 = 2 ->
      Response.json (uuid_list_response env type w) = None ->
      fst (uuidList env type w) = Throw ThrowSyntaxError).
Proof.
  rewrite uuidList_run. cbn zeta. split; [|split; [|split; [|split]]].
  - intros ids. split.
    + intros [w' H]. revert H.
      destruct (Response.status (uuid_list_response env type w) / 100 =? 2) eqn:Hs; cbn.
      * apply Z.eqb_eq in Hs.
        destruct (Response.json (uuid_list_response env type w))
          as [[ids'|fields|v|]|];
          intros H; inversion H; subst; auto.
      * intros H; inversion H.
    + intros [Hs Hj]. rewrite Hs, Hj. cbn. eexists. reflexivity.
  - intros fields Hs Hj. rewrite Hs, Hj. reflexivity.
  - intros v Hs Hj. rewrite Hs, Hj. reflexivity.
  - intros Hs Hj. rewrite Hs, Hj. eexists. reflexivity.
  - intros Hs Hj. rewrite Hs, Hj. reflexivity.
Qed.

(** C10, as stated, fails: a uuid list answered with status 200 and the
    body [null], which is not an array, makes [uuidList] throw a
    [TypeError], not an [APIError]. *)
Lemma uuidList_null_counterexample :
  Response.status (uuid_list_response demo_env_uuid_null CoopInfoType World_initial) = 200
  /\ Response.json (uuid_list_response demo_env_uuid_null CoopInfoType World_initial)
     = Some UuidNull
  /\ fst (uuidList demo_env_uuid_null CoopInfoType World_initial)
     = Throw (ThrowTypeError "Cannot read properties of null (reading 'message')").
Proof. vm_compute. repeat split; reflexivity. Qed.

Lemma uuidList_returns_the_array_witness :
  (Response.status (uuid_list_response demo_env VsInfoType World_initial) / 100 = 2
   /\ Response.json (uuid_list_response demo_env VsInfoType World_initial)
      = Some (UuidArray ["s3s:battle-1"; "s3si:battle-2"; "coop:battle-3"]))
  /\ fst (uuidList demo_env_uuid_error CoopInfoType World_initial) =
     Throw (ThrowAPIError
       {| APIError.response :=
            {| Response.status := 200;
               Response.json :=
                 Some (UuidListJson
                         (UuidObject
                            [ ("name", JsString "Unauthorized");
                              ("message",
                               JsString "Your request was made with invalid credentials.");
                              ("status", JsNumber 401) ])) |};
          APIError.json :=
            Some (UuidListJson
                    (UuidObject
                       [ ("name", JsString "Unauthorized");
                         ("message",
                          JsString "Your request was made with invalid credentials.");
                         ("status", JsNumber 401) ]));
          APIError.message :=
            Some (JsString "Your request was made with invalid credentials.") |}).
Proof.
  split.
  - apply (proj1 (uuidList_returns_the_array demo_env VsInfoType World_initial)).
    eexists. reflexivity.
  - apply (proj1 (proj2 (uuidList_returns_the_array demo_env_uuid_error CoopInfoType
                           World_initial))); reflexivity.
Defined.

(** ** [postBattle] and [postCoop] *)

Lemma post_body_run env path body w :
  post_body env path body w =
  (let resp := upload_response env path body w in
   if status_ok resp then
     match json_or_empty resp with
     | JsNull => Throw (ThrowTypeError "Cannot read properties of null (reading 'error')")
     | json => if has_error json then Throw (upload_error resp) else Ok json
     end
   else Throw (upload_error resp),
   send (upload_request env path body) w).
Proof.
  unfold post_body, upload_response, upload_request, upload_headers, upload_error,
    status_ok, fetch_post, bind, json_or_empty. cbn.
  match goal with
  | |- context [Env.post ?e ?l ?u ?h ?b] => generalize (Env.post e l u h b)
  end.
  intros [status [json|]]; cbn;
    destruct (status =? 200), (status =? 201); cbn; try reflexivity;
    try (destruct json; cbn; try reflexivity;
         match goal with
         | |- context [has_error ?j] => destruct (has_error j); reflexivity
         end).
Qed.

Lemma has_error_true json :
  has_error json = true <->
  exists v, Js_field "error" json = Some v /\ truthy v = true.
Proof.
  unfold has_error. destruct (Js_field "error" json) as [v|].
  - split.
    + intros H. exists v. auto.
    + intros (v' & H & Hv). congruence.
  - split; [discriminate|]. intros (v & H & _). discriminate H.
Qed.

Lemma has_error_null : has_error JsNull = false.
Proof. reflexivity. Qed.

(** What an upload comes to, by the answer [resp] it gets: the parsed body
    when the status is 200 or 201, the body is not [null] and has no truthy
    [error]; the [APIError] of the upload when the status is another one, or
    the body (not [null]) has a truthy [error]; a [TypeError] when the
    status is 200 or 201 and the body is [null]. *)
Lemma post_body_outcome env path body w :
  let resp := upload_response env path body w in
  let json := json_or_empty resp in
  let status_good := Response.status resp = 200 \/ Response.status resp = 201 in
  let error_truthy := exists v, Js_field "error" json = Some v /\ truthy v = true in
  (status_good -> json <> JsNull -> ~ error_truthy ->
   fst (post_body env path body w) = Ok json)
  /\ (~ status_good \/ (json <> JsNull /\ error_truthy) ->
      fst (post_body env path body w) = Throw (upload_error resp))
  /\ (status_good -> json = JsNull ->
      exists message, fst (post_body env path body w) = Throw (ThrowTypeError message))
  /\ ((exists returned, fst (post_body env path body w) = Ok returned) ->
      status_good /\ json <> JsNull /\ ~ error_truthy)
  /\ snd (post_body env path body w) = send (upload_request env path body) w.
Proof.
  intros resp json status_good error_truthy.
  rewrite post_body_run. fold resp. cbn zeta. fold json. cbn [fst snd].
  clearbody json. clearbody resp.
  assert (Hstatus : status_ok resp = true <-> status_good).
  { unfold status_ok, status_good. rewrite orb_true_iff, !Z.eqb_eq. reflexivity. }
  assert (Herror : has_error json = true <-> error_truthy) by apply has_error_true.
  destruct (status_ok resp) eqn:Hs.
  - assert (Hgood : status_good) by (apply Hstatus; reflexivity).
    destruct (has_error json) eqn:He.
    + assert (Htruthy : error_truthy) by (apply Herror; reflexivity).
      assert (Hnn : json <> JsNull).
      { intros Hnull. rewrite Hnull, has_error_null in He. discriminate He. }
      split; [intros _ _ Hn; contradiction|].
      split; [intros _; destruct json; try discriminate He; rewrite He; reflexivity|].
      split; [intros _ Hnull; contradiction|].
      split; [|reflexivity].
      intros [returned H]. destruct json; try discriminate He; rewrite He in H;
        discriminate H.
    + assert (Hfalsy : ~ error_truthy).
      { intros H. apply Herror in H. discriminate H. }
      split; [intros _ Hnn _; destruct json; try contradiction; rewrite He; reflexivity|].
      split; [intros [Hbad | [_ Ht]]; contradiction|].
      split; [intros _ ->; eexists; reflexivity|].
      split; [|reflexivity].
      intros [returned H]. split; [exact Hgood|]. split; [|exact Hfalsy].
      intros Hnull. rewrite Hnull in H. discriminate H.
  - assert (Hbad : ~ status_good).
    { intros H. apply Hstatus in H. discriminate H. }
    split; [intros Hgood; contradiction|].
    split; [reflexivity|].
    split; [intros Hgood; contradiction|].
    split; [|reflexivity].
    intros [returned H]. discriminate H.
Qed.

(** C7, as the code has it.  [postBattle] and [postCoop] send the upload and
    return the parsed body of the response (the value whose [url]
    [exportGame] returns) exactly when the status is 200 or 201, the body is
    not [null] and it has no truthy [error] (the field is missing or falsy,
    or the body is not an object).  With a status outside 200 and 201, or a
    truthy [error], they throw the [APIError] that carries the response (its
    status and its body as parsed) and the parsed body (the empty object
    when the response does not parse).  With status 200 or 201 and the body
    [null], reading [error] throws a [TypeError]. *)
Theorem post_succeeds_iff_ok_and_no_truthy_error env w :
  (forall body,
      let resp := upload_response env "/api/v3/battle" (BattleBody body) w in
      let json := json_or_empty resp in
      let status_good := Response.status resp = 200 \/ Response.status resp = 201 in
      let error_truthy := exists v, Js_field "error" json = Some v /\ truthy v = true in
      (status_good -> json <> JsNull -> ~ error_truthy ->
       fst (postBattle env body w) = Ok json)
      /\ (~ status_good \/ (json <> JsNull /\ error_truthy) ->
          fst (postBattle env body w) = Throw (upload_error resp))
      /\ (status_good -> json = JsNull ->
          exists message, fst (postBattle env body w) = Throw (ThrowTypeError message))
      /\ ((exists returned, fst (postBattle env body w) = Ok returned) ->
          status_good /\ json <> JsNull /\ ~ error_truthy)
      /\ snd (postBattle env body w)
         = send (upload_request env "/api/v3/battle" (BattleBody body)) w)
  /\ (forall body,
      let resp := upload_response env "/api/v3/salmon" (CoopBody body) w in
      let json := json_or_empty resp in
      let status_good := Response.status resp = 200 \/ Response.status resp = 201 in
      let error_truthy := exists v, Js_field "error" json = Some v /\ truthy v = true in
      (status_good -> json <> JsNull -> ~ error_truthy ->
       fst (postCoop env body w) = Ok json)
      /\ (~ status_good \/ (json <> JsNull /\ error_truthy) ->
          fst (postCoop env body w) = Throw (upload_error resp))
      /\ (status_good -> json = JsNull ->
          exists message, fst (postCoop env body w) = Throw (ThrowTypeError message))
      /\ ((exists returned, fst (postCoop env body w) = Ok returned) ->
          status_good /\ json <> JsNull /\ ~ error_truthy)
      /\ snd (postCoop env body w)
         = send (upload_request env "/api/v3/salmon" (CoopBody body)) w).
Proof.
  split; intros body;
    [apply (post_body_outcome env "/api/v3/battle" (BattleBody body) w)
    | apply (post_body_outcome env "/api/v3/salmon" (CoopBody body) w)].
Qed.

(** C7, as stated, fails: an upload answered with status 200 and a body
    whose [error] field is present (and [null]) succeeds. *)
Lemma post_null_error_counterexample :
  Response.status demo_upload_null_error = 200
  /\ Js_field "error" (json_or_empty demo_upload_null_error) = Some JsNull
  /\ (demo_battle_body ≫= fun body =>
        value (postBattle demo_env_null_error body World_initial))
     = Some (json_or_empty demo_upload_null_error).
Proof. vm_compute. repeat split; reflexivity. Qed.

Lemma post_succeeds_iff_ok_and_no_truthy_error_witness :
  (demo_battle_body ≫= fun body => value (postBattle demo_env body World_initial))
  = Some (JsObject [ ("id", JsString "0f7a6c1e");
                     ("url", JsString "https://stat.ink/@demo/spl3/1") ])
  /\ (demo_battle_body ≫= fun body =>
        Some (fst (postBattle demo_env_upload_refused body World_initial)))
     = Some (Throw (ThrowAPIError
               {| APIError.response :=
                    {| Response.status := 401;
                       Response.json :=
                         Some (PostJson (JsObject [ ("error", JsString "Unauthorized") ])) |};
                  APIError.message := Some (JsString "Failed to export battle");
                  APIError.json :=
                    Some (PostJson (JsObject [ ("error", JsString "Unauthorized") ])) |}))
  /\ (demo_battle_body ≫= fun body =>
        Some (fst (postBattle demo_env_upload_null body World_initial)))
     = Some (Throw (ThrowTypeError "Cannot read properties of null (reading 'error')")).
Proof.
  destruct demo_battle_body as [body|] eqn:E; [|discriminate E].
  cbn [mbind option_bind]. unfold value. split; [|split].
  - rewrite (proj1 (proj1 (post_succeeds_iff_ok_and_no_truthy_error demo_env World_initial)
                      body)).
    + reflexivity.
    + right. reflexivity.
    + discriminate.
    + intros (v & Hv & _). discriminate Hv.
  - rewrite (proj1 (proj2 (proj1 (post_succeeds_iff_ok_and_no_truthy_error
                                    demo_env_upload_refused World_initial) body))).
    + reflexivity.
    + left. intros [H | H]; discriminate H.
  - reflexivity.
Defined.

(** ** [notExported] *)

Lemma Array_includes_In x l : Array_includes x l = true <-> In x l.
Proof.
  unfold Array_includes. rewrite existsb_exists. split.
  - intros (y & Hy & E). apply String.eqb_eq in E. subst. exact Hy.
  - intros H. exists x. split; [exact H | apply String.eqb_refl].
Qed.

Lemma notExported_loop_filter env uuid (ids : list string) :
  notExported_loop env uuid ids = List.filter (fun id => not_uploaded env uuid id) ids.
Proof.
  unfold notExported_loop.
  assert (H : forall out : list string,
             fold_left (fun out id => if not_uploaded env uuid id then out ++ [id] else out)
                       ids out
             = out ++ List.filter (fun id => not_uploaded env uuid id) ids).
  { induction ids as [|id rest IH]; intros out; cbn.
    - rewrite app_nil_r. reflexivity.
    - rewrite IH. cbn [List.filter].
      destruct (not_uploaded env uuid id); cbn.
      + rewrite <- app_assoc. reflexivity.
      + reflexivity. }
  apply (H []).
Qed.

Lemma not_uploaded_spec env uuid id :
  not_uploaded env uuid id = true <->
  ~ In (Env.gameId env id) uuid
  /\ ~ In (Env.s3siGameId env id) uuid
  /\ ~ In (Env.s3sCoopGameId env id) uuid.
Proof.
  unfold not_uploaded. rewrite !andb_true_iff, !negb_true_iff.
  rewrite <- !Array_includes_In, <- !not_true_iff_false. tauto.
Qed.

(** C6. Once the uploaded list [uuid] is fetched, [notExported] returns the
    candidates, in their order and with their repetitions, none of whose
    three derived ids is in [uuid]: a candidate is returned exactly when it
    is listed and neither its current id nor one of its two legacy ids is
    uploaded.  The call leaves the state as fetching the list left it, with
    the cache, the weapon map and the console as before, and when the fetch
    throws it throws the same. *)
Theorem notExported_filters env type (ids : list string) w :
  (forall uuid w',
      uuidList env type w = (Ok uuid, w') ->
      notExported env type ids w
      = (Ok (List.filter (fun id => not_uploaded env uuid id) ids), w')
      /\ (forall id,
            In id (List.filter (fun id => not_uploaded env uuid id) ids) <->
            In id ids
            /\ ~ In (Env.gameId env id) uuid
            /\ ~ In (Env.s3siGameId env id) uuid
            /\ ~ In (Env.s3sCoopGameId env id) uuid)
      /\ same_api_state w w')
  /\ (forall e w',
      uuidList env type w = (Throw e, w') ->
      notExported env type ids w = (Throw e, w')).
Proof.
  split.
  - intros uuid w' H. split; [|split].
    + unfold notExported. rewrite (bind_run _ _ _ _ _ H). unfold ret.
      rewrite notExported_loop_filter. reflexivity.
    + intros id. rewrite filter_In, not_uploaded_spec. reflexivity.
    + rewrite uuidList_run in H. inversion H; subst. repeat split.
  - intros e w' H. unfold notExported. apply bind_throw, H.
Qed.

Lemma notExported_filters_witness :
  notExported demo_env VsInfoType
    ["battle-1"; "battle-4"; "battle-2"; "battle-3"; "battle-5"; "battle-4"] World_initial
  = (Ok ["battle-4"; "battle-5"; "battle-4"],
     send (GET (uuid_list_url VsInfoType) (requestHeaders demo_env)) World_initial).
Proof.
  apply (proj1 (notExported_filters demo_env VsInfoType
                  ["battle-1"; "battle-4"; "battle-2"; "battle-3"; "battle-5"; "battle-4"]
                  World_initial)
               ["s3s:battle-1"; "s3si:battle-2"; "coop:battle-3"]).
  reflexivity.
Defined.

(** ** [mapCoopPlayer] *)

Lemma mapCoopPlayer_Ok env isMyself p w r w' :
  mapCoopPlayer env isMyself p w = (Ok r, w') ->
  StatInkCoopPlayer.disconnected r = yes_no (is_disconnected p).
Proof.
  unfold mapCoopPlayer. intros H.
  apply bind_Ok in H as (special & w1 & _ & H).
  apply bind_Ok in H as (weapons & w2 & _ & H).
  inversion H; subst. reflexivity.
Qed.

Lemma is_disconnected_spec p :
  is_disconnected p = true <->
  (CoopHistoryPlayerResult.goldenDeliverCount p = 0
   /\ CoopHistoryPlayerResult.deliverCount p = 0
   /\ CoopHistoryPlayerResult.rescueCount p = 0
   /\ CoopHistoryPlayerResult.rescuedCount p = 0
   /\ CoopHistoryPlayerResult.defeatEnemyCount p = 0)
  \/ CoopHistoryPlayerResult.specialWeapon p = None.
Proof.
  unfold is_disconnected. cbn [forallb].
  rewrite orb_true_iff, !andb_true_iff, !Z.eqb_eq.
  destruct (CoopHistoryPlayerResult.specialWeapon p); intuition congruence.
Qed.

(** C1, as the code has it.  For every coop player that maps, the flag
    [disconnected] is "yes" exactly when the five counters (golden eggs and
    power eggs delivered, rescues, times rescued, bosses defeated) are all
    zero OR no special weapon was recorded, and it is "no" otherwise: when
    some counter is not zero and a special weapon is present. *)
Theorem mapCoopPlayer_disconnected env isMyself p w r w' :
  mapCoopPlayer env isMyself p w = (Ok r, w') ->
  (StatInkCoopPlayer.disconnected r = "yes" <->
   (CoopHistoryPlayerResult.goldenDeliverCount p = 0
    /\ CoopHistoryPlayerResult.deliverCount p = 0
    /\ CoopHistoryPlayerResult.rescueCount p = 0
    /\ CoopHistoryPlayerResult.rescuedCount p = 0
    /\ CoopHistoryPlayerResult.defeatEnemyCount p = 0)
   \/ CoopHistoryPlayerResult.specialWeapon p = None)
  /\ (StatInkCoopPlayer.disconnected r = "no" <->
      ~ (CoopHistoryPlayerResult.goldenDeliverCount p = 0
         /\ CoopHistoryPlayerResult.deliverCount p = 0
         /\ CoopHistoryPlayerResult.rescueCount p = 0
         /\ CoopHistoryPlayerResult.rescuedCount p = 0
         /\ CoopHistoryPlayerResult.defeatEnemyCount p = 0)
      /\ CoopHistoryPlayerResult.specialWeapon p <> None).
Proof.
  intros H. apply mapCoopPlayer_Ok in H. rewrite H.
  pose proof (is_disconnected_spec p) as Hs.
  destruct (is_disconnected p); cbn.
  - split; split.
    + intros _. apply Hs. reflexivity.
    + reflexivity.
    + discriminate.
    + intros [nA nS]. destruct (proj1 Hs eq_refl); contradiction.
  - split; split.
    + discriminate.
    + intros H'. apply Hs in H'. discriminate.
    + intros _. split; intros X;
        assert (false = true) by (apply Hs; auto); discriminate.
    + reflexivity.
Qed.

(** C1, as stated, fails: a player with golden eggs, power eggs, a rescue
    and defeated bosses to their name, but no special weapon, is marked
    disconnected. *)
Lemma mapCoopPlayer_disconnected_counterexample :
  CoopHistoryPlayerResult.goldenDeliverCount (demo_coop_player None 12) = 12
  /\ CoopHistoryPlayerResult.specialWeapon (demo_coop_player None 12) = None
  /\ StatInkCoopPlayer.disconnected
       <$> value (mapCoopPlayer demo_env false (demo_coop_player None 12) World_initial)
     = Some "yes".
Proof. vm_compute. repeat split; reflexivity. Qed.

Lemma mapCoopPlayer_disconnected_witness :
  StatInkCoopPlayer.disconnected
    <$> value (mapCoopPlayer demo_env true (demo_coop_player (Some demo_special) 12)
                 World_initial)
  = Some "no".
Proof.
  destruct (mapCoopPlayer demo_env true (demo_coop_player (Some demo_special) 12)
              World_initial) as [[r|e] w'] eqn:E; [|vm_compute in E; discriminate E].
  unfold value. cbn [fst fmap option_fmap option_map]. f_equal.
  apply (proj2 (mapCoopPlayer_disconnected _ _ _ _ _ _ E)).
  split; [intros (H & _); discriminate H | discriminate].
Defined.

(** ** [mapCoop] *)

Lemma mapCoop_Ok env coop w body w' :
  mapCoop env coop w = (Ok body, w') ->
  exists waves players w1,
    mapM (mapWave env) (CoopHistoryDetail.waveResults (CoopInfo.detail coop)) w
    = (Ok waves, w1)
    /\ mapM (fun p => mapCoopPlayer env (fst p) (snd p))
            ((true, CoopHistoryDetail.myResult (CoopInfo.detail coop))
             :: map (fun p => (false, p))
                    (CoopHistoryDetail.memberResults (CoopInfo.detail coop))) w1
       = (Ok players, w')
    /\ body = mapCoop_result env coop waves players.
Proof.
  unfold mapCoop. intros H.
  apply bind_Ok in H as (waves & w1 & Hw & H).
  apply bind_Ok in H as (players & w2 & Hp & H).
  inversion H; subst. exists waves, players, w1. auto.
Qed.

Lemma mapCoop_clear_waves env coop w body w' :
  mapCoop env coop w = (Ok body, w') ->
  StatInkCoopPostBody.clear_waves body = clear_waves_of (CoopInfo.detail coop).
Proof.
  intros H. apply mapCoop_Ok in H as (waves & players & w1 & _ & _ & ->). reflexivity.
Qed.

Lemma clear_waves_of_numbers detail :
  clear_waves_of detail =
  let numbers := map WaveResult.waveNumber (CoopHistoryDetail.waveResults detail) in
  if (0 <? length numbers)%nat then
    Z.of_nat (length (List.filter (fun n => n <? maxWaves detail + 1) numbers))
    - 1 + (if CoopHistoryDetail.resultWave detail =? 0 then 1 else 0)
  else 0.
Proof.
  unfold clear_waves_of. cbn zeta. rewrite length_map.
  replace (length (List.filter (fun n => n <? maxWaves detail + 1)
                     (map WaveResult.waveNumber (CoopHistoryDetail.waveResults detail))))
    with (length (List.filter (fun i => WaveResult.waveNumber i <? maxWaves detail + 1)
                    (CoopHistoryDetail.waveResults detail))).
  - reflexivity.
  - induction (CoopHistoryDetail.waveResults detail) as [|i rest IH]; cbn.
    + reflexivity.
    + destruct (WaveResult.waveNumber i <? maxWaves detail + 1); cbn; rewrite IH; reflexivity.
Qed.

(** C3, as the code has it.  A coop session that maps and whose waves are
    numbered 1, 2, 3 with [resultWave] 0 has [clear_waves] 3; one whose waves
    are numbered 1, 2 with [resultWave] 3 has [clear_waves] 1 (the two waves,
    minus one, and nothing added since [resultWave] is not zero). *)
Theorem mapCoop_clear_waves_examples env coop w body w' :
  mapCoop env coop w = (Ok body, w') ->
  (map WaveResult.waveNumber (CoopHistoryDetail.waveResults (CoopInfo.detail coop))
   = [1; 2; 3] ->
   CoopHistoryDetail.resultWave (CoopInfo.detail coop) = 0 ->
   StatInkCoopPostBody.clear_waves body = 3)
  /\ (map WaveResult.waveNumber (CoopHistoryDetail.waveResults (CoopInfo.detail coop))
      = [1; 2] ->
      CoopHistoryDetail.resultWave (CoopInfo.detail coop) = 3 ->
      StatInkCoopPostBody.clear_waves body = 1).
Proof.
  intros H. rewrite (mapCoop_clear_waves _ _ _ _ _ H), clear_waves_of_numbers.
  unfold maxWaves.
  split; intros -> ->;
    destruct (String.eqb (CoopHistoryDetail.rule (CoopInfo.detail coop)) "TEAM_CONTEST");
    reflexivity.
Qed.

(** C3, as stated, fails: with waves 1 and 2 and [resultWave] 3 the mapped
    [clear_waves] is 1, not 2. *)
Lemma mapCoop_clear_waves_counterexample :
  map WaveResult.waveNumber
    (CoopHistoryDetail.waveResults
       (CoopInfo.detail (demo_coop "REGULAR" [demo_wave 1 10 12; demo_wave 2 12 5] 3 40 3)))
  = [1; 2]
  /\ CoopHistoryDetail.resultWave
       (CoopInfo.detail (demo_coop "REGULAR" [demo_wave 1 10 12; demo_wave 2 12 5] 3 40 3))
     = 3
  /\ StatInkCoopPostBody.clear_waves
       <$> value (mapCoop demo_env
                    (demo_coop "REGULAR" [demo_wave 1 10 12; demo_wave 2 12 5] 3 40 3)
                    World_initial)
     = Some 1.
Proof. vm_compute. repeat split; reflexivity. Qed.

Lemma mapCoop_clear_waves_examples_witness :
  StatInkCoopPostBody.clear_waves
    <$> value (mapCoop demo_env
                 (demo_coop "REGULAR" [demo_wave 1 10 12; demo_wave 2 12 14; demo_wave 3 14 20]
                    0 60 3)
                 World_initial)
  = Some 3.
Proof.
  destruct (mapCoop demo_env
              (demo_coop "REGULAR" [demo_wave 1 10 12; demo_wave 2 12 14; demo_wave 3 14 20]
                 0 60 3)
              World_initial) as [[body|e] w'] eqn:E; [|vm_compute in E; discriminate E].
  unfold value. cbn [fst fmap option_fmap option_map]. f_equal.
  apply (proj1 (mapCoop_clear_waves_examples _ _ _ _ _ E)); reflexivity.
Defined.

Lemma mapCoop_title_before env coop w body w' :
  mapCoop env coop w = (Ok body, w') ->
  CoopInfo.gradeBefore coop = None ->
  (StatInkCoopPostBody.title_before body, StatInkCoopPostBody.title_exp_before body)
  = infer_title_before (StatInkCoopPostBody.title_after body)
      (StatInkCoopPostBody.title_exp_after body)
      (COOP_POINT_MAP (StatInkCoopPostBody.clear_waves body)).
Proof.
  intros H Hg. apply mapCoop_Ok in H as (waves & players & w1 & _ & _ & ->).
  unfold mapCoop_result. cbn. rewrite Hg. symmetry. apply surjective_pairing.
Qed.

(** C2, as the code has it.  When a coop session maps without a
    pre-session grade and the title after, the points after and the point
    change of its [clear_waves] are known: if the points after are 40 and
    the change is +20, or if the points after are 40, the change is negative
    and the title after is not "8", then both the title before and the
    points before are left unset.  In particular the title after "5" with 40
    points and one cleared wave (change -10) gives no title before and no
    points before. *)
Theorem mapCoop_title_before_unset env coop w body w' title_after expDiff :
  mapCoop env coop w = (Ok body, w') ->
  CoopInfo.gradeBefore coop = None ->
  StatInkCoopPostBody.title_after body = Some title_after ->
  StatInkCoopPostBody.title_exp_after body = Some 40 ->
  COOP_POINT_MAP (StatInkCoopPostBody.clear_waves body) = Some expDiff ->
  expDiff = 20 \/ (expDiff < 0 /\ title_after <> "8") ->
  StatInkCoopPostBody.title_before body = None
  /\ StatInkCoopPostBody.title_exp_before body = None.
Proof.
  intros H Hg Ht He Hd Hcase.
  pose proof (mapCoop_title_before _ _ _ _ _ H Hg) as Hinfer.
  rewrite Ht, He, Hd in Hinfer. unfold infer_title_before in Hinfer.
  cbn [Z.eqb andb Pos.eqb] in Hinfer.
  destruct Hcase as [-> | [Hneg Hne]].
  - cbn in Hinfer. inversion Hinfer; auto.
  - apply Z.ltb_lt in Hneg. apply String.eqb_neq in Hne.
    rewrite Hneg, Hne in Hinfer.
    destruct (expDiff =? 20); cbn in Hinfer; inversion Hinfer; auto.
Qed.

(** C2, as stated, fails: the title after "5" with 40 points and one
    cleared wave gives no title before (not "5") and no points before (not
    50). *)
Lemma mapCoop_title_before_counterexample :
  (fun body =>
     (StatInkCoopPostBody.title_after body,
      StatInkCoopPostBody.title_exp_after body,
      StatInkCoopPostBody.clear_waves body,
      StatInkCoopPostBody.title_before body,
      StatInkCoopPostBody.title_exp_before body))
    <$> value (mapCoop demo_env
                 (demo_coop "REGULAR" [demo_wave 1 10 12; demo_wave 2 12 5] 2 40 3)
                 World_initial)
  = Some (Some "5", Some 40, 1, None, None).
Proof. vm_compute. reflexivity. Qed.

Lemma mapCoop_title_before_unset_witness :
  (fun body =>
     (StatInkCoopPostBody.title_before body, StatInkCoopPostBody.title_exp_before body))
    <$> value (mapCoop demo_env
                 (demo_coop "REGULAR" [demo_wave 1 10 12; demo_wave 2 12 5] 2 40 3)
                 World_initial)
  = Some (None, None).
Proof.
  destruct (mapCoop demo_env
              (demo_coop "REGULAR" [demo_wave 1 10 12; demo_wave 2 12 5] 2 40 3)
              World_initial) as [[body|e] w'] eqn:E; [|vm_compute in E; discriminate E].
  unfold value. cbn [fst fmap option_fmap option_map]. f_equal.
  assert (Hfields :
    StatInkCoopPostBody.title_after body = Some "5"
    /\ StatInkCoopPostBody.title_exp_after body = Some 40
    /\ StatInkCoopPostBody.clear_waves body = 1).
  { apply mapCoop_Ok in E as (waves & players & w1 & _ & _ & ->).
    vm_compute. repeat split; reflexivity. }
  destruct Hfields as (Ht & He & Hc).
  destruct (mapCoop_title_before_unset demo_env _ World_initial body w' "5" (-10) E)
    as [-> ->]; try reflexivity; try assumption.
  - rewrite Hc. reflexivity.
  - right. split; [lia | discriminate].
Defined.

(** *** The danger rate *)

Lemma mapWave_Ok env wave w r w' :
  mapWave env wave w = (Ok r, w') ->
  StatInkCoopWave.danger_rate r = None
  /\ StatInkCoopWave.golden_quota r = WaveResult.deliverNorm wave
  /\ StatInkCoopWave.golden_delivered r = WaveResult.teamDeliverCount wave.
Proof.
  unfold mapWave. intros H.
  apply bind_Ok in H as (specials & w1 & _ & H).
  inversion H; subst. cbn. auto.
Qed.

Lemma mapM_mapWave env waveResults w waves w' :
  mapM (mapWave env) waveResults w = (Ok waves, w') ->
  Forall (fun wave => StatInkCoopWave.danger_rate wave = None) waves
  /\ map StatInkCoopWave.golden_quota waves = map WaveResult.deliverNorm waveResults
  /\ map StatInkCoopWave.golden_delivered waves
     = map WaveResult.teamDeliverCount waveResults.
Proof.
  intros H.
  apply (mapM_Forall2 _
           (fun wave r =>
              StatInkCoopWave.danger_rate r = None
              /\ StatInkCoopWave.golden_quota r = WaveResult.deliverNorm wave
              /\ StatInkCoopWave.golden_delivered r = WaveResult.teamDeliverCount wave))
    in H; [|apply mapWave_Ok].
  induction H as [|wave r rest rs (Hd & Hq & Hg) _ (IHd & IHq & IHg)]; cbn.
  - auto.
  - rewrite Hq, Hg, IHq, IHg. auto.
Qed.

Lemma fill_danger_rate_fields n last waves :
  map StatInkCoopWave.golden_quota (fill_danger_rate n last waves)
  = map StatInkCoopWave.golden_quota waves
  /\ map StatInkCoopWave.golden_delivered (fill_danger_rate n last waves)
     = map StatInkCoopWave.golden_delivered waves.
Proof.
  revert last. induction waves as [|wave rest IH]; intros last; cbn.
  - auto.
  - destruct (IH (Some (set_danger_rate
                          match last with
                          | Some lastWave =>
                              default 0 (StatInkCoopWave.danger_rate lastWave)
                              + added_percent n (StatInkCoopWave.golden_quota lastWave)
                                  (StatInkCoopWave.golden_delivered lastWave)
                          | None => 60
                          end wave))) as [-> ->].
    auto.
Qed.

Lemma fill_danger_rate_first n waves first :
  head (fill_danger_rate n None waves) = Some first ->
  StatInkCoopWave.danger_rate first = Some 60.
Proof.
  destruct waves as [|wave rest]; cbn; intros H; inversion H. reflexivity.
Qed.

Lemma fill_danger_rate_next n lastWave waves next :
  fill_danger_rate n (Some lastWave) waves !! 0%nat = Some next ->
  StatInkCoopWave.danger_rate next
  = Some (default 0 (StatInkCoopWave.danger_rate lastWave)
          + added_percent n (StatInkCoopWave.golden_quota lastWave)
              (StatInkCoopWave.golden_delivered lastWave)).
Proof.
  destruct waves as [|wave rest]; cbn; intros H; inversion H. reflexivity.
Qed.

Lemma fill_danger_rate_step n waves :
  forall last (i : nat) prev cur,
    fill_danger_rate n last waves !! i = Some prev ->
    fill_danger_rate n last waves !! S i = Some cur ->
    exists rate,
      StatInkCoopWave.danger_rate prev = Some rate
      /\ StatInkCoopWave.danger_rate cur
         = Some (rate + added_percent n (StatInkCoopWave.golden_quota prev)
                          (StatInkCoopWave.golden_delivered prev)).
Proof.
  induction waves as [|wave rest IH]; intros last i prev cur Hprev Hcur.
  - discriminate Hprev.
  - cbn in Hprev, Hcur. destruct i as [|j].
    + cbn in Hprev. inversion Hprev as [Hp]. rewrite Hp in Hcur.
      apply fill_danger_rate_next in Hcur.
      rewrite Hcur, <- Hp. cbn. eexists. split; reflexivity.
    + eapply IH; eassumption.
Qed.

Lemma at_least_one_and_a_half_spec delivered quota :
  at_least_one_and_a_half delivered quota = (3 * quota <=? 2 * delivered).
Proof.
  unfold at_least_one_and_a_half, Qle_bool. cbn.
  apply eq_true_iff_eq. rewrite !Z.leb_le. lia.
Qed.

Lemma added_percent_table players quota delivered added :
  spec_added_percent players quota delivered = Some added ->
  added_percent players quota delivered = added.
Proof.
  unfold spec_added_percent, added_percent.
  rewrite at_least_one_and_a_half_spec.
  replace (delivered >=? quota * 2) with (2 * quota <=? delivered)
    by (rewrite Z.geb_leb; f_equal; lia).
  destruct players as [|[|[|[|[|n]]]]]; cbn; intros H; inversion H; reflexivity.
Qed.

Lemma mapCoop_players_length env coop w body w' :
  mapCoop env coop w = (Ok body, w') ->
  length (StatInkCoopPostBody.players body)
  = S (length (CoopHistoryDetail.memberResults (CoopInfo.detail coop))).
Proof.
  intros H. apply mapCoop_Ok in H as (waves & players & w1 & _ & Hp & ->).
  apply mapM_length in Hp. cbn in Hp |- *. rewrite Hp, length_map. reflexivity.
Qed.

Lemma mapCoop_waves env coop w body w' :
  mapCoop env coop w = (Ok body, w') ->
  exists waves,
    Forall (fun wave => StatInkCoopWave.danger_rate wave = None) waves
    /\ map StatInkCoopWave.golden_quota waves
       = map WaveResult.deliverNorm (CoopHistoryDetail.waveResults (CoopInfo.detail coop))
    /\ map StatInkCoopWave.golden_delivered waves
       = map WaveResult.teamDeliverCount
           (CoopHistoryDetail.waveResults (CoopInfo.detail coop))
    /\ StatInkCoopPostBody.waves body
       = (if String.eqb (CoopHistoryDetail.rule (CoopInfo.detail coop)) "TEAM_CONTEST"
          then fill_danger_rate (length (StatInkCoopPostBody.players body)) None waves
          else waves)
    /\ StatInkCoopPostBody.danger_rate body
       = (if String.eqb (CoopHistoryDetail.rule (CoopInfo.detail coop)) "TEAM_CONTEST"
          then None
          else Some (Env.fl env (CoopHistoryDetail.dangerRate (CoopInfo.detail coop) * 100)%Q)).
Proof.
  intros H. apply mapCoop_Ok in H as (waves & players & w1 & Hw & _ & ->).
  apply mapM_mapWave in Hw as (Hd & Hq & Hg).
  exists waves. repeat split; assumption.
Qed.

(** C5. For a coop session that maps, the waves of the body carry the quota
    and the delivered eggs of the source waves and the players are the
    player and the members.  Under the team-contest rule the danger rate of
    the first wave is 60 and that of every later wave is the danger rate of
    the wave before it plus the increment for the eggs delivered in that
    wave against its quota, which for one to four players is the one of the
    table (4: 60, 30, 0; 3: 40, 20, 0; 2: 20, 5, 0; 1: 10, 5, 0).  Under any
    other rule the danger rate of every wave stays [null] and the danger
    rate of the session is the product of the source [dangerRate] and 100. *)
Theorem mapCoop_danger_rate env coop w body w' :
  mapCoop env coop w = (Ok body, w') ->
  (map StatInkCoopWave.golden_quota (StatInkCoopPostBody.waves body)
   = map WaveResult.deliverNorm (CoopHistoryDetail.waveResults (CoopInfo.detail coop))
   /\ map StatInkCoopWave.golden_delivered (StatInkCoopPostBody.waves body)
      = map WaveResult.teamDeliverCount
          (CoopHistoryDetail.waveResults (CoopInfo.detail coop))
   /\ length (StatInkCoopPostBody.players body)
      = S (length (CoopHistoryDetail.memberResults (CoopInfo.detail coop))))
  /\ (CoopHistoryDetail.rule (CoopInfo.detail coop) = "TEAM_CONTEST" ->
      (forall first,
          head (StatInkCoopPostBody.waves body) = Some first ->
          StatInkCoopWave.danger_rate first = Some 60)
      /\ (forall (i : nat) prev cur,
          StatInkCoopPostBody.waves body !! i = Some prev ->
          StatInkCoopPostBody.waves body !! S i = Some cur ->
          exists rate added,
            StatInkCoopWave.danger_rate prev = Some rate
            /\ StatInkCoopWave.danger_rate cur = Some (rate + added)
            /\ added = added_percent (length (StatInkCoopPostBody.players body))
                         (StatInkCoopWave.golden_quota prev)
                         (StatInkCoopWave.golden_delivered prev)
            /\ forall listed,
                spec_added_percent (length (StatInkCoopPostBody.players body))
                  (StatInkCoopWave.golden_quota prev)
                  (StatInkCoopWave.golden_delivered prev) = Some listed ->
                added = listed))
  /\ (CoopHistoryDetail.rule (CoopInfo.detail coop) <> "TEAM_CONTEST" ->
      Forall (fun wave => StatInkCoopWave.danger_rate wave = None)
             (StatInkCoopPostBody.waves body)
      /\ StatInkCoopPostBody.danger_rate body
         = Some (Env.fl env (CoopHistoryDetail.dangerRate (CoopInfo.detail coop) * 100)%Q)).
Proof.
  intros H.
  pose proof (mapCoop_players_length _ _ _ _ _ H) as Hlen.
  apply mapCoop_waves in H as (waves & Hnone & Hq & Hg & Hwaves & Hrate).
  split; [|split].
  - rewrite Hwaves.
    destruct (String.eqb (CoopHistoryDetail.rule (CoopInfo.detail coop)) "TEAM_CONTEST").
    + destruct (fill_danger_rate_fields (length (StatInkCoopPostBody.players body))
                  None waves) as [-> ->]. auto.
    + auto.
  - intros Hrule. apply String.eqb_eq in Hrule. rewrite Hrule in Hwaves.
    rewrite Hwaves. split.
    + apply fill_danger_rate_first.
    + intros i prev cur Hprev Hcur.
      destruct (fill_danger_rate_step _ _ _ _ _ _ Hprev Hcur) as (rate & Hp & Hc).
      exists rate. eexists. repeat split; [exact Hp | exact Hc |].
      intros listed Hl. apply added_percent_table, Hl.
  - intros Hrule. apply String.eqb_neq in Hrule. rewrite Hrule in Hwaves, Hrate.
    rewrite Hwaves. auto.
Qed.

Lemma mapCoop_danger_rate_witness :
  (fun body => map StatInkCoopWave.danger_rate (StatInkCoopPostBody.waves body))
    <$> value (mapCoop demo_env
                 (demo_coop "TEAM_CONTEST"
                    [demo_wave 1 10 20; demo_wave 2 12 18; demo_wave 3 14 5; demo_wave 4 15 1]
                    0 40 3)
                 World_initial)
  = Some [Some 60; Some 120; Some 150; Some 150]
  /\ (fun body =>
        (map StatInkCoopWave.danger_rate (StatInkCoopPostBody.waves body),
         StatInkCoopPostBody.danger_rate body))
       <$> value (mapCoop demo_env
                    (demo_coop "REGULAR" [demo_wave 1 10 12; demo_wave 2 12 5] 2 40 3)
                    World_initial)
     = Some ([None; None], Some (230 # 1)).
Proof.
  split.
  - destruct (mapCoop demo_env
                (demo_coop "TEAM_CONTEST"
                   [demo_wave 1 10 20; demo_wave 2 12 18; demo_wave 3 14 5; demo_wave 4 15 1]
                   0 40 3)
                World_initial) as [[body|e] w'] eqn:E; [|vm_compute in E; discriminate E].
    unfold value. cbn [fst fmap option_fmap option_map]. f_equal.
    destruct (mapCoop_danger_rate _ _ _ _ _ E) as ((Hq & Hg & Hlen) & Hteam & _).
    destruct (Hteam eq_refl) as (Hfirst & Hstep). clear Hteam.
    destruct (StatInkCoopPostBody.waves body) as [|w1 [|w2 [|w3 [|w4 [|w5 more]]]]];
      try discriminate Hq.
    cbn in Hq, Hg, Hlen. rewrite Hlen in Hstep. clear Hlen.
    injection Hq as Hq1 Hq2 Hq3 Hq4. injection Hg as Hg1 Hg2 Hg3 Hg4.
    pose proof (Hfirst w1 eq_refl) as H1.
    destruct (Hstep 0%nat w1 w2 eq_refl eq_refl) as (r1 & a1 & Hr1 & H2 & Ha1 & _).
    destruct (Hstep 1%nat w2 w3 eq_refl eq_refl) as (r2 & a2 & Hr2 & H3 & Ha2 & _).
    destruct (Hstep 2%nat w3 w4 eq_refl eq_refl) as (r3 & a3 & Hr3 & H4 & Ha3 & _).
    rewrite Hq1, Hg1 in Ha1. rewrite Hq2, Hg2 in Ha2. rewrite Hq3, Hg3 in Ha3.
    vm_compute in Ha1, Ha2, Ha3. subst a1 a2 a3.
    cbn [map]. rewrite H1 in Hr1. injection Hr1 as <-.
    rewrite H2 in Hr2. injection Hr2 as <-.
    rewrite H3 in Hr3. injection Hr3 as <-.
    rewrite H1, H2, H3, H4. reflexivity.
  - destruct (mapCoop demo_env
                (demo_coop "REGULAR" [demo_wave 1 10 12; demo_wave 2 12 5] 2 40 3)
                World_initial) as [[body|e] w'] eqn:E; [|vm_compute in E; discriminate E].
    unfold value. cbn [fst fmap option_fmap option_map]. f_equal.
    destruct (mapCoop_danger_rate _ _ _ _ _ E) as ((Hq & _ & _) & _ & Hother).
    destruct Hother as (Hnone & ->); [discriminate|].
    destruct (StatInkCoopPostBody.waves body) as [|w1 [|w2 [|w3 more]]];
      try discriminate Hq.
    inversion Hnone as [|? ? H1 Hrest]; subst.
    inversion Hrest as [|? ? H2 _]; subst.
    cbn [map]. rewrite H1, H2. reflexivity.
Defined.

(** ** The cache and the salmon weapon map *)

Lemma uploads_send_GET url headers w :
  uploads (World.requests (send (GET url headers) w)) = uploads (World.requests w).
Proof.
  unfold uploads, send. cbn. rewrite List.filter_app. cbn. apply app_nil_r.
Qed.

Lemma _getCached_frame env url w r w' :
  _getCached env url w = (r, w') ->
  World._salmonWeaponMap w' = World._salmonWeaponMap w
  /\ World.console w' = World.console w
  /\ uploads (World.requests w') = uploads (World.requests w).
Proof.
  unfold _getCached, get_world, bind.
  destruct (World.cache w !! url) as [cached|].
  - intros H. inversion H; subst. auto.
  - unfold fetch_get_catalog, checkResponse, Response_json, modify, ret, throw.
    destruct (Env.get_catalog env (World.requests w) url (requestHeaders env))
      as [status [json|]]; cbn;
      destruct (status / 100 =? 2); cbn; intros H; inversion H; subst; cbn;
      repeat split; apply (uploads_send_GET url (requestHeaders env) w).
Qed.

Lemma forM_modify {A} (f : A -> World.t -> World.t) (l : list A) w :
  forM l (fun x => modify (f x)) w = (Ok tt, fold_left (fun w x => f x w) l w).
Proof.
  revert w. induction l as [|x rest IH]; intros w; cbn.
  - reflexivity.
  - unfold bind, modify at 1. apply IH.
Qed.

Lemma entries_cons weapon rest :
  entries (weapon :: rest)
  = map (fun name => (name, CatalogEntry.key weapon)) (weapon_names weapon)
    ++ entries rest.
Proof. reflexivity. Qed.

Lemma salmon_loops_run (weapons : list CatalogEntry.t) w :
  forM weapons (fun weapon =>
    forM (weapon_names weapon) (fun name =>
      modify (salmonWeaponMap_step (CatalogEntry.key weapon) name))) w
  = (Ok tt, fold_left step_entry (entries weapons) w).
Proof.
  revert w. induction weapons as [|weapon rest IH]; intros w.
  - reflexivity.
  - rewrite entries_cons, fold_left_app. cbn [forM]. unfold bind.
    rewrite forM_modify, IH. f_equal. f_equal.
    generalize (weapon_names weapon). intros names. revert w.
    induction names as [|name more IHn]; intros w; cbn; [reflexivity | apply IHn].
Qed.

Lemma step_entry_lookup w entry name :
  World._salmonWeaponMap (step_entry w entry) !! name
  = if String.eqb (fst entry) name then Some (snd entry)
    else World._salmonWeaponMap w !! name.
Proof.
  unfold step_entry, salmonWeaponMap_step.
  destruct entry as [n k]. cbn [fst snd].
  assert (Hmap : forall w0, World._salmonWeaponMap (set_salmonWeaponMap n k w0)
                            = <[n := k]> (World._salmonWeaponMap w0)) by reflexivity.
  assert (Hsame : World._salmonWeaponMap
                    match World._salmonWeaponMap w !! n with
                    | Some prev =>
                        if negb (String.eqb prev k)
                        then console_warn ("Duplicate weapon name: " +:+ n) w
                        else w
                    | None => w
                    end = World._salmonWeaponMap w).
  { destruct (World._salmonWeaponMap w !! n) as [prev|]; [|reflexivity].
    destruct (negb (String.eqb prev k)); reflexivity. }
  rewrite Hmap, Hsame.
  destruct (String.eqb n name) eqn:E.
  - apply String.eqb_eq in E. subst. apply lookup_insert_eq.
  - apply String.eqb_neq in E. apply lookup_insert_ne, E.
Qed.

Lemma fold_step_entry_lookup es : forall w name,
  World._salmonWeaponMap (fold_left step_entry es w) !! name
  = match last_entry name es with
    | Some k => Some k
    | None => World._salmonWeaponMap w !! name
    end.
Proof.
  induction es as [|[n k] rest IH]; intros w name; cbn [fold_left last_entry].
  - reflexivity.
  - rewrite IH. destruct (last_entry name rest) as [k'|]; [reflexivity|].
    rewrite step_entry_lookup. cbn [fst snd].
    destruct (String.eqb n name); reflexivity.
Qed.

Lemma last_entry_app name es1 es2 :
  last_entry name (es1 ++ es2)
  = match last_entry name es2 with
    | Some k => Some k
    | None => last_entry name es1
    end.
Proof.
  induction es1 as [|[n k] rest IH]; cbn.
  - destruct (last_entry name es2); reflexivity.
  - rewrite IH. destruct (last_entry name es2); reflexivity.
Qed.

Lemma last_entry_names name key names :
  last_entry name (map (fun n => (n, key)) names)
  = if Array_includes name names then Some key else None.
Proof.
  unfold Array_includes. induction names as [|n rest IH]; cbn.
  - reflexivity.
  - rewrite IH. rewrite (String.eqb_sym name n).
    destruct (existsb (String.eqb name) rest).
    + rewrite orb_true_r. reflexivity.
    + rewrite orb_false_r. reflexivity.
Qed.

Lemma find_snoc {A} (p : A -> bool) (l : list A) (x : A) :
  find p (l ++ [x])
  = match find p l with
    | Some y => Some y
    | None => if p x then Some x else None
    end.
Proof.
  induction l as [|y rest IH]; cbn.
  - reflexivity.
  - destruct (p y); [reflexivity | exact IH].
Qed.

Lemma last_entry_entries name weapons :
  last_entry name (entries weapons) = last_key name weapons.
Proof.
  unfold last_key. induction weapons as [|weapon rest IH].
  - reflexivity.
  - rewrite entries_cons, last_entry_app, IH, last_entry_names.
    cbn [rev]. rewrite find_snoc. fold (produces name weapon).
    destruct (find (produces name) (rev rest)); cbn; [reflexivity|].
    destruct (produces name weapon); reflexivity.
Qed.

Lemma step_entry_console w entry :
  World.console (step_entry w entry)
  = World.console w
    ++ match World._salmonWeaponMap w !! fst entry with
       | Some prev =>
           if negb (String.eqb prev (snd entry))
           then ["Duplicate weapon name: " +:+ fst entry]
           else []
       | None => []
       end.
Proof.
  unfold step_entry, salmonWeaponMap_step. destruct entry as [n k]. cbn [fst snd].
  destruct (World._salmonWeaponMap w !! n) as [prev|]; cbn.
  - destruct (negb (String.eqb prev k)); cbn; [reflexivity | symmetry; apply app_nil_r].
  - symmetry; apply app_nil_r.
Qed.

Lemma warned_or_agreed_step seen w entry :
  warned_or_agreed seen w ->
  warned_or_agreed (seen ++ [entry]) (step_entry w entry).
Proof.
  intros Hinv name. rewrite step_entry_console, step_entry_lookup.
  destruct entry as [n k]. cbn [fst snd].
  destruct (Hinv name) as [Hwarned | Hagreed].
  - left. apply in_or_app. left. exact Hwarned.
  - destruct (String.eqb n name) eqn:E.
    + apply String.eqb_eq in E. subst n.
      destruct (World._salmonWeaponMap w !! name) as [prev|] eqn:Hprev.
      * destruct (String.eqb prev k) eqn:Ek; cbn.
        -- apply String.eqb_eq in Ek. subst prev. right. intros k' Hin.
           apply in_app_or in Hin as [Hin | [Hin | []]].
           ++ rewrite <- (Hagreed k' Hin). reflexivity.
           ++ inversion Hin. reflexivity.
        -- left. apply in_or_app. right. left. reflexivity.
      * right. intros k' Hin.
        apply in_app_or in Hin as [Hin | [Hin | []]].
        -- specialize (Hagreed k' Hin). discriminate Hagreed.
        -- inversion Hin. reflexivity.
    + right. intros k' Hin.
      apply in_app_or in Hin as [Hin | [Hin | []]].
      * apply Hagreed, Hin.
      * inversion Hin; subst. rewrite String.eqb_refl in E. discriminate E.
Qed.

Lemma warned_or_agreed_fold es : forall seen w,
  warned_or_agreed seen w ->
  warned_or_agreed (seen ++ es) (fold_left step_entry es w).
Proof.
  induction es as [|entry rest IH]; intros seen w Hinv; cbn [fold_left].
  - rewrite app_nil_r. exact Hinv.
  - replace (seen ++ entry :: rest) with ((seen ++ [entry]) ++ rest)
      by (rewrite <- app_assoc; reflexivity).
    apply IH, warned_or_agreed_step, Hinv.
Qed.

Lemma produces_entry name weapon weapons :
  In weapon weapons -> produces name weapon = true ->
  In (name, CatalogEntry.key weapon) (entries weapons).
Proof.
  intros Hin Hp. unfold entries. apply in_flat_map. exists weapon. split; [exact Hin|].
  apply Array_includes_In in Hp.
  apply (in_map (fun n => (n, CatalogEntry.key weapon))) in Hp. exact Hp.
Qed.

Lemma getSalmonWeaponMap_run env w weapons w1 :
  World._salmonWeaponMap w = ∅ ->
  getSalmonWeapon env w = (Ok weapons, w1) ->
  getSalmonWeaponMap env w
  = (let w2 := fold_left step_entry (entries weapons) w1 in
     if (size (World._salmonWeaponMap w2) =? 0)%nat
     then Throw (ThrowError "Failed to get salmon weapon map")
     else Ok (World._salmonWeaponMap w2),
     fold_left step_entry (entries weapons) w1).
Proof.
  intros Hempty Hget. unfold getSalmonWeaponMap, get_world, bind at 1.
  rewrite Hempty. rewrite map_size_empty. cbn [Nat.eqb].
  rewrite (bind_run _ _ _ _ _ Hget).
  unfold bind. rewrite salmon_loops_run. cbn zeta.
  destruct (size (World._salmonWeaponMap (fold_left step_entry (entries weapons) w1)) =? 0)%nat;
    reflexivity.
Qed.

(** C4, as the code has it.  When the salmon weapon map is built (it is
    empty and the weapons are fetched), the map ends up giving every name
    the key of the LAST weapon, in fetch order, that produces the name (each
    [set] overwrites), and a name that two weapons with different keys
    produce gets its warning on the console.  The call returns that map,
    unless it is empty, in which case it throws. *)
Theorem getSalmonWeaponMap_last_writer env w weapons w1 :
  World._salmonWeaponMap w = ∅ ->
  getSalmonWeapon env w = (Ok weapons, w1) ->
  (forall name,
      World._salmonWeaponMap (snd (getSalmonWeaponMap env w)) !! name
      = last_key name weapons)
  /\ (forall name,
      clash name weapons ->
      In ("Duplicate weapon name: " +:+ name)
         (World.console (snd (getSalmonWeaponMap env w))))
  /\ fst (getSalmonWeaponMap env w)
     = (if (size (World._salmonWeaponMap (snd (getSalmonWeaponMap env w))) =? 0)%nat
        then Throw (ThrowError "Failed to get salmon weapon map")
        else Ok (World._salmonWeaponMap (snd (getSalmonWeaponMap env w)))).
Proof.
  intros Hempty Hget.
  rewrite (getSalmonWeaponMap_run _ _ _ _ Hempty Hget). cbn [fst snd].
  destruct (_getCached_frame _ _ _ _ _ Hget) as (Hmap & Hconsole & _).
  split; [|split].
  - intros name. rewrite fold_step_entry_lookup, last_entry_entries.
    destruct (last_key name weapons); [reflexivity|].
    rewrite Hmap, Hempty. apply lookup_empty.
  - intros name (weapon1 & weapon2 & Hin1 & Hin2 & Hp1 & Hp2 & Hne).
    assert (Hinv : warned_or_agreed ([] ++ entries weapons)
                     (fold_left step_entry (entries weapons) w1)).
    { apply warned_or_agreed_fold. intros n. right. intros k []. }
    destruct (Hinv name) as [Hwarned | Hagreed]; [exact Hwarned|].
    exfalso. apply Hne.
    pose proof (Hagreed _ (produces_entry _ _ _ Hin1 Hp1)) as H1.
    pose proof (Hagreed _ (produces_entry _ _ _ Hin2 Hp2)) as H2.
    congruence.
  - reflexivity.
Qed.

(** C4, as stated, fails: of two weapons that share a display name the
    map keeps the key of the second, not of the first, after the warning. *)
Lemma getSalmonWeaponMap_first_writer_counterexample :
  first_key "Grizzco Weapon" demo_clashing_weapons = Some "kuma_blaster"
  /\ (fun m : gmap string string => m !! "Grizzco Weapon")
       <$> value (getSalmonWeaponMap demo_env_clash World_initial)
     = Some (Some "kuma_stringer")
  /\ World.console (snd (getSalmonWeaponMap demo_env_clash World_initial))
     = ["Duplicate weapon name: Grizzco Weapon"].
Proof. vm_compute. repeat split; reflexivity. Qed.

Lemma getSalmonWeaponMap_last_writer_witness :
  World._salmonWeaponMap (snd (getSalmonWeaponMap demo_env_clash World_initial))
    !! "Grizzco Weapon"
  = Some "kuma_stringer".
Proof.
  rewrite (proj1 (getSalmonWeaponMap_last_writer demo_env_clash World_initial
                    demo_clashing_weapons
                    (snd (getSalmonWeapon demo_env_clash World_initial))
                    eq_refl eq_refl)).
  reflexivity.
Defined.

(** ** [exportGame] on a battle whose stage is unknown *)

Lemma mapStage_unknown env vsDetail w stages w1 :
  getStage env w = (Ok stages, w1) ->
  find_stage
    (Js.toString (Env.b64Number env (VsStage.id (VsHistoryDetail.vsStage vsDetail))))
    stages = None ->
  mapStage env vsDetail w
  = (Throw (ThrowError ("Unknown stage: "
                        +:+ VsStage.name (VsHistoryDetail.vsStage vsDetail))), w1).
Proof.
  intros Hget Hfind. unfold mapStage. rewrite (bind_run _ _ _ _ _ Hget), Hfind.
  reflexivity.
Qed.

(** C8. A versus session whose decoded stage id is among the aliases of no
    stage of the catalog is not uploaded: [exportGame] throws a mapping
    error and the uploads sent are those sent before.  When the session maps
    up to its stage (the player is in the own team, there is an opposing
    team, the lobby is known), the error is the unknown-stage error and the
    state is the one fetching the stages left. *)
Theorem exportGame_unknown_stage env vs w stages w1 :
  getStage env w = (Ok stages, w1) ->
  find_stage
    (Js.toString
       (Env.b64Number env (VsStage.id (VsHistoryDetail.vsStage (VsInfo.detail vs)))))
    stages = None ->
  exists e w',
    exportGame env (GameVsInfo vs) w = (Throw e, w')
    /\ is_mapping_error e = true
    /\ uploads (World.requests w') = uploads (World.requests w)
    /\ (maps_up_to_stage env vs ->
        e = ThrowError ("Unknown stage: "
                        +:+ VsStage.name (VsHistoryDetail.vsStage (VsInfo.detail vs)))
        /\ w' = w1).
Proof.
  intros Hget Hfind.
  pose proof (mapStage_unknown env (VsInfo.detail vs) w stages w1 Hget Hfind) as Hstage.
  destruct (_getCached_frame _ _ _ _ _ Hget) as (_ & _ & Huploads).
  unfold exportGame, mapBattle, maps_up_to_stage.
  destruct (find VsPlayer.isMyself
              (VsTeam.players (VsHistoryDetail.myTeam (VsInfo.detail vs)))) as [self|].
  - destruct (VsHistoryDetail.otherTeams (VsInfo.detail vs)) as [|theirTeam moreTeams].
    + eexists _, w. split; [reflexivity|]. split; [reflexivity|]. split; [reflexivity|].
      intros (_ & Hne & _). contradiction.
    + destruct (mapLobby env (VsInfo.detail vs)) as [lobby|e] eqn:Hlobby.
      * eexists _, w1. split.
        -- unfold bind at 1. unfold bind at 1. cbn [lift]. unfold ret at 1.
           unfold bind at 1. rewrite Hstage. reflexivity.
        -- split; [reflexivity|]. split; [exact Huploads|]. intros _. split; reflexivity.
      * exists e, w. split; [reflexivity|].
        assert (He : is_mapping_error e = true).
        { unfold mapLobby in Hlobby.
          repeat match type of Hlobby with
                 | (if ?c then _ else _) = _ => destruct c
                 | (let _ := _ in _) = _ => cbn zeta in Hlobby
                 end; inversion Hlobby; reflexivity. }
        split; [exact He|]. split; [reflexivity|].
        intros (_ & _ & lobby & Hl). discriminate Hl.
  - eexists _, w. split; [reflexivity|]. split; [reflexivity|]. split; [reflexivity|].
    intros (Hself & _). contradiction.
Qed.

Lemma exportGame_unknown_stage_witness :
  exportGame demo_env (GameVsInfo (demo_vs "VsStage-99")) World_initial
  = (Throw (ThrowError "Unknown stage: Somewhere"),
     snd (getStage demo_env World_initial))
  /\ uploads (World.requests (snd (getStage demo_env World_initial))) = [].
Proof.
  destruct (exportGame_unknown_stage demo_env (demo_vs "VsStage-99") World_initial
              demo_stages (snd (getStage demo_env World_initial)) eq_refl eq_refl)
    as (e & w' & Hrun & _ & Hup & Hvalid).
  destruct Hvalid as [-> ->].
  - split; [discriminate | split; [discriminate | exists "regular"; reflexivity]].
  - split; [exact Hrun | exact Hup].
Defined.

(** ** [mapColor] *)

Lemma hex_channel_ok_all : forallb hex_channel_ok (seq 0 256) = true.
Proof. vm_compute. reflexivity. Qed.

Lemma hex_channel (n : Z) :
  0 <= n <= 255 ->
  exists hi lo,
    Js.padStart 2 "0" (Js.toString16 n) = String hi (String lo EmptyString)
    /\ is_hex_string (String hi (String lo EmptyString)) = true
    /\ parse_hex2 (String hi (String lo EmptyString)) = Some n.
Proof.
  intros Hn.
  assert (Hok : hex_channel_ok (Z.to_nat n) = true).
  { apply (proj1 (forallb_forall hex_channel_ok (seq 0 256)) hex_channel_ok_all).
    apply in_seq. lia. }
  unfold hex_channel_ok in Hok. rewrite Z2Nat.id in Hok by lia.
  apply andb_true_iff in Hok as [Hok Hparse].
  apply andb_true_iff in Hok as [Hlen Hhex].
  apply Nat.eqb_eq in Hlen.
  destruct (Js.padStart 2 "0" (Js.toString16 n)) as [|hi [|lo [|c rest]]];
    try discriminate Hlen.
  exists hi, lo. split; [reflexivity|]. split; [exact Hhex|].
  destruct (parse_hex2 (String hi (String lo EmptyString))) as [m|]; [|discriminate Hparse].
  apply Z.eqb_eq in Hparse. subst. reflexivity.
Qed.

Lemma Math_round_near (y : Q) :
  (inject_Z (Js.Math_round y) <= y + (1 # 2))%Q
  /\ (y + (1 # 2) < inject_Z (Js.Math_round y) + 1)%Q.
Proof.
  unfold Js.Math_round. split.
  - apply Qfloor_le.
  - pose proof (Qlt_floor (y + (1 # 2))) as H. rewrite inject_Z_plus in H.
    change (inject_Z 1) with 1%Q in H. exact H.
Qed.

Lemma Math_round_range (y : Q) :
  (0 <= y <= 255)%Q -> 0 <= Js.Math_round y <= 255.
Proof.
  intros [Hlo Hhi]. destruct (Math_round_near y) as [Hle Hlt].
  revert Hle Hlt. generalize (Js.Math_round y). intros n Hle Hlt.
  assert (H1 : (inject_Z n <= 511 # 2)%Q) by lra.
  assert (H2 : (- (1 # 2) < inject_Z n)%Q) by lra.
  unfold Qle in H1. unfold Qlt in H2. cbn in H1, H2. lia.
Qed.

Lemma float2hex_channel env (c : Q) :
  fl_accurate (Env.fl env) -> (0 <= c <= 1)%Q ->
  exists hi lo n,
    float2hex env c = String hi (String lo EmptyString)
    /\ is_hex_string (String hi (String lo EmptyString)) = true
    /\ parse_hex2 (String hi (String lo EmptyString)) = Some n
    /\ 0 <= n <= 255
    /\ (Qabs (inject_Z n / 255 - c) <= 1 # 255)%Q.
Proof.
  intros Hfl Hc.
  assert (Hx : (0 <= c * 255 <= 255)%Q) by (split; lra).
  destruct (Hfl _ Hx) as [Hrange Herr].
  pose proof (Math_round_range _ Hrange) as Hn.
  destruct (hex_channel _ Hn) as (hi & lo & Hs & Hhex & Hparse).
  exists hi, lo, (Js.Math_round (Env.fl env (c * 255))).
  unfold float2hex. repeat split; try assumption; try lia.
  destruct (Math_round_near (Env.fl env (c * 255))) as [Hle Hlt].
  apply Qabs_Qle_condition in Herr as [Herr1 Herr2].
  revert Hle Hlt Herr1 Herr2.
  generalize (Js.Math_round (Env.fl env (c * 255))), (Env.fl env (c * 255)).
  intros n y Hle Hlt Herr1 Herr2.
  apply Qabs_Qle_condition. unfold Qdiv. change (/ 255)%Q with (1 # 255)%Q.
  split; lra.
Qed.

Lemma is_hex_string_app s1 s2 :
  is_hex_string (s1 +:+ s2) = is_hex_string s1 && is_hex_string s2.
Proof.
  unfold is_hex_string. induction s1 as [|c rest IH].
  - reflexivity.
  - change (String c rest +:+ s2) with (String c (rest +:+ s2)).
    cbn [list_ascii_of_string forallb]. rewrite IH. apply andb_assoc.
Qed.

(** C9. For a colour whose four components lie in [0, 1] (the floating
    point product being accurate in the sense of [fl_accurate]), [mapColor]
    returns a string of eight hexadecimal digits, and each of its four
    two-digit channels, in the order R, G, B, A, decodes to an integer from 0
    to 255 that, divided by 255, is within 1/255 of the component. *)
Theorem mapColor_roundtrip env color :
  fl_accurate (Env.fl env) ->
  unit_color color ->
  String.length (mapColor env color) = 8%nat
  /\ is_hex_string (mapColor env color) = true
  /\ forall k : nat, (k < 4)%nat ->
       exists n,
         parse_hex2 (channel k (mapColor env color)) = Some n
         /\ 0 <= n <= 255
         /\ (Qabs (inject_Z n / 255 - component k color) <= 1 # 255)%Q.
Proof.
  intros Hfl Hunit.
  destruct (float2hex_channel env (Color.r color) Hfl (Hunit 0%nat ltac:(lia)))
    as (r1 & r2 & nr & Hr & Hrhex & Hrparse & Hrn & Hrq).
  destruct (float2hex_channel env (Color.g color) Hfl (Hunit 1%nat ltac:(lia)))
    as (g1 & g2 & ng & Hg & Hghex & Hgparse & Hgn & Hgq).
  destruct (float2hex_channel env (Color.b color) Hfl (Hunit 2%nat ltac:(lia)))
    as (b1 & b2 & nb & Hb & Hbhex & Hbparse & Hbn & Hbq).
  destruct (float2hex_channel env (Color.a color) Hfl (Hunit 3%nat ltac:(lia)))
    as (a1 & a2 & na & Ha & Hahex & Haparse & Han & Haq).
  unfold mapColor. cbn [map String.concat]. rewrite Hr, Hg, Hb, Ha.
  split; [reflexivity|]. split.
  - rewrite !is_hex_string_app, Hrhex, Hghex, Hbhex, Hahex. reflexivity.
  - intros k Hk.
    destruct k as [|[|[|[|k]]]]; [| | | |lia].
    + exists nr. change (parse_hex2 (String r1 (String r2 EmptyString)) = Some nr
                         /\ 0 <= nr <= 255
                         /\ (Qabs (inject_Z nr / 255 - Color.r color) <= 1 # 255)%Q). auto.
    + exists ng. change (parse_hex2 (String g1 (String g2 EmptyString)) = Some ng
                         /\ 0 <= ng <= 255
                         /\ (Qabs (inject_Z ng / 255 - Color.g color) <= 1 # 255)%Q). auto.
    + exists nb. change (parse_hex2 (String b1 (String b2 EmptyString)) = Some nb
                         /\ 0 <= nb <= 255
                         /\ (Qabs (inject_Z nb / 255 - Color.b color) <= 1 # 255)%Q). auto.
    + exists na. change (parse_hex2 (String a1 (String a2 EmptyString)) = Some na
                         /\ 0 <= na <= 255
                         /\ (Qabs (inject_Z na / 255 - Color.a color) <= 1 # 255)%Q). auto.
Qed.

Lemma Qred_fl_accurate : fl_accurate Qred.
Proof.
  intros x Hx. rewrite !Qred_correct. split; [exact Hx|].
  apply Qabs_Qle_condition. split; lra.
Qed.

Lemma mapColor_roundtrip_witness :
  String.length (mapColor demo_env demo_color) = 8%nat
  /\ is_hex_string (mapColor demo_env demo_color) = true
  /\ mapColor demo_env demo_color = "cc5500ff".
Proof.
  assert (Hunit : unit_color demo_color).
  { intros k Hk. destruct k as [|[|[|[|k]]]]; [| | | |lia];
      cbn; split; discriminate. }
  destruct (mapColor_roundtrip demo_env demo_color Qred_fl_accurate Hunit) as (Hlen & Hhex & _).
  split; [exact Hlen|]. split; [exact Hhex|]. reflexivity.
Defined.

(** ** No upload before the mapping is done *)

Lemma no_upload_ret {A} (a : A) : no_upload (ret a).
Proof. intros w r w' H. inversion H. reflexivity. Qed.

Lemma no_upload_throw {A} (e : Exn) : no_upload (@throw A e).
Proof. intros w r w' H. inversion H. reflexivity. Qed.

Lemma no_upload_lift {A} (r : Result A) : no_upload (lift r).
Proof. destruct r; [apply no_upload_ret | apply no_upload_throw]. Qed.

Lemma no_upload_bind {A B} (m : M A) (k : A -> M B) :
  no_upload m -> (forall a, no_upload (k a)) -> no_upload (bind m k).
Proof.
  intros Hm Hk w r w' H. unfold bind in H.
  destruct (m w) as [[a|e] w1] eqn:E.
  - rewrite (Hk a _ _ _ H). apply (Hm _ _ _ E).
  - inversion H; subst. apply (Hm _ _ _ E).
Qed.

Lemma no_upload_mapM {A B} (f : A -> M B) (l : list A) :
  (forall x, no_upload (f x)) -> no_upload (mapM f l).
Proof.
  intros Hf. induction l as [|x rest IH]; cbn [mapM].
  - apply no_upload_ret.
  - apply no_upload_bind; [apply Hf|]. intros y.
    apply no_upload_bind; [exact IH|]. intros ys. apply no_upload_ret.
Qed.

Lemma no_upload_mapM_index {A B} (f : A -> Z -> M B) (l : list A) :
  (forall x i, no_upload (f x i)) -> forall index, no_upload (mapM_index f index l).
Proof.
  intros Hf. induction l as [|x rest IH]; intros index; cbn [mapM_index].
  - apply no_upload_ret.
  - apply no_upload_bind; [apply Hf|]. intros y.
    apply no_upload_bind; [apply IH|]. intros ys. apply no_upload_ret.
Qed.

Lemma no_upload_getCached env url : no_upload (_getCached env url).
Proof. intros w r w' H. apply (_getCached_frame _ _ _ _ _ H). Qed.

Lemma no_upload_getSalmonWeaponMap env : no_upload (getSalmonWeaponMap env).
Proof.
  intros w r w' H. unfold getSalmonWeaponMap, get_world, bind at 1 in H.
  destruct (size (World._salmonWeaponMap w) =? 0)%nat.
  - unfold bind at 1 in H.
    destruct (getSalmonWeapon env w) as [[weapons|e] w1] eqn:E.
    + apply no_upload_getCached in E. rewrite <- E.
      unfold bind in H. rewrite salmon_loops_run in H. cbn zeta in H.
      assert (Hreq : forall es w0,
                 World.requests (fold_left step_entry es w0) = World.requests w0).
      { induction es as [|[n k] rest IH]; intros w0; cbn [fold_left]; [reflexivity|].
        rewrite IH. unfold step_entry, salmonWeaponMap_step. cbn.
        destruct (World._salmonWeaponMap w0 !! n) as [prev|]; [|reflexivity].
        destruct (negb (String.eqb prev k)); reflexivity. }
      destruct (size (World._salmonWeaponMap (fold_left step_entry (entries weapons) w1))
                =? 0)%nat; inversion H; subst; rewrite Hreq; reflexivity.
    + inversion H; subst. apply no_upload_getCached in E. exact E.
  - inversion H. reflexivity.
Qed.

Lemma no_upload_mapStage env vsDetail : no_upload (mapStage env vsDetail).
Proof.
  unfold mapStage. apply no_upload_bind; [apply no_upload_getCached|].
  intros stage. destruct (find_stage _ stage); [apply no_upload_ret | apply no_upload_throw].
Qed.

Lemma no_upload_mapPlayer env player index : no_upload (mapPlayer env player index).
Proof.
  unfold mapPlayer, mapGears, getAbility.
  apply no_upload_bind; [|intros gears; apply no_upload_ret].
  apply no_upload_bind; [apply no_upload_getCached|]. intros amap.
  apply no_upload_bind; [apply no_upload_lift|]. intros headgear.
  apply no_upload_bind; [apply no_upload_lift|]. intros clothing.
  apply no_upload_bind; [apply no_upload_lift|]. intros shoes.
  apply no_upload_ret.
Qed.

Lemma no_upload_mapBattle env vs : no_upload (mapBattle env vs).
Proof.
  unfold mapBattle.
  destruct (find VsPlayer.isMyself _); [|apply no_upload_throw].
  destruct (VsHistoryDetail.otherTeams (VsInfo.detail vs)) as [|theirTeam moreTeams];
    [apply no_upload_throw|].
  apply no_upload_bind; [apply no_upload_lift|]. intros lobby.
  apply no_upload_bind; [apply no_upload_mapStage|]. intros stage.
  apply no_upload_bind; [apply no_upload_mapM_index, no_upload_mapPlayer|]. intros ours.
  apply no_upload_bind; [apply no_upload_mapM_index, no_upload_mapPlayer|]. intros theirs.
  apply no_upload_bind; [|intros third; apply no_upload_ret].
  destruct moreTeams as [|third [|fourth more]]; try apply no_upload_ret.
  destruct (String.eqb _ "TURF_WAR" || String.eqb _ "TRI_COLOR"); [|apply no_upload_ret].
  apply no_upload_bind; [apply no_upload_mapM_index, no_upload_mapPlayer|].
  intros ps. apply no_upload_ret.
Qed.

Lemma no_upload_mapCoopPlayer env isMyself p : no_upload (mapCoopPlayer env isMyself p).
Proof.
  unfold mapCoopPlayer.
  apply no_upload_bind.
  - destruct (CoopHistoryPlayerResult.specialWeapon p);
      [apply no_upload_lift | apply no_upload_ret].
  - intros special. apply no_upload_bind; [|intros weapons; apply no_upload_ret].
    apply no_upload_mapM. intros weapon. unfold mapCoopWeapon.
    apply no_upload_bind; [apply no_upload_getSalmonWeaponMap|]. intros weaponMap.
    destruct (when_truthy _); [apply no_upload_ret|].
    destruct (isRandom _); [apply no_upload_ret | apply no_upload_throw].
Qed.

Lemma no_upload_mapWave env wave : no_upload (mapWave env wave).
Proof.
  unfold mapWave. apply no_upload_bind; [|intros specials; apply no_upload_ret].
  apply no_upload_mapM. intros special. apply no_upload_lift.
Qed.

Lemma no_upload_mapCoop env coop : no_upload (mapCoop env coop).
Proof.
  unfold mapCoop.
  apply no_upload_bind; [apply no_upload_mapM, no_upload_mapWave|]. intros waves.
  apply no_upload_bind; [|intros players; apply no_upload_ret].
  apply no_upload_mapM. intros [isMyself p]. apply no_upload_mapCoopPlayer.
Qed.

Lemma post_body_then {A} env path body (k : StatInkPostResponse -> M A) w :
  (forall json w0, snd (k json w0) = w0) ->
  snd (bind (post_body env path body) k w) = send (upload_request env path body) w.
Proof.
  intros Hk. unfold bind.
  destruct (post_body env path body w) as [[json|e] w1] eqn:E;
    rewrite post_body_run in E; inversion E; subst; [apply Hk | reflexivity].
Qed.

Lemma url_of_quiet (json : StatInkPostResponse) w :
  snd ((let* url := lift (Js_get json "url") in
        ret {| ExportResult.status := "success"; ExportResult.url := url |}) w) = w.
Proof. unfold bind. destruct (Js_get json "url"); reflexivity. Qed.

Lemma uploads_send_POST req w :
  is_POST req = true ->
  uploads (World.requests (send req w)) = uploads (World.requests w) ++ [req].
Proof.
  intros H. unfold uploads, send. cbn. rewrite List.filter_app. cbn. rewrite H.
  reflexivity.
Qed.

(** No partial body is submitted: [exportGame] sends no upload while the
    session is mapped; when the mapping throws it throws the same and has
    sent none, and when the mapping returns a body it sends exactly one
    upload, which carries that body. *)
Theorem exportGame_uploads env game w :
  match game with
  | GameVsInfo vs =>
      match mapBattle env vs w with
      | (Ok body, w1) =>
          uploads (World.requests (snd (exportGame env game w)))
          = uploads (World.requests w)
            ++ [upload_request env "/api/v3/battle" (BattleBody body)]
      | (Throw e, w1) =>
          exportGame env game w = (Throw e, w1)
          /\ uploads (World.requests w1) = uploads (World.requests w)
      end
  | GameCoopInfo coop =>
      match mapCoop env coop w with
      | (Ok body, w1) =>
          uploads (World.requests (snd (exportGame env game w)))
          = uploads (World.requests w)
            ++ [upload_request env "/api/v3/salmon" (CoopBody body)]
      | (Throw e, w1) =>
          exportGame env game w = (Throw e, w1)
          /\ uploads (World.requests w1) = uploads (World.requests w)
      end
  end.
Proof.
  destruct game as [vs|coop]; cbn [exportGame].
  - destruct (mapBattle env vs w) as [[body|e] w1] eqn:E.
    + rewrite (bind_run _ _ _ _ _ E). unfold postBattle.
      rewrite post_body_then by apply url_of_quiet.
      rewrite <- (no_upload_mapBattle _ _ _ _ _ E).
      apply uploads_send_POST; reflexivity.
    + split; [apply bind_throw, E | apply (no_upload_mapBattle _ _ _ _ _ E)].
  - destruct (mapCoop env coop w) as [[body|e] w1] eqn:E.
    + rewrite (bind_run _ _ _ _ _ E). unfold postCoop.
      rewrite post_body_then by apply url_of_quiet.
      rewrite <- (no_upload_mapCoop _ _ _ _ _ E).
      apply uploads_send_POST; reflexivity.
    + split; [apply bind_throw, E | apply (no_upload_mapCoop _ _ _ _ _ E)].
Qed.

(** ** Fields of a mapped battle *)

(** What [mapBattle] returns, field by field, for the fields looked at
    below. *)
Lemma mapBattle_Ok env vs w body w' :
  mapBattle env vs w = (Ok body, w') ->
  exists self theirTeam moreTeams,
    find VsPlayer.isMyself (VsTeam.players (VsHistoryDetail.myTeam (VsInfo.detail vs)))
    = Some self
    /\ VsHistoryDetail.otherTeams (VsInfo.detail vs) = theirTeam :: moreTeams
    /\ StatInkPostBody.kill_or_assist body = VsPlayerResult.kill <$> VsPlayer.result self
    /\ StatInkPostBody.assist body = VsPlayerResult.assist <$> VsPlayer.result self
    /\ StatInkPostBody.kill body
       = (fun r => VsPlayerResult.kill r - VsPlayerResult.assist r) <$> VsPlayer.result self
    /\ (moreTeams = [] ->
        StatInkPostBody.third_team_color body = None
        /\ StatInkPostBody.third_team_players body = None
        /\ StatInkPostBody.third_team_percent body = None
        /\ StatInkPostBody.third_team_inked body = None
        /\ StatInkPostBody.third_team_theme body = None
        /\ StatInkPostBody.third_team_role body = None)
    /\ (forall third, moreTeams = [third] ->
        StatInkPostBody.third_team_color body = Some (mapColor env (VsTeam.color third))
        /\ (String.eqb (VsRule.rule (VsHistoryDetail.vsRule (VsInfo.detail vs))) "TURF_WAR"
            || String.eqb (VsRule.rule (VsHistoryDetail.vsRule (VsInfo.detail vs)))
                 "TRI_COLOR" = true ->
            (exists ps, StatInkPostBody.third_team_players body = Some ps
                        /\ length ps = length (VsTeam.players third))
            /\ StatInkPostBody.third_team_percent body = Some (team_percent env third)
            /\ StatInkPostBody.third_team_inked body
               = Some (sum_paint (VsTeam.players third)))).
Proof.
  unfold mapBattle. intros H.
  destruct (find VsPlayer.isMyself _) as [self|]; [|discriminate H].
  destruct (VsHistoryDetail.otherTeams (VsInfo.detail vs)) as [|theirTeam moreTeams];
    [discriminate H|].
  apply bind_Ok in H as (lobby & w1 & _ & H).
  apply bind_Ok in H as (stage & w2 & _ & H).
  apply bind_Ok in H as (ours & w3 & _ & H).
  apply bind_Ok in H as (theirs & w4 & _ & H).
  apply bind_Ok in H as (third_players & w5 & Hthird & H).
  inversion H; subst body w'. clear H.
  exists self, theirTeam, moreTeams. cbn.
  repeat (split; [reflexivity|]). split.
  - intros ->. cbn in Hthird. inversion Hthird; subst.
    destruct (String.eqb _ "TURF_WAR" || String.eqb _ "TRI_COLOR"); auto 10.
  - intros third ->. split; [reflexivity|]. intros Hturf.
    rewrite Hturf in Hthird |- *.
    apply bind_Ok in Hthird as (ps & w6 & Hps & Hthird). inversion Hthird; subst.
    split; [|split; reflexivity].
    exists ps. split; [reflexivity|].
    clear -Hps. revert Hps. generalize 0. generalize (VsTeam.players third).
    intros l. revert ps w4 w5. induction l as [|x rest IH]; intros ps w4 w5 i H; cbn in H.
    + inversion H. reflexivity.
    + apply bind_Ok in H as (y & wa & _ & H). apply bind_Ok in H as (ys & wb & Hr & H).
      inversion H; subst. cbn. f_equal. eapply IH, Hr.
Qed.

(** The kills of the player are the kills-or-assists less the assists, and
    are not negative when the assists do not exceed them. *)
Theorem mapBattle_kill env vs w body w' :
  mapBattle env vs w = (Ok body, w') ->
  forall kill_or_assist assist,
    StatInkPostBody.kill_or_assist body = Some kill_or_assist ->
    StatInkPostBody.assist body = Some assist ->
    StatInkPostBody.kill body = Some (kill_or_assist - assist)
    /\ (assist <= kill_or_assist -> 0 <= kill_or_assist - assist).
Proof.
  intros H kill_or_assist assist Hk Ha.
  apply mapBattle_Ok in H as (self & _ & _ & _ & _ & Hka & Hassist & Hkill & _).
  rewrite Hka in Hk. rewrite Hassist in Ha. rewrite Hkill.
  destruct (VsPlayer.result self) as [r|]; [|discriminate Hk].
  cbn in *. inversion Hk; inversion Ha; subst. split; [reflexivity | lia].
Qed.

(** The fields of the third team are left unset for a battle with one
    opposing team; with two opposing teams the colour of the third team is
    set and, under the turf-war and tricolour rules, so are its players, its
    percentage and its inked area. *)
Theorem mapBattle_third_team env vs w body w' :
  mapBattle env vs w = (Ok body, w') ->
  (length (VsHistoryDetail.otherTeams (VsInfo.detail vs)) = 1%nat ->
   StatInkPostBody.third_team_color body = None
   /\ StatInkPostBody.third_team_players body = None
   /\ StatInkPostBody.third_team_percent body = None
   /\ StatInkPostBody.third_team_inked body = None
   /\ StatInkPostBody.third_team_theme body = None
   /\ StatInkPostBody.third_team_role body = None)
  /\ (length (VsHistoryDetail.otherTeams (VsInfo.detail vs)) = 2%nat ->
      StatInkPostBody.third_team_color body <> None
      /\ (VsRule.rule (VsHistoryDetail.vsRule (VsInfo.detail vs)) = "TURF_WAR"
          \/ VsRule.rule (VsHistoryDetail.vsRule (VsInfo.detail vs)) = "TRI_COLOR" ->
          StatInkPostBody.third_team_players body <> None
          /\ StatInkPostBody.third_team_percent body <> None
          /\ StatInkPostBody.third_team_inked body <> None)).
Proof.
  intros H.
  apply mapBattle_Ok in H
    as (self & theirTeam & moreTeams & _ & Hteams & _ & _ & _ & Hone & Htwo).
  rewrite Hteams. cbn [length]. split.
  - intros Hlen. apply Hone. destruct moreTeams; [reflexivity | discriminate Hlen].
  - intros Hlen. destruct moreTeams as [|third [|fourth more]]; try discriminate Hlen.
    destruct (Htwo third eq_refl) as [Hcolor Hturf]. split.
    + rewrite Hcolor. discriminate.
    + intros Hrule.
      destruct Hturf as ((ps & Hps & _) & Hpercent & Hinked).
      * destruct Hrule as [-> | ->]; reflexivity.
      * rewrite Hps, Hpercent, Hinked. repeat split; discriminate.
Qed.

Lemma mapBattle_kill_witness :
  StatInkPostBody.kill
    <$> value (mapBattle demo_env (demo_vs "VsStage-1") World_initial)
  = Some (Some 5).
Proof.
  destruct (mapBattle demo_env (demo_vs "VsStage-1") World_initial)
    as [[body|e] w'] eqn:E; [|vm_compute in E; discriminate E].
  unfold value. cbn [fst fmap option_fmap option_map]. f_equal.
  apply (mapBattle_kill _ _ _ _ _ E 7 2).
  - apply mapBattle_Ok in E as (self & _ & _ & Hself & _ & -> & _).
    vm_compute in Hself. inversion Hself. reflexivity.
  - apply mapBattle_Ok in E as (self & _ & _ & Hself & _ & _ & -> & _).
    vm_compute in Hself. inversion Hself. reflexivity.
Defined.

Lemma mapBattle_third_team_witness :
  (fun body =>
     (StatInkPostBody.third_team_color body, StatInkPostBody.third_team_players body))
    <$> value (mapBattle demo_env (demo_vs "VsStage-1") World_initial)
  = Some (None, None).
Proof.
  destruct (mapBattle demo_env (demo_vs "VsStage-1") World_initial)
    as [[body|e] w'] eqn:E; [|vm_compute in E; discriminate E].
  unfold value. cbn [fst fmap option_fmap option_map]. f_equal.
  destruct (proj1 (mapBattle_third_team _ _ _ _ _ E) eq_refl) as (-> & -> & _).
  reflexivity.
Defined.

(** ** More on a mapped coop session *)

(** The count of cleared waves: the waves numbered up to the maximum of the
    rule (5 for the team contest, 3 otherwise), minus one, plus one when
    [resultWave] is zero; zero when the session has no wave. *)
Theorem mapCoop_clear_waves_formula env coop w body w' :
  mapCoop env coop w = (Ok body, w') ->
  (CoopHistoryDetail.waveResults (CoopInfo.detail coop) = [] ->
   StatInkCoopPostBody.clear_waves body = 0)
  /\ (CoopHistoryDetail.waveResults (CoopInfo.detail coop) <> [] ->
      StatInkCoopPostBody.clear_waves body
      = Z.of_nat (length (List.filter (fun n => n <=? maxWaves (CoopInfo.detail coop))
                            (map WaveResult.waveNumber
                               (CoopHistoryDetail.waveResults (CoopInfo.detail coop)))))
        - 1 + (if CoopHistoryDetail.resultWave (CoopInfo.detail coop) =? 0 then 1 else 0)).
Proof.
  intros H. rewrite (mapCoop_clear_waves _ _ _ _ _ H), clear_waves_of_numbers. cbn zeta.
  split.
  - intros ->. reflexivity.
  - intros Hne.
    destruct (CoopHistoryDetail.waveResults (CoopInfo.detail coop)) as [|wave rest];
      [contradiction|].
    cbn [map length Nat.ltb Nat.leb]. f_equal. f_equal. f_equal. f_equal.
    apply List.filter_ext. intros n.
    apply eq_true_iff_eq. rewrite Z.ltb_lt, Z.leb_le. lia.
Qed.

Lemma mapCoop_clear_waves_formula_witness :
  StatInkCoopPostBody.clear_waves
    <$> value (mapCoop demo_env (demo_coop "REGULAR" [] 0 40 3) World_initial)
  = Some 0.
Proof.
  destruct (mapCoop demo_env (demo_coop "REGULAR" [] 0 40 3) World_initial)
    as [[body|e] w'] eqn:E; [|vm_compute in E; discriminate E].
  unfold value. cbn [fst fmap option_fmap option_map]. f_equal.
  apply (proj1 (mapCoop_clear_waves_formula _ _ _ _ _ E)). reflexivity.
Defined.

(** The fail reason is "wipe_out" exactly when the cleared waves are short
    of the maximum of the rule and the last wave delivered at least its
    quota; it is unset otherwise. *)
Theorem mapCoop_fail_reason env coop w body w' :
  mapCoop env coop w = (Ok body, w') ->
  (StatInkCoopPostBody.fail_reason body = Some "wipe_out" <->
   StatInkCoopPostBody.clear_waves body <> maxWaves (CoopInfo.detail coop)
   /\ exists lastWave,
        last (CoopHistoryDetail.waveResults (CoopInfo.detail coop)) = Some lastWave
        /\ WaveResult.deliverNorm lastWave <= WaveResult.teamDeliverCount lastWave)
  /\ (StatInkCoopPostBody.fail_reason body = None
      \/ StatInkCoopPostBody.fail_reason body = Some "wipe_out").
Proof.
  intros H. pose proof (mapCoop_clear_waves _ _ _ _ _ H) as Hclear.
  apply mapCoop_Ok in H as (waves & players & w1 & _ & _ & ->).
  cbn in Hclear |- *. unfold fail_reason_of.
  destruct (clear_waves_of (CoopInfo.detail coop) =? maxWaves (CoopInfo.detail coop)) eqn:E.
  - apply Z.eqb_eq in E. cbn. split; [|auto]. split; [discriminate|].
    intros [Hne _]. contradiction.
  - apply Z.eqb_neq in E. cbn [negb andb].
    destruct (CoopHistoryDetail.waveResults (CoopInfo.detail coop)) as [|wave rest] eqn:Hw.
    + cbn. split; [|auto]. split; [discriminate|].
      intros (_ & lastWave & Hlast & _). discriminate Hlast.
    + cbn [length Nat.ltb Nat.leb].
      destruct (last (wave :: rest)) as [lastWave|] eqn:Hlast.
      * destruct (WaveResult.teamDeliverCount lastWave >=? WaveResult.deliverNorm lastWave)
          eqn:Hge.
        -- split; [|auto]. split; [|reflexivity]. intros _. split; [exact E|].
           exists lastWave. split; [reflexivity|]. apply Z.geb_le in Hge. exact Hge.
        -- split; [|auto]. split; [discriminate|].
           intros (_ & lastWave' & Heq & Hle). inversion Heq; subst.
           apply Z.geb_le in Hle. congruence.
      * split; [|auto]. split; [discriminate|].
        intros (_ & lastWave & Heq & _). discriminate Heq.
Qed.

Lemma mapCoop_fail_reason_witness :
  StatInkCoopPostBody.fail_reason
    <$> value (mapCoop demo_env
                 (demo_coop "REGULAR" [demo_wave 1 10 12; demo_wave 2 12 14] 2 40 3)
                 World_initial)
  = Some (Some "wipe_out").
Proof.
  destruct (mapCoop demo_env
              (demo_coop "REGULAR" [demo_wave 1 10 12; demo_wave 2 12 14] 2 40 3)
              World_initial) as [[body|e] w'] eqn:E; [|vm_compute in E; discriminate E].
  unfold value. cbn [fst fmap option_fmap option_map]. f_equal.
  apply (proj1 (mapCoop_fail_reason _ _ _ _ _ E)). split.
  - rewrite (mapCoop_clear_waves _ _ _ _ _ E). discriminate.
  - exists (demo_wave 2 12 14). split; [reflexivity | cbn; lia].
Defined.

(** The other rules of the title inference.  With a pre-session grade the
    title and the points before are its own.  Without one, and outside the
    two cases of 40 points that leave them unset: at 999 points with a
    change that is not zero the title before is the title after and the
    points before are unset; otherwise, when the points after less the
    change are not negative the title before is the title after and those
    are the points before, and when they are negative the title before is
    the title one below and the points before are unset. *)
Theorem mapCoop_title_before_inferred env coop w body w' :
  mapCoop env coop w = (Ok body, w') ->
  (forall gradeBefore,
      CoopInfo.gradeBefore coop = Some gradeBefore ->
      StatInkCoopPostBody.title_before body
      = Some (Js.toString (Env.b64Number env (IdRef.id (GradeBefore.grade gradeBefore))))
      /\ StatInkCoopPostBody.title_exp_before body
         = Some (GradeBefore.gradePoint gradeBefore))
  /\ (forall title_after exp expDiff,
      CoopInfo.gradeBefore coop = None ->
      StatInkCoopPostBody.title_after body = Some title_after ->
      StatInkCoopPostBody.title_exp_after body = Some exp ->
      COOP_POINT_MAP (StatInkCoopPostBody.clear_waves body) = Some expDiff ->
      ~ (exp = 40 /\ (expDiff = 20 \/ (expDiff < 0 /\ title_after <> "8"))) ->
      (exp = 999 /\ expDiff <> 0 ->
       StatInkCoopPostBody.title_before body = Some title_after
       /\ StatInkCoopPostBody.title_exp_before body = None)
      /\ (~ (exp = 999 /\ expDiff <> 0) -> 0 <= exp - expDiff ->
          StatInkCoopPostBody.title_before body = Some title_after
          /\ StatInkCoopPostBody.title_exp_before body = Some (exp - expDiff))
      /\ (~ (exp = 999 /\ expDiff <> 0) -> exp - expDiff < 0 ->
          StatInkCoopPostBody.title_before body
          = Some (Js.toString_nan ((fun n => n - 1) <$> Js.parseInt title_after))
          /\ StatInkCoopPostBody.title_exp_before body = None)).
Proof.
  intros H. split.
  - intros gradeBefore Hg.
    apply mapCoop_Ok in H as (waves & players & w1 & _ & _ & ->).
    cbn. rewrite Hg. auto.
  - intros title_after exp expDiff Hg Ht He Hd Hguard.
    pose proof (mapCoop_title_before _ _ _ _ _ H Hg) as Hinfer.
    rewrite Ht, He, Hd in Hinfer. unfold infer_title_before in Hinfer.
    assert (H1 : (exp =? 40) && (expDiff =? 20) = false).
    { apply not_true_iff_false. rewrite andb_true_iff, !Z.eqb_eq. tauto. }
    assert (H2 : (exp =? 40) && (expDiff <? 0) && negb (String.eqb title_after "8")
                 = false).
    { apply not_true_iff_false.
      rewrite !andb_true_iff, Z.eqb_eq, Z.ltb_lt, negb_true_iff, String.eqb_neq. tauto. }
    rewrite H1, H2 in Hinfer.
    destruct ((exp =? 999) && negb (expDiff =? 0)) eqn:H3.
    + apply andb_true_iff in H3 as [Ha Hb].
      apply Z.eqb_eq in Ha. apply negb_true_iff, Z.eqb_neq in Hb.
      inversion Hinfer. repeat split; intros; tauto.
    + assert (Hn : ~ (exp = 999 /\ expDiff <> 0)).
      { intros [Ha Hb]. apply Z.eqb_eq in Ha. apply Z.eqb_neq in Hb.
        rewrite Ha, Hb in H3. discriminate H3. }
      destruct (exp - expDiff >=? 0) eqn:H4; inversion Hinfer.
      * apply Z.geb_le in H4. repeat split; intros; try tauto; lia.
      * rewrite Z.geb_leb in H4. apply Z.leb_gt in H4.
        repeat split; intros; try tauto; lia.
Qed.

Lemma mapCoop_title_before_inferred_witness :
  (fun body =>
     (StatInkCoopPostBody.title_before body, StatInkCoopPostBody.title_exp_before body))
    <$> value (mapCoop demo_env
                 (demo_coop "REGULAR" [demo_wave 1 10 12; demo_wave 2 12 5] 2 60 3)
                 World_initial)
  = Some (Some "5", Some 70).
Proof.
  destruct (mapCoop demo_env
              (demo_coop "REGULAR" [demo_wave 1 10 12; demo_wave 2 12 5] 2 60 3)
              World_initial) as [[body|e] w'] eqn:E; [|vm_compute in E; discriminate E].
  unfold value. cbn [fst fmap option_fmap option_map]. f_equal.
  assert (Hfields :
    StatInkCoopPostBody.title_after body = Some "5"
    /\ StatInkCoopPostBody.title_exp_after body = Some 60
    /\ StatInkCoopPostBody.clear_waves body = 1).
  { apply mapCoop_Ok in E as (waves & players & w1 & _ & _ & ->).
    vm_compute. repeat split; reflexivity. }
  destruct Hfields as (Ht & He & Hc).
  destruct (proj2 (mapCoop_title_before_inferred _ _ _ _ _ E) "5" 60 (-10)
              eq_refl Ht He) as (_ & Hkeep & _).
  - rewrite Hc. reflexivity.
  - intros [Hexp _]. discriminate Hexp.
  - destruct Hkeep as [-> ->]; [intros [Hexp _]; discriminate Hexp | lia | reflexivity].
Defined.

(** ** The catalog cache, the abilities and the lobby *)

(** A catalog that was fetched is cached, and the next call returns it
    from the cache without a request; a failed fetch caches nothing, so the
    next call fetches again. *)
Theorem getCached_caches env url w :
  match _getCached env url w with
  | (Ok json, w') =>
      World.cache w' !! url = Some json
      /\ _getCached env url w' = (Ok json, w')
  | (Throw e, w') => World.cache w' = World.cache w
  end.
Proof.
  destruct (_getCached env url w) as [[json|e] w'] eqn:E.
  - assert (Hc : World.cache w' !! url = Some json).
    { unfold _getCached, get_world, bind at 1 in E.
      destruct (World.cache w !! url) as [cached|] eqn:Hhit.
      - inversion E; subst. exact Hhit.
      - apply bind_Ok in E as (resp & w1 & _ & E).
        apply bind_Ok in E as (u & w2 & Hcheck & E).
        apply bind_Ok in E as (j & w3 & Hjson & E).
        apply bind_Ok in E as (u' & w4 & Hmod & E).
        inversion E; subst. inversion Hmod; subst. cbn. apply lookup_insert_eq. }
    split; [exact Hc|].
    unfold _getCached, get_world, bind at 1. rewrite Hc. reflexivity.
  - unfold _getCached, get_world, bind at 1 in E.
    destruct (World.cache w !! url) as [cached|]; [inversion E|].
    unfold fetch_get_catalog, checkResponse, Response_json, modify, ret, throw, bind in E.
    destruct (Env.get_catalog env (World.requests w) url (requestHeaders env))
      as [status [j|]]; cbn in E;
      destruct (status / 100 =? 2); cbn in E; inversion E; reflexivity.
Qed.

(** A gear whose primary ability has no key in the catalog is an error;
    secondary abilities without a key are mapped to [null]. *)
Theorem mapGear_abilities amap gear :
  match mapGear amap gear with
  | Ok g =>
      mapAbility amap (PlayerGear.primaryGearPower gear)
      = Some (StatInkGear.primary_ability g)
      /\ StatInkGear.primary_ability g <> EmptyString
      /\ StatInkGear.secondary_abilities g
         = map (mapAbility amap) (PlayerGear.additionalGearPowers gear)
  | Throw e =>
      e = ThrowError ("Unknown ability: "
                      +:+ Named.name (PlayerGear.primaryGearPower gear))
      /\ (mapAbility amap (PlayerGear.primaryGearPower gear) = None
          \/ mapAbility amap (PlayerGear.primaryGearPower gear) = Some EmptyString)
  end.
Proof.
  unfold mapGear.
  destruct (mapAbility amap (PlayerGear.primaryGearPower gear)) as [primary|].
  - destruct primary as [|c rest]; cbn.
    + auto.
    + split; [reflexivity|]. split; [discriminate | reflexivity].
  - auto.
Qed.

(** The lobby of a splatfest battle: the mode ids 6 and 8 both give the
    open lobby, 7 the challenge lobby, and any other id is an error. *)
Theorem mapLobby_fest env vsDetail :
  VsMode.mode (VsHistoryDetail.vsMode vsDetail) = "FEST" ->
  mapLobby env vsDetail
  = (let modeId := Env.b64Number env (VsMode.id (VsHistoryDetail.vsMode vsDetail)) in
     if (modeId =? 6) || (modeId =? 8) then Ok "splatfest_open"
     else if modeId =? 7 then Ok "splatfest_challenge"
     else Throw (ThrowTypeError "Unknown vsMode FEST")).
Proof.
  intros Hmode. unfold mapLobby. rewrite Hmode. cbn.
  generalize (Env.b64Number env (VsMode.id (VsHistoryDetail.vsMode vsDetail))).
  intros modeId.
  destruct (Z.eqb_spec modeId 6); [reflexivity|].
  destruct (Z.eqb_spec modeId 7), (Z.eqb_spec modeId 8); try reflexivity; lia.
Qed.

Lemma mapLobby_fest_witness :
  mapLobby demo_env
    {| VsHistoryDetail.id := "VsHistoryDetail-2";
       VsHistoryDetail.vsMode := {| VsMode.mode := "FEST"; VsMode.id := "VsMode-8" |};
       VsHistoryDetail.vsRule := {| VsRule.rule := "TRI_COLOR" |};
       VsHistoryDetail.vsStage := {| VsStage.id := "VsStage-1"; VsStage.name := "Scorch Gorge" |};
       VsHistoryDetail.judgement := "WIN";
       VsHistoryDetail.knockout := None;
       VsHistoryDetail.myTeam := demo_team true demo_color;
       VsHistoryDetail.otherTeams := [demo_team false demo_color; demo_team false demo_color];
       VsHistoryDetail.bankaraMatch := None;
       VsHistoryDetail.festMatch := None;
       VsHistoryDetail.xMatch := None;
       VsHistoryDetail.playedTime := "2023-11-14T22:13:20Z";
       VsHistoryDetail.duration := 180;
       VsHistoryDetail.awards := [] |}
  = Ok "splatfest_open".
Proof. rewrite mapLobby_fest; reflexivity. Defined.

(** ** Decimal strings *)

Lemma parse_digits_uint_acc (d : Decimal.uint) (p : positive) :
  Js.parse_digits (Some (Z.pos p)) (DecimalString.NilEmpty.string_of_uint d)
  = Some (Z.pos (Pos.of_uint_acc d p)).
Proof.
  revert p. induction d; intros p; [reflexivity | ..];
    cbn -[Z.mul Z.add Pos.mul Pos.add];
    rewrite <- IHd; f_equal; f_equal;
    match goal with
    | |- context [Js.digit_value ?c] =>
        let v := eval vm_compute in (Js.digit_value c) in
        change (Js.digit_value c) with v
    end; lia.
Qed.

Lemma parse_digits_uint (d : Decimal.uint) :
  Js.parse_digits (Some 0) (DecimalString.NilEmpty.string_of_uint d)
  = Some (Z.of_uint d).
Proof.
  unfold Z.of_uint. induction d; [reflexivity | ..];
    cbn -[Z.mul Z.add Pos.mul Pos.add Pos.of_uint_acc];
    try exact IHd; apply parse_digits_uint_acc.
Qed.

Lemma parse_digits_NilZero (d : Decimal.uint) :
  Js.parse_digits None (DecimalString.NilZero.string_of_uint d) = Some (Z.of_uint d).
Proof.
  destruct d; [reflexivity | ..];
    cbn -[Z.mul Z.add Pos.mul Pos.add Pos.of_uint_acc Z.of_uint];
    try apply (parse_digits_uint d); 
    unfold Z.of_uint; cbn -[Pos.of_uint_acc]; apply parse_digits_uint_acc.
Qed.

Lemma string_of_uint_first (d : Decimal.uint) :
  match DecimalString.NilZero.string_of_uint d with
  | String c _ => Js.is_digit c = true
  | EmptyString => False
  end.
Proof. destruct d; reflexivity. Qed.

(** [parseInt(n.toString())] is [n]. *)
Lemma parseInt_toString (n : Z) : Js.parseInt (Js.toString n) = Some n.
Proof.
  unfold Js.toString, Js.parseInt.
  rewrite <- (DecimalZ.of_to n) at 2.
  destruct (Z.to_int n) as [d|d]; cbn [DecimalString.NilZero.string_of_int Z.of_int].
  - pose proof (string_of_uint_first d) as Hfirst.
    pose proof (parse_digits_NilZero d) as Hparse.
    destruct (DecimalString.NilZero.string_of_uint d) as [|c rest]; [contradiction|].
    cbn [Js.trimStart].
    assert (Hspace : Js.is_space c = false).
    { unfold Js.is_digit in Hfirst. unfold Js.is_space.
      apply andb_true_iff in Hfirst as [H1 H2].
      apply Nat.leb_le in H1. apply Nat.leb_le in H2.
      apply orb_false_iff. split.
      - apply Nat.eqb_neq. lia.
      - apply andb_false_iff. right. apply Nat.leb_gt. lia. }
    rewrite Hspace.
    assert (Hsign : c <> "-"%char /\ c <> "+"%char).
    { split; intros ->; discriminate Hfirst. }
    destruct Hsign as [Hminus Hplus].
    destruct (Ascii.eqb_spec c "-"); [contradiction|].
    destruct (Ascii.eqb_spec c "+"); [contradiction|].
    destruct c as [[] [] [] [] [] [] [] []]; try exact Hparse; contradiction.
  - cbn [Js.trimStart]. change (Js.is_space "-") with false. cbn iota.
    rewrite parse_digits_NilZero. reflexivity.
Qed.

(** ** The title one grade below *)

Lemma COOP_POINT_MAP_bound clear_waves expDiff :
  COOP_POINT_MAP clear_waves = Some expDiff -> -20 <= expDiff <= 20.
Proof.
  unfold COOP_POINT_MAP.
  repeat match goal with |- context [if ?c then _ else _] => destruct c end;
    intros H; inversion H; lia.
Qed.

(** When the points after a coop session are fewer than the points the
    session earned, the title before is the decimal of the grade number
    after less one, and the points before are unset. *)
Theorem mapCoop_title_one_below env coop w body w' grade exp expDiff :
  mapCoop env coop w = (Ok body, w') ->
  CoopInfo.gradeBefore coop = None ->
  CoopHistoryDetail.afterGrade (CoopInfo.detail coop) = Some grade ->
  CoopHistoryDetail.afterGradePoint (CoopInfo.detail coop) = Some exp ->
  COOP_POINT_MAP (StatInkCoopPostBody.clear_waves body) = Some expDiff ->
  0 <= exp < expDiff ->
  StatInkCoopPostBody.title_before body
  = Some (Js.toString (Env.b64Number env (IdRef.id grade) - 1))
  /\ StatInkCoopPostBody.title_exp_before body = None.
Proof.
  intros H Hg Hgrade Hexp Hd Hlt.
  pose proof (COOP_POINT_MAP_bound _ _ Hd) as Hbound.
  pose proof (mapCoop_title_before _ _ _ _ _ H Hg) as Hinfer.
  assert (Hfields :
    StatInkCoopPostBody.title_after body
    = Some (Js.toString (Env.b64Number env (IdRef.id grade)))
    /\ StatInkCoopPostBody.title_exp_after body = Some exp).
  { apply mapCoop_Ok in H as (waves & players & w1 & _ & _ & ->).
    cbn. rewrite Hgrade, Hexp. auto. }
  destruct Hfields as [Ht He].
  rewrite Ht, He, Hd in Hinfer. unfold infer_title_before in Hinfer.
  replace (exp =? 40) with false in Hinfer by (symmetry; apply Z.eqb_neq; lia).
  replace (exp =? 999) with false in Hinfer by (symmetry; apply Z.eqb_neq; lia).
  replace (exp - expDiff >=? 0) with false in Hinfer
    by (symmetry; rewrite Z.geb_leb; apply Z.leb_gt; lia).
  cbn [andb] in Hinfer. rewrite parseInt_toString in Hinfer.
  inversion Hinfer. auto.
Qed.

Lemma mapCoop_title_one_below_witness :
  (fun body =>
     (StatInkCoopPostBody.title_before body, StatInkCoopPostBody.title_exp_before body))
    <$> value (mapCoop demo_env
                 (demo_coop "REGULAR" [demo_wave 1 10 12; demo_wave 2 12 14; demo_wave 3 14 20]
                    0 10 3)
                 World_initial)
  = Some (Some "4", None).
Proof.
  destruct (mapCoop demo_env
              (demo_coop "REGULAR" [demo_wave 1 10 12; demo_wave 2 12 14; demo_wave 3 14 20]
                 0 10 3)
              World_initial) as [[body|e] w'] eqn:E; [|vm_compute in E; discriminate E].
  unfold value. cbn [fst fmap option_fmap option_map]. f_equal.
  destruct (mapCoop_title_one_below _ _ _ _ _ {| IdRef.id := "CoopGrade-5" |} 10 20 E)
    as [-> ->]; try reflexivity.
  - rewrite (mapCoop_clear_waves _ _ _ _ _ E). reflexivity.
  - lia.
Defined.

(** ** [parseUdemae] *)

Lemma string_of_uint_all_digits (d : Decimal.uint) :
  all_digits (DecimalString.NilEmpty.string_of_uint d) = true.
Proof.
  unfold all_digits. induction d; [reflexivity | ..];
    cbn [DecimalString.NilEmpty.string_of_uint list_ascii_of_string forallb];
    rewrite IHd; reflexivity.
Qed.

Lemma toString_all_digits (n : Z) :
  0 <= n ->
  all_digits (Js.toString n) = true
  /\ exists c rest, Js.toString n = String c rest.
Proof.
  intros Hn. unfold Js.toString.
  destruct n as [|p|p]; [split; [reflexivity | eexists _, _; reflexivity] | | lia].
  cbn [Z.to_int DecimalString.NilZero.string_of_int].
  pose proof (string_of_uint_first (Pos.to_uint p)) as Hfirst.
  pose proof (string_of_uint_all_digits (Pos.to_uint p)) as Hall.
  unfold DecimalString.NilZero.string_of_uint in *.
  destruct (Pos.to_uint p) eqn:Hp; [discriminate Hall || (cbn in *; auto) | ..];
    (split; [exact Hall | eexists _, _; reflexivity]).
Qed.

Lemma before_digits_app rank digits :
  no_digit rank = true ->
  (match digits with String c _ => Js.is_digit c = true | EmptyString => True end) ->
  before_digits (rank +:+ digits) = rank.
Proof.
  unfold no_digit. intros Hrank Hdigits. induction rank as [|c rest IH].
  - change (EmptyString +:+ digits) with digits.
    destruct digits as [|d ds]; [reflexivity|]. cbn. rewrite Hdigits. reflexivity.
  - change (String c rest +:+ digits) with (String c (rest +:+ digits)).
    cbn [list_ascii_of_string forallb] in Hrank.
    apply andb_true_iff in Hrank as [Hc Hrest]. apply negb_true_iff in Hc.
    cbn [before_digits]. rewrite Hc, (IH Hrest). reflexivity.
Qed.

Lemma first_digits_all digits :
  all_digits digits = true -> first_digits digits = digits.
Proof.
  unfold all_digits. induction digits as [|c rest IH]; [reflexivity|].
  cbn [list_ascii_of_string forallb]. intros H.
  apply andb_true_iff in H as [Hc Hrest]. cbn [first_digits]. rewrite Hc.
  destruct rest as [|d ds]; [reflexivity|].
  pose proof Hrest as Hd. cbn [list_ascii_of_string forallb] in Hd.
  apply andb_true_iff in Hd as [Hd _]. rewrite Hd, (IH Hrest). reflexivity.
Qed.

Lemma first_digits_app rank digits :
  no_digit rank = true ->
  first_digits (rank +:+ digits) = first_digits digits.
Proof.
  unfold no_digit. intros Hrank. induction rank as [|c rest IH].
  - reflexivity.
  - change (String c rest +:+ digits) with (String c (rest +:+ digits)).
    cbn [list_ascii_of_string forallb] in Hrank.
    apply andb_true_iff in Hrank as [Hc Hrest]. apply negb_true_iff in Hc.
    cbn [first_digits]. rewrite Hc. apply IH, Hrest.
Qed.

(** [parseUdemae] splits a rank label into its rank code, in lower case,
    and its number: a code without a digit followed by the decimal of a
    number gives back that code and that number, and a code alone gives
    the code and no number. *)
Theorem parseUdemae_splits rank :
  no_digit rank = true ->
  parseUdemae rank = (Js.toLowerCase rank, None)
  /\ forall n, 0 <= n ->
       parseUdemae (rank +:+ Js.toString n) = (Js.toLowerCase rank, Some n).
Proof.
  intros Hrank. split.
  - unfold parseUdemae.
    pose proof (before_digits_app rank EmptyString Hrank I) as Hb.
    pose proof (first_digits_app rank EmptyString Hrank) as Hf.
    assert (Happ : rank +:+ EmptyString = rank).
    { clear. induction rank as [|c rest IH]; [reflexivity|].
      change (String c rest +:+ EmptyString) with (String c (rest +:+ EmptyString)).
      rewrite IH. reflexivity. }
    rewrite Happ in Hb, Hf. rewrite Hb, Hf. reflexivity.
  - intros n Hn. unfold parseUdemae.
    destruct (toString_all_digits n Hn) as (Hall & c & rest & Hs).
    rewrite first_digits_app, (first_digits_all _ Hall) by exact Hrank.
    rewrite before_digits_app; [|exact Hrank|].
    + rewrite parseInt_toString. rewrite Hs. reflexivity.
    + rewrite Hs in Hall |- *. unfold all_digits in Hall.
      cbn [list_ascii_of_string forallb] in Hall.
      apply andb_true_iff in Hall as [Hc _]. exact Hc.
Qed.

Lemma parseUdemae_splits_witness :
  parseUdemae "S+" = ("s+", None)
  /\ parseUdemae ("S+" +:+ Js.toString 10) = ("s+", Some 10).
Proof.
  destruct (parseUdemae_splits "S+" eq_refl) as [H1 H2].
  split; [exact H1 | apply H2; lia].
Defined.

(** ** The hash of a special weapon's image *)

Lemma append_cons c (s t : string) : String c s +:+ t = String c (s +:+ t).
Proof. reflexivity. Qed.

Lemma append_nil (t : string) : EmptyString +:+ t = t.
Proof. reflexivity. Qed.

Lemma includes_cons needle c hay :
  Js.includes needle hay = true -> Js.includes needle (String c hay) = true.
Proof.
  intros H. cbn [Js.includes]. rewrite H. apply orb_true_r.
Qed.

Lemma prefix_app (needle rest : string) : String.prefix needle (needle +:+ rest) = true.
Proof.
  induction needle as [|c needle IH]; [destruct rest; reflexivity|].
  rewrite append_cons. cbn [String.prefix].
  destruct (ascii_dec c c) as [_|Hne]; [exact IH | contradiction].
Qed.

Lemma includes_app (needle before rest : string) :
  Js.includes needle (before +:+ needle +:+ rest) = true.
Proof.
  induction before as [|c before IH].
  - rewrite append_nil. destruct (needle +:+ rest) eqn:E; cbn [Js.includes];
      rewrite <- E, prefix_app; reflexivity.
  - rewrite append_cons. apply includes_cons, IH.
Qed.

Lemma includes_after (needle before rest : string) :
  Js.includes needle rest = true -> Js.includes needle (before +:+ rest) = true.
Proof.
  intros H. induction before as [|c before IH]; [exact H|].
  rewrite append_cons. apply includes_cons, IH.
Qed.

Lemma match_group_hash (hash ext : string) c :
  hash <> EmptyString ->
  all_word hash = true ->
  Js.is_word_char c = true ->
  match_group (hash +:+ "_0." +:+ String c ext) = Some hash.
Proof.
  unfold all_word. intros Hne Hword Hc.
  induction hash as [|h hash IH]; [contradiction|].
  cbn [list_ascii_of_string forallb] in Hword.
  apply andb_true_iff in Hword as [Hh Hrest].
  rewrite append_cons. cbn [match_group]. rewrite Hh.
  destruct hash as [|h' hash'].
  - rewrite append_nil.
    change ("_0." +:+ String c ext) with (String "_" (String "0" (String "." (String c ext)))).
    cbn [match_group after_group].
    change (Js.is_word_char "_") with true. change (Js.is_word_char "0") with true.
    change (Js.is_word_char ".") with false. cbn iota. rewrite Hc. reflexivity.
  - rewrite IH by (discriminate || exact Hrest). reflexivity.
Qed.

(** A match of the pattern that starts inside a directory needs the suffix
    [_0.] inside that directory. *)
Lemma match_group_dir (dir rest group : string) :
  match_group (dir +:+ String "/" rest) = Some group ->
  Js.includes "_0." dir = true.
Proof.
  revert group. induction dir as [|c dir IH]; intros group.
  - rewrite append_nil. cbn [match_group].
    change (Js.is_word_char "/") with false. discriminate.
  - rewrite append_cons. cbn [match_group].
    destruct (Js.is_word_char c); [|discriminate].
    destruct (match_group (dir +:+ String "/" rest)) as [g|] eqn:E.
    + intros _. apply includes_cons, (IH g). reflexivity.
    + destruct (after_group (dir +:+ String "/" rest)) eqn:A; [|discriminate].
      intros _. apply includes_cons.
      destruct dir as [|a [|b [|d dir']]];
        rewrite ?append_cons, ?append_nil in A; cbn [after_group] in A.
      * discriminate A.
      * destruct a as [[] [] [] [] [] [] [] []]; discriminate A.
      * destruct a as [[] [] [] [] [] [] [] []]; try discriminate A;
          destruct b as [[] [] [] [] [] [] [] []]; discriminate A.
      * destruct a as [[] [] [] [] [] [] [] []]; try discriminate A;
          destruct b as [[] [] [] [] [] [] [] []]; try discriminate A;
          destruct d as [[] [] [] [] [] [] [] []]; try discriminate A.
        exact (includes_app "_0." EmptyString dir').
Qed.

Lemma exec_group_dir (dir tail : string) :
  Js.includes "_0." dir = false ->
  exec_group (dir +:+ String "/" tail)
  = match match_group tail with
    | Some group => Some group
    | None => exec_group tail
    end.
Proof.
  induction dir as [|c dir IH]; intros Hdir.
  - rewrite append_nil. reflexivity.
  - rewrite append_cons. cbn [exec_group].
    assert (Hrest : Js.includes "_0." dir = false).
    { destruct (Js.includes "_0." dir) eqn:E; [|reflexivity].
      rewrite (includes_cons _ c _ E) in Hdir. discriminate Hdir. }
    destruct (Ascii.eqb c "/"); [|apply IH, Hrest].
    destruct (match_group (dir +:+ String "/" tail)) as [g|] eqn:E; [|apply IH, Hrest].
    apply match_group_dir in E. rewrite E in Hrest. discriminate Hrest.
Qed.

Lemma exec_group_special_image_name dir hash c ext :
  Js.includes "_0." dir = false ->
  hash <> EmptyString ->
  all_word hash = true ->
  Js.is_word_char c = true ->
  exec_group (special_image_name dir hash (String c ext)) = Some hash.
Proof.
  intros Hdir Hne Hword Hc. unfold special_image_name.
  change (dir +:+ "/" +:+ hash +:+ "_0." +:+ String c ext)
    with (dir +:+ String "/" (hash +:+ "_0." +:+ String c ext)).
  rewrite exec_group_dir, match_group_hash by assumption. reflexivity.
Qed.

(** [mapSpecial] looks a special weapon up under the file name of its image:
    for an address that ends in a slash, a name of word characters, [_0.]
    and an extension, in a directory without [_0.], the special is the
    table's entry for that name, whether the address is a string or an
    object with a path name; and the image of the random special, when
    the table does not have it, gives no special and no error. *)
Theorem mapSpecial_hash env name dir hash c ext :
  Js.includes "_0." dir = false ->
  hash <> EmptyString ->
  all_word hash = true ->
  Js.is_word_char c = true ->
  let imageName := special_image_name dir hash (String c ext) in
  (forall special,
      Env.COOP_SPECIAL_MAP env hash = Some special ->
      special <> EmptyString ->
      mapSpecial env (special_of name (UrlString imageName)) = Ok (Some special)
      /\ mapSpecial env (special_of name (UrlObject imageName)) = Ok (Some special))
  /\ (when_truthy (Env.COOP_SPECIAL_MAP env hash) = None ->
      hash = RANDOM_FILENAME ->
      mapSpecial env (special_of name (UrlString imageName)) = Ok None
      /\ mapSpecial env (special_of name (UrlObject imageName)) = Ok None)
  /\ (when_truthy (Env.COOP_SPECIAL_MAP env hash) = None ->
      Js.includes RANDOM_FILENAME imageName = false ->
      mapSpecial env (special_of name (UrlString imageName))
      = Throw (ThrowError ("Special not found: " +:+ name +:+ " (" +:+ imageName +:+ ")"))).
Proof.
  intros Hdir Hne Hword Hc imageName.
  pose proof (exec_group_special_image_name dir hash c ext Hdir Hne Hword Hc) as Hexec.
  fold imageName in Hexec.
  split; [|split].
  - intros special Hs Hspecial.
    unfold mapSpecial, special_of. cbn [CoopSpecial.image CoopSpecial.name Image.url].
    rewrite Hexec. cbn [default id]. rewrite Hs. unfold when_truthy.
    destruct special; [contradiction|]. split; reflexivity.
  - intros Hnone ->.
    unfold mapSpecial, special_of, isRandom.
    cbn [CoopSpecial.image CoopSpecial.name Image.url mbind option_bind].
    rewrite Hexec. cbn [default id]. rewrite Hnone.
    assert (Hinc : Js.includes RANDOM_FILENAME imageName = true).
    { subst imageName. unfold special_image_name.
      apply includes_after. rewrite append_cons. apply includes_cons.
      rewrite append_nil. exact (includes_app RANDOM_FILENAME EmptyString _). }
    rewrite Hinc. split; reflexivity.
  - intros Hnone Hinc.
    unfold mapSpecial, special_of, isRandom.
    cbn [CoopSpecial.image CoopSpecial.name Image.url mbind option_bind].
    rewrite Hexec. cbn [default id]. rewrite Hnone, Hinc. reflexivity.
Qed.

Lemma mapSpecial_hash_witness :
  mapSpecial demo_env
    (special_of "Booyah Bomb"
       (UrlString
          (special_image_name
             "https://api.lp1.av5ja.srv.nintendo.net/resources/prod/special_img/blue"
             demo_special_hash "png")))
  = Ok (Some "nicedama").
Proof.
  refine (proj1 (proj1 (mapSpecial_hash demo_env "Booyah Bomb"
                          "https://api.lp1.av5ja.srv.nintendo.net/resources/prod/special_img/blue"
                          demo_special_hash "p" "ng" _ _ _ _) "nicedama" _ _));
    try reflexivity; discriminate.
Defined.

(** ** The names of the salmon weapon map *)

Lemma replaceAll_go_absent pat rep s :
  Js.includes pat s = false -> Js.replaceAll_go pat rep O s = s.
Proof.
  induction s as [|c rest IH]; [reflexivity|].
  cbn [Js.includes Js.replaceAll_go]. intros H.
  apply orb_false_iff in H as [Hprefix Hrest].
  rewrite Hprefix, (IH Hrest). reflexivity.
Qed.

Lemma splatnet_spelling_absent name :
  Js.includes STAT_INK_DOT name = false -> splatnet_spelling name = name.
Proof. apply replaceAll_go_absent. Qed.

Lemma produces_display weapon n :
  In n (Object_values (CatalogEntry.name weapon)) ->
  produces n weapon = true /\ produces (splatnet_spelling n) weapon = true.
Proof.
  intros Hin. unfold produces, weapon_names. rewrite !Array_includes_In, !in_flat_map.
  split; exists n; (split; [exact Hin|]); unfold _getAliasName.
  - destruct (Js.includes STAT_INK_DOT n); left; reflexivity.
  - destruct (Js.includes STAT_INK_DOT n) eqn:E.
    + right. left. reflexivity.
    + left. symmetry. apply splatnet_spelling_absent, E.
Qed.

Lemma last_key_Some name weapons k :
  last_key name weapons = Some k ->
  exists weapon,
    In weapon weapons /\ produces name weapon = true /\ CatalogEntry.key weapon = k.
Proof.
  unfold last_key. destruct (find (produces name) (rev weapons)) as [weapon|] eqn:E;
    [|discriminate].
  intros H. inversion H. apply find_some in E as [Hin Hp].
  exists weapon. rewrite in_rev. auto.
Qed.

Lemma last_key_produced name weapons weapon :
  In weapon weapons -> produces name weapon = true ->
  exists weapon',
    In weapon' weapons /\ produces name weapon' = true
    /\ last_key name weapons = Some (CatalogEntry.key weapon').
Proof.
  intros Hin Hp. unfold last_key.
  destruct (find (produces name) (rev weapons)) as [weapon'|] eqn:E.
  - apply find_some in E as [Hin' Hp']. exists weapon'. rewrite in_rev. auto.
  - rewrite (find_none _ _ E weapon) in Hp; [discriminate Hp|]. rewrite <- in_rev. exact Hin.
Qed.

Lemma entries_In name k weapons :
  In (name, k) (entries weapons) ->
  exists weapon,
    In weapon weapons /\ produces name weapon = true /\ CatalogEntry.key weapon = k.
Proof.
  unfold entries. rewrite in_flat_map. intros (weapon & Hin & Hpair).
  apply in_map_iff in Hpair as (n & Heq & Hn). inversion Heq; subst.
  exists weapon. unfold produces. rewrite Array_includes_In. auto.
Qed.

Lemma fold_step_entry_console all es : forall w,
  (forall e, In e es -> In e all) ->
  (forall name prev, World._salmonWeaponMap w !! name = Some prev -> In (name, prev) all) ->
  forall line,
    In line (World.console (fold_left step_entry es w)) ->
    In line (World.console w)
    \/ exists name k1 k2,
         line = duplicate_warning name
         /\ In (name, k1) all /\ In (name, k2) all /\ k1 <> k2.
Proof.
  induction es as [|[n k] rest IH]; intros w Hes Hmap line Hline; [left; exact Hline|].
  cbn [fold_left] in Hline. apply IH in Hline.
  - destruct Hline as [Hline | Hline]; [|right; exact Hline].
    rewrite step_entry_console in Hline. cbn [fst snd] in Hline.
    apply in_app_or in Hline as [Hline | Hline]; [left; exact Hline|].
    destruct (World._salmonWeaponMap w !! n) as [prev|] eqn:Hprev; [|destruct Hline].
    destruct (String.eqb prev k) eqn:Ek; [destruct Hline|].
    destruct Hline as [<- | []]. right. exists n, prev, k.
    split; [reflexivity|]. split; [apply Hmap, Hprev|].
    split; [apply Hes; left; reflexivity|]. apply String.eqb_neq, Ek.
  - intros e He. apply Hes. right. exact He.
  - intros name prev. rewrite step_entry_lookup. cbn [fst snd].
    destruct (String.eqb n name) eqn:E.
    + apply String.eqb_eq in E. subst. intros H. inversion H; subst.
      apply Hes. left. reflexivity.
    + apply Hmap.
Qed.

Lemma getSalmonWeaponMap_lookup env w weapons w1 name :
  World._salmonWeaponMap w = ∅ ->
  getSalmonWeapon env w = (Ok weapons, w1) ->
  World._salmonWeaponMap (snd (getSalmonWeaponMap env w)) !! name = last_key name weapons.
Proof.
  intros Hempty Hget.
  rewrite (getSalmonWeaponMap_run _ _ _ _ Hempty Hget). cbn [snd].
  destruct (_getCached_frame _ _ _ _ _ Hget) as (Hmap & _ & _).
  rewrite fold_step_entry_lookup, last_entry_entries.
  destruct (last_key name weapons); [reflexivity|].
  rewrite Hmap, Hempty. apply lookup_empty.
Qed.

(** When the salmon weapon map is built, every display name of every
    fetched weapon, in stat.ink's spelling and in SplatNet's, is a name of
    the map and stands for a weapon that has that name, for that very
    weapon when no other key claims the name; the map has no other names;
    and every warning the build prints is for a name that two different
    keys claim. *)
Theorem getSalmonWeaponMap_names env w weapons w1 :
  World._salmonWeaponMap w = ∅ ->
  getSalmonWeapon env w = (Ok weapons, w1) ->
  let w2 := snd (getSalmonWeaponMap env w) in
  (forall weapon n name,
      In weapon weapons ->
      In n (Object_values (CatalogEntry.name weapon)) ->
      name = n \/ name = splatnet_spelling n ->
      (exists weapon',
          In weapon' weapons /\ produces name weapon' = true
          /\ World._salmonWeaponMap w2 !! name = Some (CatalogEntry.key weapon'))
      /\ (~ clash name weapons ->
          World._salmonWeaponMap w2 !! name = Some (CatalogEntry.key weapon)))
  /\ (forall name key,
      World._salmonWeaponMap w2 !! name = Some key ->
      exists weapon,
        In weapon weapons /\ produces name weapon = true /\ CatalogEntry.key weapon = key)
  /\ (forall line,
      In line (World.console w2) ->
      In line (World.console w)
      \/ exists name, line = duplicate_warning name /\ clash name weapons).
Proof.
  intros Hempty Hget w2.
  assert (Hlookup : forall name,
             World._salmonWeaponMap w2 !! name = last_key name weapons).
  { intros name. apply (getSalmonWeaponMap_lookup _ _ _ _ _ Hempty Hget). }
  split; [|split].
  - intros weapon n name Hin Hn Hname.
    assert (Hp : produces name weapon = true).
    { destruct (produces_display weapon n Hn) as [H1 H2].
      destruct Hname as [-> | ->]; assumption. }
    destruct (last_key_produced name weapons weapon Hin Hp) as (weapon' & Hin' & Hp' & Hk).
    split.
    + exists weapon'. rewrite Hlookup. auto.
    + intros Hclash. rewrite Hlookup, Hk. f_equal.
      destruct (String.eqb_spec (CatalogEntry.key weapon') (CatalogEntry.key weapon))
        as [E | E]; [exact E|].
      exfalso. apply Hclash. exists weapon', weapon. auto 6.
  - intros name key. rewrite Hlookup. apply last_key_Some.
  - intros line. subst w2.
    rewrite (getSalmonWeaponMap_run _ _ _ _ Hempty Hget). cbn [snd].
    destruct (_getCached_frame _ _ _ _ _ Hget) as (Hmap & Hconsole & _).
    intros Hline.
    apply (fold_step_entry_console (entries weapons)) in Hline.
    + rewrite Hconsole in Hline. destruct Hline as [Hline | Hline]; [left; exact Hline|].
      right. destruct Hline as (name & k1 & k2 & -> & H1 & H2 & Hne).
      exists name. split; [reflexivity|].
      apply entries_In in H1 as (weapon1 & Hin1 & Hp1 & <-).
      apply entries_In in H2 as (weapon2 & Hin2 & Hp2 & <-).
      exists weapon1, weapon2. auto 6.
    + auto.
    + intros name prev. rewrite Hmap, Hempty, lookup_empty. discriminate.
Qed.

Lemma getSalmonWeaponMap_names_witness :
  World._salmonWeaponMap (snd (getSalmonWeaponMap demo_env World_initial))
    !! splatnet_spelling "14式竹筒槍·甲"
  = Some "bamboo14mk1".
Proof.
  refine (proj2 (proj1 (getSalmonWeaponMap_names demo_env World_initial
                          demo_salmon_weapons
                          (snd (getSalmonWeapon demo_env World_initial))
                          eq_refl eq_refl)
                   {| CatalogEntry.key := "bamboo14mk1";
                      CatalogEntry.name :=
                        [("en_US", "Bamboozler 14 Mk I"); ("zh_TW", "14式竹筒槍·甲")];
                      CatalogEntry.aliases := [] |}
                   "14式竹筒槍·甲" _ _ _ _) _).
  - right. left. reflexivity.
  - right. left. reflexivity.
  - right. reflexivity.
  - intros (a & b & [<- | [<- | []]] & [<- | [<- | []]] & Ha & Hb & Hne);
      try (apply Hne; reflexivity); vm_compute in Ha, Hb; discriminate.
Defined.

(** ** What holds of the mapping whenever it holds of its steps *)

Section Mapping.

Variable env : Env.t.
Variable P : forall A : Type, M A -> Prop.
Hypothesis P_ret : forall A (a : A), P A (ret a).
Hypothesis P_throw : forall A (e : Exn), P A (throw e).
Hypothesis P_bind :
  forall A B (m : M A) (k : A -> M B), P A m -> (forall a, P B (k a)) -> P B (bind m k).
Hypothesis P_stage : P _ (getStage env).
Hypothesis P_ability : P _ (getAbility env).
Hypothesis P_salmon : P _ (getSalmonWeaponMap env).

Lemma mapping_lift A (r : Result A) : P A (lift r).
Proof. destruct r; [apply P_ret | apply P_throw]. Qed.

Lemma mapping_mapM A B (f : A -> M B) (l : list A) :
  (forall x, P B (f x)) -> P _ (mapM f l).
Proof.
  intros Hf. induction l as [|x rest IH]; cbn [mapM].
  - apply P_ret.
  - apply P_bind; [apply Hf|]. intros y.
    apply P_bind; [exact IH|]. intros ys. apply P_ret.
Qed.

Lemma mapping_mapM_index A B (f : A -> Z -> M B) (l : list A) :
  (forall x i, P B (f x i)) -> forall index, P _ (mapM_index f index l).
Proof.
  intros Hf. induction l as [|x rest IH]; intros index; cbn [mapM_index].
  - apply P_ret.
  - apply P_bind; [apply Hf|]. intros y.
    apply P_bind; [apply IH|]. intros ys. apply P_ret.
Qed.

Lemma mapping_mapStage vsDetail : P _ (mapStage env vsDetail).
Proof.
  unfold mapStage. apply P_bind; [apply P_stage|].
  intros stage. destruct (find_stage _ stage); [apply P_ret | apply P_throw].
Qed.

Lemma mapping_mapPlayer player index : P _ (mapPlayer env player index).
Proof.
  unfold mapPlayer, mapGears.
  apply P_bind; [|intros gears; apply P_ret].
  apply P_bind; [apply P_ability|]. intros amap.
  apply P_bind; [apply mapping_lift|]. intros headgear.
  apply P_bind; [apply mapping_lift|]. intros clothing.
  apply P_bind; [apply mapping_lift|]. intros shoes.
  apply P_ret.
Qed.

Lemma mapping_mapBattle vs : P _ (mapBattle env vs).
Proof.
  unfold mapBattle.
  destruct (find VsPlayer.isMyself _); [|apply P_throw].
  destruct (VsHistoryDetail.otherTeams (VsInfo.detail vs)) as [|theirTeam moreTeams];
    [apply P_throw|].
  apply P_bind; [apply mapping_lift|]. intros lobby.
  apply P_bind; [apply mapping_mapStage|]. intros stage.
  apply P_bind; [apply mapping_mapM_index, mapping_mapPlayer|]. intros ours.
  apply P_bind; [apply mapping_mapM_index, mapping_mapPlayer|]. intros theirs.
  apply P_bind; [|intros third; apply P_ret].
  destruct moreTeams as [|third [|fourth more]]; try apply P_ret.
  destruct (String.eqb _ "TURF_WAR" || String.eqb _ "TRI_COLOR"); [|apply P_ret].
  apply P_bind; [apply mapping_mapM_index, mapping_mapPlayer|].
  intros ps. apply P_ret.
Qed.

Lemma mapping_mapCoopWeapon weapon : P _ (mapCoopWeapon env weapon).
Proof.
  unfold mapCoopWeapon. apply P_bind; [apply P_salmon|]. intros weaponMap.
  destruct (when_truthy _); [apply P_ret|].
  destruct (isRandom _); [apply P_ret | apply P_throw].
Qed.

Lemma mapping_mapCoopPlayer isMyself p : P _ (mapCoopPlayer env isMyself p).
Proof.
  unfold mapCoopPlayer.
  apply P_bind.
  - destruct (CoopHistoryPlayerResult.specialWeapon p);
      [apply mapping_lift | apply P_ret].
  - intros special. apply P_bind; [|intros weapons; apply P_ret].
    apply mapping_mapM, mapping_mapCoopWeapon.
Qed.

Lemma mapping_mapWave wave : P _ (mapWave env wave).
Proof.
  unfold mapWave. apply P_bind; [|intros specials; apply P_ret].
  apply mapping_mapM. intros special. apply mapping_lift.
Qed.

Lemma mapping_mapCoop coop : P _ (mapCoop env coop).
Proof.
  unfold mapCoop.
  apply P_bind; [apply mapping_mapM, mapping_mapWave|]. intros waves.
  apply P_bind; [|intros players; apply P_ret].
  apply mapping_mapM. intros [isMyself p]. apply mapping_mapCoopPlayer.
Qed.

End Mapping.


(** ** Mapping a session again *)

Lemma extends_refl w : extends w w.
Proof. split; auto. Qed.

Lemma extends_trans w1 w2 w3 : extends w1 w2 -> extends w2 w3 -> extends w1 w3.
Proof.
  intros [Hc12 Hm12] [Hc23 Hm23]. split.
  - intros url json H. apply Hc23, Hc12, H.
  - intros Hne. rewrite <- (Hm12 Hne). apply Hm23. rewrite (Hm12 Hne). exact Hne.
Qed.

Lemma replayable_ret {A} (a : A) : replayable (ret a).
Proof.
  split.
  - intros w r w' H. inversion H. apply extends_refl.
  - intros w b w' w'' H _. inversion H. reflexivity.
Qed.

Lemma replayable_throw {A} (e : Exn) : replayable (@throw A e).
Proof.
  split.
  - intros w r w' H. inversion H. apply extends_refl.
  - intros w b w' w'' H _. inversion H.
Qed.

Lemma replayable_bind {A B} (m : M A) (k : A -> M B) :
  replayable m -> (forall a, replayable (k a)) -> replayable (bind m k).
Proof.
  intros [Hm1 Hm2] Hk. split.
  - intros w r w' H. unfold bind in H.
    destruct (m w) as [[a|e] w1] eqn:E.
    + apply (extends_trans _ w1); [apply (Hm1 _ _ _ E) | apply (proj1 (Hk a) _ _ _ H)].
    + inversion H; subst. apply (Hm1 _ _ _ E).
  - intros w b w' w'' H Hext. unfold bind in H |- *.
    destruct (m w) as [[a|e] w1] eqn:E; [|inversion H].
    pose proof (proj1 (Hk a) _ _ _ H) as H1.
    rewrite (Hm2 _ _ _ w'' E (extends_trans _ _ _ H1 Hext)).
    apply (proj2 (Hk a) _ _ _ _ H Hext).
Qed.

Lemma _getCached_hit env url w json :
  World.cache w !! url = Some json -> _getCached env url w = (Ok json, w).
Proof.
  intros H. unfold _getCached, get_world, bind. rewrite H. reflexivity.
Qed.

Lemma _getCached_cached env url w json w' :
  _getCached env url w = (Ok json, w') -> World.cache w' !! url = Some json.
Proof.
  unfold _getCached, get_world, bind.
  destruct (World.cache w !! url) as [cached|] eqn:Hc.
  - intros H. inversion H; subst. exact Hc.
  - unfold fetch_get_catalog, checkResponse, Response_json, modify, ret, throw.
    destruct (Env.get_catalog env (World.requests w) url (requestHeaders env))
      as [status [j|]]; cbn;
      destruct (status / 100 =? 2); cbn; intros H; inversion H; subst; cbn.
    apply lookup_insert_eq.
Qed.

Lemma _getCached_cache env url w r w' :
  _getCached env url w = (r, w') ->
  forall url' json, World.cache w !! url' = Some json -> World.cache w' !! url' = Some json.
Proof.
  unfold _getCached, get_world, bind.
  destruct (World.cache w !! url) as [cached|] eqn:Hc.
  - intros H. inversion H; subst. auto.
  - unfold fetch_get_catalog, checkResponse, Response_json, modify, ret, throw.
    destruct (Env.get_catalog env (World.requests w) url (requestHeaders env))
      as [status [j|]]; cbn;
      destruct (status / 100 =? 2); cbn; intros H; inversion H; subst; cbn; auto.
    intros url' json Hl. rewrite lookup_insert_ne; [exact Hl|].
    intros ->. rewrite Hc in Hl. discriminate Hl.
Qed.

Lemma replayable_getCached env url : replayable (_getCached env url).
Proof.
  split.
  - intros w r w' H. split.
    + apply (_getCached_cache _ _ _ _ _ H).
    + intros _. apply (_getCached_frame _ _ _ _ _ H).
  - intros w json w' w'' H [Hcache _].
    apply _getCached_hit, Hcache, (_getCached_cached _ _ _ _ _ H).
Qed.

Lemma fold_step_entry_cache es : forall w,
  World.cache (fold_left step_entry es w) = World.cache w.
Proof.
  induction es as [|[n k] rest IH]; intros w; cbn [fold_left]; [reflexivity|].
  rewrite IH. unfold step_entry, salmonWeaponMap_step. cbn.
  destruct (World._salmonWeaponMap w !! n) as [prev|]; [|reflexivity].
  destruct (negb (String.eqb prev k)); reflexivity.
Qed.

Lemma size_eqb_0 (m : gmap string string) : (size m =? 0)%nat = true <-> m = ∅.
Proof. rewrite Nat.eqb_eq. apply map_size_empty_iff. Qed.

Lemma getSalmonWeaponMap_built env w :
  World._salmonWeaponMap w <> ∅ ->
  getSalmonWeaponMap env w = (Ok (World._salmonWeaponMap w), w).
Proof.
  intros Hne. unfold getSalmonWeaponMap, get_world, bind at 1.
  destruct (size (World._salmonWeaponMap w) =? 0)%nat eqn:E; [|reflexivity].
  apply size_eqb_0 in E. contradiction.
Qed.

Lemma replayable_getSalmonWeaponMap env : replayable (getSalmonWeaponMap env).
Proof.
  split.
  - intros w r w' H.
    destruct (size (World._salmonWeaponMap w) =? 0)%nat eqn:Hsize.
    + apply size_eqb_0 in Hsize.
      split; [|intros Hne; contradiction].
      unfold getSalmonWeaponMap, get_world, bind at 1 in H.
      rewrite Hsize, map_size_empty in H. cbn [Nat.eqb] in H.
      unfold bind at 1 in H.
      destruct (getSalmonWeapon env w) as [[weapons|e] w1] eqn:E.
      * unfold bind in H. rewrite salmon_loops_run in H. cbn zeta in H.
        intros url json Hl. apply (_getCached_cache _ _ _ _ _ E) in Hl.
        destruct (size (World._salmonWeaponMap (fold_left step_entry (entries weapons) w1))
                  =? 0)%nat; inversion H; subst; rewrite fold_step_entry_cache; exact Hl.
      * inversion H; subst. apply (_getCached_cache _ _ _ _ _ E).
    + assert (Hne : World._salmonWeaponMap w <> ∅).
      { intros Hempty. apply size_eqb_0 in Hempty. congruence. }
      rewrite (getSalmonWeaponMap_built _ _ Hne) in H. inversion H. apply extends_refl.
  - intros w m w' w'' H [_ Hmap].
    assert (Hbuilt : World._salmonWeaponMap w' <> ∅ /\ m = World._salmonWeaponMap w').
    { destruct (size (World._salmonWeaponMap w) =? 0)%nat eqn:Hsize.
      - unfold getSalmonWeaponMap, get_world, bind at 1 in H.
        rewrite Hsize in H. unfold bind at 1 in H.
        destruct (getSalmonWeapon env w) as [[weapons|e] w1] eqn:E; [|inversion H].
        unfold bind in H. rewrite salmon_loops_run in H. cbn zeta in H.
        destruct (size (World._salmonWeaponMap (fold_left step_entry (entries weapons) w1))
                  =? 0)%nat eqn:Hsize'; inversion H; subst.
        split; [|reflexivity]. intros Hempty. apply size_eqb_0 in Hempty. congruence.
      - assert (Hne : World._salmonWeaponMap w <> ∅).
        { intros Hempty. apply size_eqb_0 in Hempty. congruence. }
        rewrite (getSalmonWeaponMap_built _ _ Hne) in H. inversion H; subst. auto. }
    destruct Hbuilt as [Hne ->]. rewrite <- (Hmap Hne).
    apply getSalmonWeaponMap_built. rewrite (Hmap Hne). exact Hne.
Qed.

Lemma replayable_mapBattle env vs : replayable (mapBattle env vs).
Proof.
  apply (mapping_mapBattle env (fun A => @replayable A)).
  - intros A a. apply replayable_ret.
  - intros A e. apply replayable_throw.
  - intros A B m k. apply replayable_bind.
  - apply replayable_getCached.
  - apply replayable_getCached.
Qed.

Lemma replayable_mapCoop env coop : replayable (mapCoop env coop).
Proof.
  apply (mapping_mapCoop env (fun A => @replayable A)).
  - intros A a. apply replayable_ret.
  - intros A e. apply replayable_throw.
  - intros A B m k. apply replayable_bind.
  - apply replayable_getSalmonWeaponMap.
Qed.

(** A battle that was mapped is mapped again to the same body from what
    the first run cached: in the state the first run left, or in any state
    that knows as much, [mapBattle] returns the same body, sends no request
    and changes nothing. *)
Theorem mapBattle_replay env vs w body w' w'' :
  mapBattle env vs w = (Ok body, w') ->
  extends w' w'' ->
  mapBattle env vs w'' = (Ok body, w'').
Proof. apply (proj2 (replayable_mapBattle env vs)). Qed.

Lemma mapBattle_replay_witness :
  length (World.requests (snd (mapBattle demo_env (demo_vs "VsStage-1") World_initial)))
  = 2%nat
  /\ mapBattle demo_env (demo_vs "VsStage-1")
       (snd (mapBattle demo_env (demo_vs "VsStage-1") World_initial))
     = mapBattle demo_env (demo_vs "VsStage-1") World_initial.
Proof.
  split; [reflexivity|].
  destruct (mapBattle demo_env (demo_vs "VsStage-1") World_initial) as [[body|e] w1] eqn:E;
    [|vm_compute in E; discriminate E].
  cbn [snd]. apply (mapBattle_replay _ _ _ _ _ _ E), extends_refl.
Defined.

(** A coop session that was mapped is mapped again to the same body from
    what the first run cached and from the salmon weapon map it built:
    [mapCoop] returns the same body, sends no request and changes nothing. *)
Theorem mapCoop_replay env coop w body w' w'' :
  mapCoop env coop w = (Ok body, w') ->
  extends w' w'' ->
  mapCoop env coop w'' = (Ok body, w'').
Proof. apply (proj2 (replayable_mapCoop env coop)). Qed.

Lemma mapCoop_replay_witness :
  length (World.requests
            (snd (mapCoop demo_env
                    (demo_coop "REGULAR" [demo_wave 1 10 12; demo_wave 2 12 5] 2 60 3)
                    World_initial)))
  = 1%nat
  /\ mapCoop demo_env (demo_coop "REGULAR" [demo_wave 1 10 12; demo_wave 2 12 5] 2 60 3)
       (snd (mapCoop demo_env
               (demo_coop "REGULAR" [demo_wave 1 10 12; demo_wave 2 12 5] 2 60 3)
               World_initial))
     = mapCoop demo_env (demo_coop "REGULAR" [demo_wave 1 10 12; demo_wave 2 12 5] 2 60 3)
         World_initial.
Proof.
  split; [reflexivity|].
  destruct (mapCoop demo_env
              (demo_coop "REGULAR" [demo_wave 1 10 12; demo_wave 2 12 5] 2 60 3)
              World_initial) as [[body|e] w1] eqn:E;
    [|vm_compute in E; discriminate E].
  cbn [snd]. apply (mapCoop_replay _ _ _ _ _ _ E), extends_refl.
Defined.

(** ** The player's entry among the players of a mapped battle *)

Lemma mapM_index_lookup {A B} (f : A -> Z -> M B) (l : list A) :
  forall index w ys w',
    mapM_index f index l w = (Ok ys, w') ->
    length ys = length l
    /\ forall n x, l !! n = Some x ->
         exists y w1 w2, ys !! n = Some y /\ f x (index + Z.of_nat n) w1 = (Ok y, w2).
Proof.
  induction l as [|x rest IH]; intros index w ys w' H; cbn [mapM_index] in H.
  - inversion H. split; [reflexivity|]. intros n x Hn. destruct n; discriminate Hn.
  - apply bind_Ok in H as (y & w1 & Hy & H).
    apply bind_Ok in H as (ys' & w2 & Hrest & H).
    inversion H; subst. destruct (IH _ _ _ _ Hrest) as [Hlen Hall].
    split; [cbn; f_equal; exact Hlen|].
    intros [|n] x' Hn; cbn in Hn.
    + inversion Hn; subst. exists y, w, w1. split; [reflexivity|].
      replace (index + Z.of_nat 0) with index by lia. exact Hy.
    + destruct (Hall n x' Hn) as (y' & wa & wb & Hy' & Hf).
      exists y', wa, wb. split; [exact Hy'|].
      replace (index + Z.of_nat (S n)) with (index + 1 + Z.of_nat n) by lia. exact Hf.
Qed.

Lemma find_findIndex {A} (p : A -> bool) (l : list A) :
  forall index self,
    find p l = Some self ->
    exists n,
      l !! n = Some self
      /\ findIndex p index l = index + Z.of_nat n
      /\ p self = true
      /\ forall m x, (m < n)%nat -> l !! m = Some x -> p x = false.
Proof.
  induction l as [|x rest IH]; intros index self H; cbn [find] in H; [discriminate H|].
  cbn [findIndex]. destruct (p x) eqn:Hp.
  - inversion H; subst. exists O. split; [reflexivity|]. split; [lia|].
    split; [exact Hp|]. intros m y Hm. lia.
  - destruct (IH (index + 1) self H) as (n & Hn & Hi & Hs & Hbefore).
    exists (S n). split; [exact Hn|]. split; [lia|]. split; [exact Hs|].
    intros [|m] y Hm Hy; cbn in Hy.
    + inversion Hy; subst. exact Hp.
    + apply (Hbefore m); [lia | exact Hy].
Qed.

Lemma mapPlayer_Ok env player index w p w' :
  mapPlayer env player index w = (Ok p, w') ->
  StatInkPlayer.me p = yes_no (VsPlayer.isMyself player)
  /\ StatInkPlayer.rank_in_team p = index + 1
  /\ StatInkPlayer.weapon p
     = Js.toString (Env.b64Number env (IdRef.id (VsPlayer.weapon player)))
  /\ StatInkPlayer.inked p = VsPlayer.paint player
  /\ StatInkPlayer.kill_or_assist p = VsPlayerResult.kill <$> VsPlayer.result player
  /\ StatInkPlayer.assist p = VsPlayerResult.assist <$> VsPlayer.result player
  /\ StatInkPlayer.kill p
     = (fun r => VsPlayerResult.kill r - VsPlayerResult.assist r) <$> VsPlayer.result player
  /\ StatInkPlayer.death p = VsPlayerResult.death <$> VsPlayer.result player
  /\ StatInkPlayer.signal p = VsPlayer.result player ≫= VsPlayerResult.noroshiTry
  /\ StatInkPlayer.special p = VsPlayerResult.special <$> VsPlayer.result player.
Proof.
  unfold mapPlayer. intros H. apply bind_Ok in H as (gears & w1 & _ & H).
  inversion H; subst. cbn. repeat split; reflexivity.
Qed.

(** The entry of the player in a mapped battle: [rank_in_team] of the body
    points, among [our_team_players], at the first entry marked [me], and
    that entry has the rank, the weapon, the inked area and the kill,
    assist, death, signal and special counts of the body itself. *)
Theorem mapBattle_me env vs w body w' :
  mapBattle env vs w = (Ok body, w') ->
  1 <= StatInkPostBody.rank_in_team body
    <= Z.of_nat (length (StatInkPostBody.our_team_players body))
  /\ (exists p,
        StatInkPostBody.our_team_players body
          !! Z.to_nat (StatInkPostBody.rank_in_team body - 1) = Some p
        /\ StatInkPlayer.me p = "yes"
        /\ StatInkPlayer.rank_in_team p = StatInkPostBody.rank_in_team body
        /\ StatInkPlayer.weapon p = StatInkPostBody.weapon body
        /\ StatInkPlayer.inked p = StatInkPostBody.inked body
        /\ StatInkPlayer.kill_or_assist p = StatInkPostBody.kill_or_assist body
        /\ StatInkPlayer.assist p = StatInkPostBody.assist body
        /\ StatInkPlayer.kill p = StatInkPostBody.kill body
        /\ StatInkPlayer.death p = StatInkPostBody.death body
        /\ StatInkPlayer.signal p = StatInkPostBody.signal body
        /\ StatInkPlayer.special p = StatInkPostBody.special body)
  /\ (forall n q,
        Z.of_nat n < StatInkPostBody.rank_in_team body - 1 ->
        StatInkPostBody.our_team_players body !! n = Some q ->
        StatInkPlayer.me q = "no")
  /\ (forall n q,
        StatInkPostBody.our_team_players body !! n = Some q ->
        StatInkPlayer.rank_in_team q = Z.of_nat n + 1).
Proof.
  unfold mapBattle. intros H.
  destruct (find VsPlayer.isMyself _) as [self|] eqn:Hself; [|discriminate H].
  destruct (VsHistoryDetail.otherTeams (VsInfo.detail vs)) as [|theirTeam moreTeams];
    [discriminate H|].
  apply bind_Ok in H as (lobby & w1 & _ & H).
  apply bind_Ok in H as (stage & w2 & _ & H).
  apply bind_Ok in H as (ours & w3 & Hours & H).
  apply bind_Ok in H as (theirs & w4 & _ & H).
  apply bind_Ok in H as (third_players & w5 & _ & H).
  inversion H; subst body w'. clear H. cbn.
  destruct (mapM_index_lookup _ _ _ _ _ _ Hours) as [Hlen Hall].
  destruct (find_findIndex _ _ 0 _ Hself) as (n & Hn & Hindex & Hme & Hbefore).
  rewrite Hindex.
  replace (Z.to_nat (0 + Z.of_nat n + 1 - 1)) with n by lia.
  pose proof (lookup_lt_Some _ _ _ Hn) as Hlt.
  split; [rewrite Hlen; lia|]. split; [|split].
  - destruct (Hall n self Hn) as (p & wa & wb & Hp & Hmap).
    apply mapPlayer_Ok in Hmap
      as (H1 & H2 & H3 & H4 & H5 & H6 & H7 & H8 & H9 & H10).
    exists p. rewrite Hme in H1.
    rewrite H1, H2, H3, H4, H5, H6, H7, H8, H9, H10. auto 12.
  - intros m q Hm Hq.
    assert (Hm' : (m < length (VsTeam.players (VsHistoryDetail.myTeam (VsInfo.detail vs))))%nat).
    { rewrite <- Hlen. apply (lookup_lt_Some _ _ _ Hq). }
    apply lookup_lt_is_Some in Hm' as [x Hx].
    destruct (Hall m x Hx) as (q' & wa & wb & Hq' & Hmap).
    rewrite Hq in Hq'. inversion Hq'; subst q'.
    apply mapPlayer_Ok in Hmap as (H1 & _).
    rewrite H1, (Hbefore m x); [reflexivity | lia | exact Hx].
  - intros m q Hq.
    assert (Hm' : (m < length (VsTeam.players (VsHistoryDetail.myTeam (VsInfo.detail vs))))%nat).
    { rewrite <- Hlen. apply (lookup_lt_Some _ _ _ Hq). }
    apply lookup_lt_is_Some in Hm' as [x Hx].
    destruct (Hall m x Hx) as (q' & wa & wb & Hq' & Hmap).
    rewrite Hq in Hq'. inversion Hq'; subst q'.
    apply mapPlayer_Ok in Hmap as (_ & H2 & _). rewrite H2. lia.
Qed.

Lemma mapBattle_me_witness :
  (fun body =>
     StatInkPlayer.rank_in_team <$> StatInkPostBody.our_team_players body !! 1%nat)
    <$> value (mapBattle demo_env (demo_vs "VsStage-1") World_initial)
  = Some (Some 2).
Proof.
  destruct (mapBattle demo_env (demo_vs "VsStage-1") World_initial)
    as [[body|e] w'] eqn:E; [|vm_compute in E; discriminate E].
  unfold value. cbn [fst fmap option_fmap option_map]. f_equal.
  destruct (StatInkPostBody.our_team_players body !! 1%nat) as [q|] eqn:Hq.
  - change (Some (StatInkPlayer.rank_in_team q) = Some 2). f_equal.
    apply (proj2 (proj2 (proj2 (mapBattle_me _ _ _ _ _ E))) 1%nat q Hq).
  - vm_compute in E. inversion E; subst. discriminate Hq.
Defined.

(** ** Totals, players, special uses and bosses of a mapped coop session *)

Lemma fold_left_Zsum {A} (f : A -> Z) (l : list A) (a : Z) :
  fold_left (fun acc x => acc + f x) l a = a + Zsum (map f l).
Proof.
  revert a. induction l as [|x rest IH]; intros a; cbn; [lia|].
  rewrite IH. unfold Zsum. lia.
Qed.

Lemma mapCoopPlayer_fields env isMyself p w r w' :
  mapCoopPlayer env isMyself p w = (Ok r, w') ->
  StatInkCoopPlayer.me r = yes_no isMyself
  /\ StatInkCoopPlayer.power_eggs r = CoopHistoryPlayerResult.deliverCount p
  /\ StatInkCoopPlayer.golden_eggs r = CoopHistoryPlayerResult.goldenDeliverCount p.
Proof.
  unfold mapCoopPlayer. intros H.
  apply bind_Ok in H as (special & w1 & _ & H).
  apply bind_Ok in H as (weapons & w2 & _ & H).
  inversion H; subst. auto.
Qed.

Lemma mapM_mapCoopPlayer env (ps : list (bool * CoopHistoryPlayerResult.t)) w players w' :
  mapM (fun p => mapCoopPlayer env (fst p) (snd p)) ps w = (Ok players, w') ->
  map StatInkCoopPlayer.me players = map (fun p => yes_no (fst p)) ps
  /\ map StatInkCoopPlayer.power_eggs players
     = map (fun p => CoopHistoryPlayerResult.deliverCount (snd p)) ps.
Proof.
  intros H.
  apply (mapM_Forall2 _
           (fun p r =>
              StatInkCoopPlayer.me r = yes_no (fst p)
              /\ StatInkCoopPlayer.power_eggs r
                 = CoopHistoryPlayerResult.deliverCount (snd p))) in H.
  - induction H as [|p r rest rs (Hme & Hp) _ (IHme & IHp)]; cbn; [auto|].
    rewrite Hme, Hp, IHme, IHp. auto.
  - intros p w0 r w1 Hr. apply mapCoopPlayer_fields in Hr as (Hme & Hp & _). auto.
Qed.

(** The totals of a mapped coop session are those of its parts: the golden
    eggs are the sum of the golden eggs delivered in its waves, the power
    eggs are the sum of the power eggs of its players, and the players are
    the player, marked [me], followed by the other members, not marked. *)
Theorem mapCoop_totals env coop w body w' :
  mapCoop env coop w = (Ok body, w') ->
  StatInkCoopPostBody.golden_eggs body
  = Zsum (map StatInkCoopWave.golden_delivered (StatInkCoopPostBody.waves body))
  /\ StatInkCoopPostBody.power_eggs body
     = Zsum (map StatInkCoopPlayer.power_eggs (StatInkCoopPostBody.players body))
  /\ map StatInkCoopPlayer.me (StatInkCoopPostBody.players body)
     = "yes" :: repeat "no"
                  (length (CoopHistoryDetail.memberResults (CoopInfo.detail coop)))
  /\ length (StatInkCoopPostBody.waves body)
     = length (CoopHistoryDetail.waveResults (CoopInfo.detail coop)).
Proof.
  intros H.
  destruct (mapCoop_waves _ _ _ _ _ H) as (waves & _ & _ & Hdelivered & Hwaves & _).
  assert (Hbody_delivered :
    map StatInkCoopWave.golden_delivered (StatInkCoopPostBody.waves body)
    = map WaveResult.teamDeliverCount
        (CoopHistoryDetail.waveResults (CoopInfo.detail coop))).
  { rewrite Hwaves.
    destruct (String.eqb _ "TEAM_CONTEST"); [|exact Hdelivered].
    rewrite (proj2 (fill_danger_rate_fields _ _ _)). exact Hdelivered. }
  apply mapCoop_Ok in H as (waves' & players & w1 & _ & Hp & ->).
  apply mapM_mapCoopPlayer in Hp as [Hme Heggs].
  split; [|split; [|split]].
  - rewrite Hbody_delivered. cbn [mapCoop_result StatInkCoopPostBody.golden_eggs].
    rewrite fold_left_Zsum. lia.
  - cbn [mapCoop_result StatInkCoopPostBody.power_eggs StatInkCoopPostBody.players].
    rewrite Heggs, fold_left_Zsum. cbn [map Zsum fold_right fst snd].
    rewrite map_map. cbn [snd]. rewrite Z.add_0_l. reflexivity.
  - cbn [mapCoop_result StatInkCoopPostBody.players]. rewrite Hme.
    cbn [map fst yes_no]. f_equal. rewrite map_map. cbn [fst yes_no].
    generalize (CoopHistoryDetail.memberResults (CoopInfo.detail coop)).
    intros l. induction l as [|x rest IH]; cbn; [reflexivity | f_equal; exact IH].
  - rewrite <- (length_map StatInkCoopWave.golden_delivered), Hbody_delivered.
    apply length_map.
Qed.

Lemma mapCoop_totals_witness :
  (fun body =>
     (StatInkCoopPostBody.golden_eggs body, StatInkCoopPostBody.power_eggs body))
    <$> value (mapCoop demo_env
                 (demo_coop "TEAM_CONTEST" [demo_wave 1 10 12; demo_wave 2 12 5] 2 60 3)
                 World_initial)
  = Some (17, 1240).
Proof.
  destruct (mapCoop demo_env
              (demo_coop "TEAM_CONTEST" [demo_wave 1 10 12; demo_wave 2 12 5] 2 60 3)
              World_initial) as [[body|e] w'] eqn:E; [|vm_compute in E; discriminate E].
  unfold value. cbn [fst fmap option_fmap option_map]. f_equal.
  destruct (mapCoop_totals _ _ _ _ _ E) as (-> & -> & _).
  apply mapCoop_Ok in E as (waves & players & w1 & Hw & Hp & ->).
  vm_compute in Hw. inversion Hw; subst. vm_compute in Hp. inversion Hp; subst.
  reflexivity.
Defined.

(** *** Special uses *)

Lemma count_special_uses_fold (keys : list string) key : forall p : gmap string Z,
  fold_left (fun p key => <[key := default 0 (p !! key) + 1]> p) keys p !! key
  = if (count_occ string_dec keys key =? 0)%nat then p !! key
    else Some (default 0 (p !! key) + Z.of_nat (count_occ string_dec keys key)).
Proof.
  induction keys as [|k rest IH]; intros p; cbn [fold_left count_occ]; [reflexivity|].
  rewrite IH. destruct (string_dec k key) as [->|Hne].
  - rewrite lookup_insert_eq. cbn [from_option id Nat.eqb].
    destruct (count_occ string_dec rest key =? 0)%nat eqn:E.
    + apply Nat.eqb_eq in E. rewrite E. reflexivity.
    + f_equal. lia.
  - rewrite lookup_insert_ne by exact Hne. reflexivity.
Qed.

Lemma count_special_uses_lookup (keys : list string) key :
  count_special_uses keys !! key
  = if (count_occ string_dec keys key =? 0)%nat then None
    else Some (Z.of_nat (count_occ string_dec keys key)).
Proof.
  unfold count_special_uses. rewrite count_special_uses_fold, lookup_empty. reflexivity.
Qed.

Lemma mapM_lift {A B} (f : A -> Result B) (l : list A) w ys w' :
  mapM (fun x => lift (f x)) l w = (Ok ys, w') ->
  w' = w /\ Forall2 (fun x y => f x = Ok y) l ys.
Proof.
  revert w ys w'. induction l as [|x rest IH]; intros w ys w' H; cbn [mapM] in H.
  - inversion H. auto.
  - apply bind_Ok in H as (y & w1 & Hy & H).
    apply bind_Ok in H as (ys' & w2 & Hrest & H).
    inversion H; subst. apply lift_Ok in Hy as [Hy ->].
    apply IH in Hrest as [-> Hall]. auto.
Qed.

Lemma count_occ_specials env key (specialWeapons : list CoopSpecial.t) specials :
  key <> EmptyString ->
  Forall2 (fun x y => mapSpecial env x = Ok y) specialWeapons specials ->
  count_occ string_dec
    (flat_map (fun k => match when_truthy k with Some k' => [k'] | None => [] end) specials)
    key
  = length (List.filter (special_is env key) specialWeapons).
Proof.
  intros Hkey H. induction H as [|x y rest ys Hxy _ IH]; [reflexivity|].
  cbn [flat_map List.filter]. rewrite count_occ_app, IH.
  unfold special_is at 2. rewrite Hxy.
  destruct y as [[|c k]|].
  - change (when_truthy (Some EmptyString)) with (@None string). cbn [count_occ].
    destruct key; [contradiction | reflexivity].
  - change (when_truthy (Some (String c k))) with (Some (String c k)). cbn [count_occ].
    destruct (string_dec (String c k) key) as [->|Hne].
    + rewrite String.eqb_refl. reflexivity.
    + apply String.eqb_neq in Hne. rewrite Hne. reflexivity.
  - reflexivity.
Qed.

(** The special uses of a mapped wave count, for every key, the special
    weapons of the wave that [mapSpecial] gives that key; a key that none
    has is absent, and so is the empty key.  Mapping a wave changes no
    state. *)
Theorem mapWave_special_uses env wave w r w' :
  mapWave env wave w = (Ok r, w') ->
  w' = w
  /\ StatInkCoopWave.special_uses r !! EmptyString = None
  /\ forall key,
       key <> EmptyString ->
       StatInkCoopWave.special_uses r !! key
       = (if (length (List.filter (special_is env key) (WaveResult.specialWeapons wave))
              =? 0)%nat
          then None
          else Some (Z.of_nat (length (List.filter (special_is env key)
                                         (WaveResult.specialWeapons wave))))).
Proof.
  unfold mapWave. intros H.
  apply bind_Ok in H as (specials & w1 & Hs & H).
  apply mapM_lift in Hs as [-> Hall].
  inversion H; subst. cbn [StatInkCoopWave.special_uses].
  split; [reflexivity|]. split.
  - rewrite count_special_uses_lookup.
    replace (count_occ string_dec _ EmptyString) with O; [reflexivity|].
    symmetry. apply count_occ_not_In. rewrite in_flat_map.
    intros (k & _ & Hk). destruct k as [[|c k]|]; cbn in Hk; intuition discriminate.
  - intros key Hkey. rewrite count_special_uses_lookup.
    rewrite (count_occ_specials env key _ _ Hkey Hall). reflexivity.
Qed.

Lemma mapWave_special_uses_witness :
  (fun r => StatInkCoopWave.special_uses r !! "nicedama")
    <$> value (mapWave demo_env
                 {| WaveResult.waveNumber := 1;
                    WaveResult.waterLevel := 1;
                    WaveResult.eventWave := None;
                    WaveResult.deliverNorm := 10;
                    WaveResult.goldenPopCount := 30;
                    WaveResult.teamDeliverCount := 12;
                    WaveResult.specialWeapons := [demo_special; demo_special; demo_special] |}
                 World_initial)
  = Some (Some 3).
Proof.
  match goal with
  | |- _ <$> value (?m ?w0) = _ => destruct (m w0) as [[r|e] w'] eqn:E
  end; [|vm_compute in E; discriminate E].
  unfold value. cbn [fst fmap option_fmap option_map]. f_equal.
  rewrite (proj2 (proj2 (mapWave_special_uses _ _ _ _ _ E)) "nicedama"); [reflexivity|].
  discriminate.
Defined.

(** *** Bosses *)

Lemma bosses_of_fold env (enemyResults : list EnemyResult.t) id :
  forall acc : gmap Z StatInkCoopBoss.t,
    fold_left
      (fun acc i =>
         <[Env.b64Number env (IdRef.id (EnemyResult.enemy i)) :=
             {| StatInkCoopBoss.appearances := EnemyResult.popCount i;
                StatInkCoopBoss.defeated := EnemyResult.teamDefeatCount i;
                StatInkCoopBoss.defeated_by_me := EnemyResult.defeatCount i |}]> acc)
      enemyResults acc !! id
    = match find (enemy_is env id) (rev enemyResults) with
      | Some i => Some (boss_of i)
      | None => acc !! id
      end.
Proof.
  induction enemyResults as [|i rest IH]; intros acc; cbn [fold_left rev find];
    [reflexivity|].
  rewrite IH, find_snoc.
  destruct (find (enemy_is env id) (rev rest)); [reflexivity|].
  unfold enemy_is at 1. destruct (Z.eqb_spec (Env.b64Number env (IdRef.id (EnemyResult.enemy i))) id)
    as [->|Hne].
  - rewrite lookup_insert_eq. reflexivity.
  - rewrite lookup_insert_ne by exact Hne. reflexivity.
Qed.

(** The bosses of a mapped coop session: under every decoded enemy id the
    body has the appearances and the defeats of the last enemy result with
    that id, and it has no entry for an id that no enemy result has. *)
Theorem mapCoop_bosses env coop w body w' :
  mapCoop env coop w = (Ok body, w') ->
  forall id,
    StatInkCoopPostBody.bosses body !! id
    = boss_of <$> find (enemy_is env id)
                    (rev (CoopHistoryDetail.enemyResults (CoopInfo.detail coop))).
Proof.
  intros H id. apply mapCoop_Ok in H as (waves & players & w1 & _ & _ & ->).
  cbn [mapCoop_result StatInkCoopPostBody.bosses]. unfold bosses_of.
  rewrite bosses_of_fold, lookup_empty.
  destruct (find _ _); reflexivity.
Qed.

Lemma mapCoop_bosses_witness :
  (fun body => StatInkCoopPostBody.bosses body !! 4)
    <$> value (mapCoop demo_env
                 (demo_coop_with_enemies
                    [demo_enemy "CoopEnemy-4" 5 3 1; demo_enemy "CoopEnemy-9" 2 2 0;
                     demo_enemy "CoopEnemy-4" 6 4 2])
                 World_initial)
  = Some (Some {| StatInkCoopBoss.appearances := 6;
                  StatInkCoopBoss.defeated := 4;
                  StatInkCoopBoss.defeated_by_me := 2 |}).
Proof.
  match goal with
  | |- _ <$> value (?m ?w0) = _ => destruct (m w0) as [[body|e] w'] eqn:E
  end; [|vm_compute in E; discriminate E].
  unfold value. cbn [fst fmap option_fmap option_map]. f_equal.
  rewrite (mapCoop_bosses _ _ _ _ _ E 4). reflexivity.
Defined.

(** ** Where the requests go *)

Lemma sends_only_ret env {A} (a : A) : sends_only env (ret a).
Proof.
  intros w r w' H. inversion H. exists []. split; [symmetry; apply app_nil_r | constructor].
Qed.

Lemma sends_only_throw env {A} (e : Exn) : sends_only env (@throw A e).
Proof.
  intros w r w' H. inversion H. exists []. split; [symmetry; apply app_nil_r | constructor].
Qed.

Lemma sends_only_lift env {A} (r : Result A) : sends_only env (lift r).
Proof. destruct r; [apply sends_only_ret | apply sends_only_throw]. Qed.

Lemma sends_only_bind env {A B} (m : M A) (k : A -> M B) :
  sends_only env m -> (forall a, sends_only env (k a)) -> sends_only env (bind m k).
Proof.
  intros Hm Hk w r w' H. unfold bind in H.
  destruct (m w) as [[a|e] w1] eqn:E.
  - destruct (Hm _ _ _ E) as (new1 & Hr1 & Hf1).
    destruct (Hk a _ _ _ H) as (new2 & Hr2 & Hf2).
    exists (new1 ++ new2). split.
    + rewrite Hr2, Hr1. symmetry. apply app_assoc.
    + apply Forall_app. auto.
  - inversion H; subst. apply (Hm _ _ _ E).
Qed.

Lemma authorized_requestHeaders env url more :
  String.prefix (statInk +:+ "/api/v3/") url = true ->
  (authorized env (GET url (requestHeaders env ++ more))
   /\ forall body, authorized env (POST url (requestHeaders env ++ more) body)).
Proof.
  intros Hurl. unfold authorized. cbn [request_url request_headers requestHeaders].
  split; [|intros body]; (split; [exact Hurl|]); split; cbn; auto.
Qed.

Lemma sends_only_getCached env url :
  catalog_url url -> sends_only env (_getCached env url).
Proof.
  intros Hurl w r w' H.
  assert (Hprefix : String.prefix (statInk +:+ "/api/v3/") url = true).
  { destruct Hurl as [-> | [-> | ->]]; reflexivity. }
  unfold _getCached, get_world, bind in H.
  destruct (World.cache w !! url) as [cached|].
  - inversion H; subst. exists []. split; [symmetry; apply app_nil_r | constructor].
  - exists [GET url (requestHeaders env)]. split.
    + revert H.
      unfold fetch_get_catalog, checkResponse, Response_json, modify, ret, throw.
      destruct (Env.get_catalog env (World.requests w) url (requestHeaders env))
        as [status [j|]]; cbn;
        destruct (status / 100 =? 2); cbn; intros H; inversion H; subst; reflexivity.
    + constructor; [|constructor].
      pose proof (proj1 (authorized_requestHeaders env url [] Hprefix)) as Hget.
      rewrite app_nil_r in Hget. exact Hget.
Qed.

Lemma fold_step_entry_requests es : forall w,
  World.requests (fold_left step_entry es w) = World.requests w.
Proof.
  induction es as [|[n k] rest IH]; intros w; cbn [fold_left]; [reflexivity|].
  rewrite IH. unfold step_entry, salmonWeaponMap_step. cbn.
  destruct (World._salmonWeaponMap w !! n) as [prev|]; [|reflexivity].
  destruct (negb (String.eqb prev k)); reflexivity.
Qed.

Lemma sends_only_getSalmonWeaponMap env : sends_only env (getSalmonWeaponMap env).
Proof.
  intros w r w' H. unfold getSalmonWeaponMap, get_world, bind at 1 in H.
  destruct (size (World._salmonWeaponMap w) =? 0)%nat.
  - unfold bind at 1 in H.
    destruct (getSalmonWeapon env w) as [[weapons|e] w1] eqn:E.
    + apply sends_only_getCached in E; [|right; right; reflexivity].
      unfold bind in H. rewrite salmon_loops_run in H. cbn zeta in H.
      destruct (size (World._salmonWeaponMap (fold_left step_entry (entries weapons) w1))
                =? 0)%nat; inversion H; subst; rewrite fold_step_entry_requests; exact E.
    + inversion H; subst. apply sends_only_getCached in E; [exact E|].
      right; right; reflexivity.
  - inversion H; subst. exists []. split; [symmetry; apply app_nil_r | constructor].
Qed.

Lemma sends_only_post_body env path body :
  String.prefix (statInk +:+ "/api/v3/") (statInk +:+ path) = true ->
  sends_only env (post_body env path body).
Proof.
  intros Hprefix w r w' H. rewrite post_body_run in H. inversion H; subst.
  exists [upload_request env path body]. split; [reflexivity|].
  constructor; [|constructor].
  apply (proj2 (authorized_requestHeaders env _ _ Hprefix)).
Qed.

Lemma sends_only_uuidList env type : sends_only env (uuidList env type).
Proof.
  intros w r w' H. rewrite uuidList_run in H. inversion H; subst.
  exists [GET (uuid_list_url type) (requestHeaders env)]. split; [reflexivity|].
  constructor; [|constructor].
  assert (Hprefix : String.prefix (statInk +:+ "/api/v3/") (uuid_list_url type) = true)
    by (destruct type; reflexivity).
  pose proof (proj1 (authorized_requestHeaders env _ [] Hprefix)) as Hget.
  rewrite app_nil_r in Hget. exact Hget.
Qed.

(** Whatever the exporter is asked and whatever the server answers, it
    keeps the requests sent before and every request it sends, to fetch a
    catalog or the list of uploads or to upload a body, goes to the API of
    stat.ink with the user agent and the API key as a bearer token. *)
Theorem exporter_requests_authorized env :
  (forall game, sends_only env (exportGame env game))
  /\ (forall type ids, sends_only env (notExported env type ids)).
Proof.
  split.
  - intros [vs|coop]; cbn [exportGame].
    + apply sends_only_bind.
      * apply (mapping_mapBattle env (fun A => @sends_only env A)).
        -- intros A a. apply sends_only_ret.
        -- intros A e. apply sends_only_throw.
        -- intros A B m k. apply sends_only_bind.
        -- apply sends_only_getCached. left. reflexivity.
        -- apply sends_only_getCached. right. left. reflexivity.
      * intros body. apply sends_only_bind; [apply sends_only_post_body; reflexivity|].
        intros json. apply sends_only_bind; [apply sends_only_lift|].
        intros url. apply sends_only_ret.
    + apply sends_only_bind.
      * apply (mapping_mapCoop env (fun A => @sends_only env A)).
        -- intros A a. apply sends_only_ret.
        -- intros A e. apply sends_only_throw.
        -- intros A B m k. apply sends_only_bind.
        -- apply sends_only_getSalmonWeaponMap.
      * intros body. apply sends_only_bind; [apply sends_only_post_body; reflexivity|].
        intros json. apply sends_only_bind; [apply sends_only_lift|].
        intros url. apply sends_only_ret.
  - intros type ids. unfold notExported.
    apply sends_only_bind; [apply sends_only_uuidList|].
    intros uuid. apply sends_only_ret.
Qed.

(** ** The rank and the X power of a mapped battle *)

Lemma mapBattle_rank env vs w body w' :
  mapBattle env vs w = (Ok body, w') ->
  StatInkPostBody.rank_exp_change body = RankFields.rank_exp_change (mapRank vs)
  /\ StatInkPostBody.rank_before body = RankFields.rank_before (mapRank vs)
  /\ StatInkPostBody.rank_before_s_plus body = RankFields.rank_before_s_plus (mapRank vs)
  /\ StatInkPostBody.rank_after body = RankFields.rank_after (mapRank vs)
  /\ StatInkPostBody.rank_after_s_plus body = RankFields.rank_after_s_plus (mapRank vs)
  /\ StatInkPostBody.rank_before_exp body = RankFields.rank_before_exp (mapRank vs)
  /\ StatInkPostBody.rank_after_exp body = RankFields.rank_after_exp (mapRank vs)
  /\ StatInkPostBody.x_power_before body = fst (mapXPower vs)
  /\ StatInkPostBody.x_power_after body = snd (mapXPower vs).
Proof.
  unfold mapBattle. intros H.
  destruct (find VsPlayer.isMyself _) as [self|]; [|discriminate H].
  destruct (VsHistoryDetail.otherTeams (VsInfo.detail vs)) as [|theirTeam moreTeams];
    [discriminate H|].
  apply bind_Ok in H as (lobby & w1 & _ & H).
  apply bind_Ok in H as (stage & w2 & _ & H).
  apply bind_Ok in H as (ours & w3 & _ & H).
  apply bind_Ok in H as (theirs & w4 & _ & H).
  apply bind_Ok in H as (third_players & w5 & _ & H).
  inversion H; subst body w'. cbn. repeat split; reflexivity.
Qed.

(** When SplatNet gives the rank states before and after a battle, the
    body has their rank points and a rank after; the change of rank points
    is left unset only for a battle that raised the rank, and for a battle
    outside a series for which SplatNet gives no earned points it is the
    points after less the points before, the rank after being the one of
    the state after. *)
Theorem mapBattle_rank_states env vs w body w' rankBeforeState rankState :
  mapBattle env vs w = (Ok body, w') ->
  VsInfo.rankBeforeState vs = Some rankBeforeState ->
  VsInfo.rankState vs = Some rankState ->
  StatInkPostBody.rank_before_exp body = Some (RankState.rankPoint rankBeforeState)
  /\ StatInkPostBody.rank_after_exp body = Some (RankState.rankPoint rankState)
  /\ (exists rank, StatInkPostBody.rank_after body = Some rank)
  /\ (StatInkPostBody.rank_exp_change body = None ->
      VsInfo.bankaraMatchChallenge vs ≫= BankaraMatchChallenge.isUdemaeUp = Some true)
  /\ (VsInfo.bankaraMatchChallenge vs = None ->
      StatInkPostBody.rank_after body = Some (fst (parseUdemae (RankState.rank rankState)))
      /\ StatInkPostBody.rank_after_s_plus body
         = snd (parseUdemae (RankState.rank rankState))
      /\ (VsHistoryDetail.bankaraMatch (VsInfo.detail vs)
            ≫= BankaraMatch.earnedUdemaePoint = None ->
          StatInkPostBody.rank_exp_change body
          = Some (RankState.rankPoint rankState - RankState.rankPoint rankBeforeState))).
Proof.
  intros H Hbefore Hafter.
  apply mapBattle_rank in H as (-> & _ & _ & -> & -> & -> & -> & _).
  unfold mapRank. rewrite Hbefore, Hafter.
  destruct (VsInfo.bankaraMatchChallenge vs) as [bmc|];
    [destruct (VsInfo.challengeProgress vs) as [progress|];
     [destruct (if ChallengeProgress.index progress =? 0
                then when_truthy (BankaraMatchChallenge.udemaeAfter bmc) else None)|]|];
    (destruct (VsInfo.listNode vs) as [listNode|];
     [destruct (Js.truthy_string (ListNode.udemae listNode))|]);
    cbn [RankFields.rank_before_exp RankFields.rank_after_exp RankFields.rank_after
         RankFields.rank_exp_change RankFields.rank_after_s_plus fst snd when_truthy
         mbind option_bind from_option id];
    (split; [reflexivity|]); (split; [reflexivity|]);
    (split; [repeat match goal with
                    | |- context [if ?c then _ else _] => destruct c
                    end; eexists; reflexivity|]);
    (split;
     [try destruct (VsHistoryDetail.bankaraMatch (VsInfo.detail vs)
                      ≫= BankaraMatch.earnedUdemaePoint);
      try destruct (BankaraMatchChallenge.earnedUdemaePoint bmc);
      try destruct (BankaraMatchChallenge.isUdemaeUp bmc) as [[]|];
      cbn; congruence
     | intros Hnone;
       first [ discriminate Hnone
             | split; [reflexivity|]; split; [reflexivity|]; intros ->; reflexivity ]]).
Qed.

Lemma mapBattle_rank_states_witness :
  (fun body =>
     (StatInkPostBody.rank_exp_change body, StatInkPostBody.rank_after body,
      StatInkPostBody.rank_after_s_plus body))
    <$> value (mapBattle demo_env (demo_ranked 1200 1180) World_initial)
  = Some (Some (-20), Some "s+", Some 3).
Proof.
  destruct (mapBattle demo_env (demo_ranked 1200 1180) World_initial)
    as [[body|e] w'] eqn:E; [|vm_compute in E; discriminate E].
  unfold value. cbn [fst fmap option_fmap option_map]. f_equal.
  destruct (mapBattle_rank_states _ _ _ _ _
              {| RankState.rank := "S+3"; RankState.rankPoint := 1200 |}
              {| RankState.rank := "S+3"; RankState.rankPoint := 1180 |}
              E eq_refl eq_refl) as (_ & _ & _ & _ & Hplain).
  destruct (Hplain eq_refl) as (-> & -> & Hchange).
  rewrite (Hchange eq_refl). reflexivity.
Defined.

(** ** A coop weapon and the catalog *)

Lemma getSalmonWeaponMap_Ok env w weapons w1 weapon n :
  World._salmonWeaponMap w = ∅ ->
  getSalmonWeapon env w = (Ok weapons, w1) ->
  In weapon weapons ->
  In n (Object_values (CatalogEntry.name weapon)) ->
  exists m w2,
    getSalmonWeaponMap env w = (Ok m, w2)
    /\ forall name, m !! name = last_key name weapons.
Proof.
  intros Hempty Hget Hin Hn.
  pose proof (fun name => getSalmonWeaponMap_lookup env w weapons w1 name Hempty Hget)
    as Hlookup.
  rewrite (getSalmonWeaponMap_run _ _ _ _ Hempty Hget) in Hlookup |- *.
  cbn [snd] in Hlookup.
  destruct (size (World._salmonWeaponMap (fold_left step_entry (entries weapons) w1))
            =? 0)%nat eqn:Hsize.
  - exfalso. apply size_eqb_0 in Hsize.
    destruct (produces_display weapon n Hn) as [Hp _].
    destruct (last_key_produced n weapons weapon Hin Hp) as (weapon' & _ & _ & Hk).
    specialize (Hlookup n). rewrite Hsize, lookup_empty, Hk in Hlookup.
    discriminate Hlookup.
  - cbn zeta. rewrite Hsize. eexists _, _. split; [reflexivity | exact Hlookup].
Qed.

(** A coop weapon is looked up in the catalog under the name SplatNet
    gives it.  With the catalog of salmon weapons fetched, a weapon named
    by the SplatNet spelling of a display name of a catalog entry maps to
    that entry's key when no other key claims the name; a weapon whose name
    no entry has maps to nothing when its image is the one of the random
    weapon, and is an error otherwise. *)
Theorem mapCoopWeapon_catalog env w weapons w1 weapon n :
  World._salmonWeaponMap w = ∅ ->
  getSalmonWeapon env w = (Ok weapons, w1) ->
  In weapon weapons ->
  In n (Object_values (CatalogEntry.name weapon)) ->
  (forall image,
      ~ clash (splatnet_spelling n) weapons ->
      CatalogEntry.key weapon <> EmptyString ->
      fst (mapCoopWeapon env
             {| CoopWeapon.name := splatnet_spelling n; CoopWeapon.image := image |} w)
      = Ok (Some (CatalogEntry.key weapon)))
  /\ (forall name image,
      (forall weapon', In weapon' weapons -> produces name weapon' = false) ->
      fst (mapCoopWeapon env {| CoopWeapon.name := name; CoopWeapon.image := image |} w)
      = if isRandom image then Ok None
        else Throw (ThrowError ("Weapon not found: " +:+ name))).
Proof.
  intros Hempty Hget Hin Hn.
  destruct (getSalmonWeaponMap_Ok _ _ _ _ _ _ Hempty Hget Hin Hn) as (m & w2 & Hrun & Hm).
  split.
  - intros image Hclash Hkey. unfold mapCoopWeapon.
    rewrite (bind_run _ _ _ _ _ Hrun). cbn [CoopWeapon.name CoopWeapon.image].
    rewrite Hm.
    destruct (produces_display weapon n Hn) as [_ Hp].
    destruct (last_key_produced _ weapons weapon Hin Hp) as (weapon' & Hin' & Hp' & ->).
    assert (Hsame : CatalogEntry.key weapon' = CatalogEntry.key weapon).
    { destruct (String.eqb_spec (CatalogEntry.key weapon') (CatalogEntry.key weapon))
        as [E | E]; [exact E|].
      exfalso. apply Hclash. exists weapon', weapon. auto 6. }
    rewrite Hsame. destruct (CatalogEntry.key weapon); [contradiction | reflexivity].
  - intros name image Hnone. unfold mapCoopWeapon.
    rewrite (bind_run _ _ _ _ _ Hrun). cbn [CoopWeapon.name CoopWeapon.image].
    rewrite Hm.
    destruct (last_key name weapons) as [k|] eqn:Hk.
    + apply last_key_Some in Hk as (weapon' & Hin' & Hp' & _).
      rewrite (Hnone weapon' Hin') in Hp'. discriminate Hp'.
    + cbn [when_truthy]. destruct (isRandom image); reflexivity.
Qed.

Lemma mapCoopWeapon_catalog_witness :
  fst (mapCoopWeapon demo_env
         {| CoopWeapon.name := splatnet_spelling "14式竹筒槍·甲"; CoopWeapon.image := None |}
         World_initial)
  = Ok (Some "bamboo14mk1").
Proof.
  refine (proj1 (mapCoopWeapon_catalog demo_env World_initial demo_salmon_weapons
                   (snd (getSalmonWeapon demo_env World_initial))
                   {| CatalogEntry.key := "bamboo14mk1";
                      CatalogEntry.name :=
                        [("en_US", "Bamboozler 14 Mk I"); ("zh_TW", "14式竹筒槍·甲")];
                      CatalogEntry.aliases := [] |}
                   "14式竹筒槍·甲" eq_refl eq_refl _ _) None _ _).
  - right. left. reflexivity.
  - right. left. reflexivity.
  - intros (a & b & [<- | [<- | []]] & [<- | [<- | []]] & Ha & Hb & Hne);
      try (apply Hne; reflexivity); vm_compute in Ha, Hb; discriminate.
  - discriminate.
Defined.

(** ** The danger rates of the waves of a team contest *)

Lemma added_percent_range n quota delivered :
  0 <= added_percent n quota delivered <= 60
  /\ added_percent n quota delivered mod 5 = 0.
Proof.
  unfold added_percent.
  repeat match goal with
         | |- context [if ?c then _ else _] => destruct c
         end; cbn zeta; split; (lia || reflexivity).
Qed.

Lemma fill_danger_rate_bounds n waves : forall last start (i : nat) wave,
  start = match last with
          | None => 60
          | Some lastWave =>
              default 0 (StatInkCoopWave.danger_rate lastWave)
              + added_percent n (StatInkCoopWave.golden_quota lastWave)
                  (StatInkCoopWave.golden_delivered lastWave)
          end ->
  fill_danger_rate n last waves !! i = Some wave ->
  exists rate,
    StatInkCoopWave.danger_rate wave = Some rate
    /\ start <= rate <= start + 60 * Z.of_nat i
    /\ (rate - start) mod 5 = 0.
Proof.
  induction waves as [|first rest IH]; intros last start i wave Hstart Hwave;
    [discriminate Hwave|].
  cbn [fill_danger_rate] in Hwave. cbv zeta in Hwave. rewrite <- Hstart in Hwave.
  destruct i as [|j]; cbn [lookup list_lookup] in Hwave.
  - inversion Hwave; subst wave. exists start. cbn.
    split; [reflexivity|]. split; [lia|]. rewrite Z.sub_diag. reflexivity.
  - destruct (IH _ _ j wave eq_refl Hwave) as (rate & Hrate & Hrange & Hmod).
    cbn [set_danger_rate StatInkCoopWave.danger_rate StatInkCoopWave.golden_quota
         StatInkCoopWave.golden_delivered from_option id] in Hrange, Hmod.
    destruct (added_percent_range n (StatInkCoopWave.golden_quota first)
                (StatInkCoopWave.golden_delivered first)) as [Hadded Hadded5].
    exists rate. split; [exact Hrate|]. split; [lia|].
    replace (rate - start)
      with ((rate - (start + added_percent n (StatInkCoopWave.golden_quota first)
                               (StatInkCoopWave.golden_delivered first)))
            + added_percent n (StatInkCoopWave.golden_quota first)
                (StatInkCoopWave.golden_delivered first)) by lia.
    rewrite Z.add_mod, Hmod, Hadded5 by lia. reflexivity.
Qed.

(** In a mapped team contest every wave has a danger rate: a multiple of 5
    that is at least 60, at most 60 more per wave played before it, and
    never lower than the danger rate of the wave before. *)
Theorem mapCoop_danger_rate_bounds env coop w body w' :
  mapCoop env coop w = (Ok body, w') ->
  CoopHistoryDetail.rule (CoopInfo.detail coop) = "TEAM_CONTEST" ->
  (forall (i : nat) wave,
      StatInkCoopPostBody.waves body !! i = Some wave ->
      exists rate,
        StatInkCoopWave.danger_rate wave = Some rate
        /\ 60 <= rate <= 60 + 60 * Z.of_nat i
        /\ rate mod 5 = 0)
  /\ (forall (i : nat) prev cur rate_prev rate_cur,
      StatInkCoopPostBody.waves body !! i = Some prev ->
      StatInkCoopPostBody.waves body !! S i = Some cur ->
      StatInkCoopWave.danger_rate prev = Some rate_prev ->
      StatInkCoopWave.danger_rate cur = Some rate_cur ->
      rate_prev <= rate_cur).
Proof.
  intros H Hrule.
  destruct (mapCoop_waves _ _ _ _ _ H) as (waves & _ & _ & _ & Hwaves & _).
  rewrite Hrule in Hwaves. cbn in Hwaves. rewrite Hwaves. split.
  - intros i wave Hwave.
    destruct (fill_danger_rate_bounds _ _ None 60 i wave eq_refl Hwave)
      as (rate & Hrate & Hrange & Hmod).
    exists rate. split; [exact Hrate|]. split; [exact Hrange|].
    replace rate with ((rate - 60) + 60) by lia.
    rewrite Z.add_mod, Hmod by lia. reflexivity.
  - intros i prev cur rate_prev rate_cur Hprev Hcur Hrp Hrc.
    destruct (fill_danger_rate_step _ _ _ _ _ _ Hprev Hcur) as (rate & Hr & Hc).
    rewrite Hr in Hrp. rewrite Hc in Hrc. inversion Hrp; inversion Hrc; subst.
    pose proof (added_percent_range (length (StatInkCoopPostBody.players body))
                  (StatInkCoopWave.golden_quota prev)
                  (StatInkCoopWave.golden_delivered prev)) as [Hadded _].
    lia.
Qed.

Lemma mapCoop_danger_rate_bounds_witness :
  (fun body => StatInkCoopWave.danger_rate <$> StatInkCoopPostBody.waves body)
    <$> value (mapCoop demo_env
                 (demo_coop "TEAM_CONTEST" [demo_wave 1 10 20; demo_wave 2 12 18] 0 60 3)
                 World_initial)
  = Some [Some 60; Some 120].
Proof.
  destruct (mapCoop demo_env
              (demo_coop "TEAM_CONTEST" [demo_wave 1 10 20; demo_wave 2 12 18] 0 60 3)
              World_initial) as [[body|e] w'] eqn:E; [|vm_compute in E; discriminate E].
  pose proof (proj1 (mapCoop_danger_rate_bounds _ _ _ _ _ E eq_refl)) as Hbounds.
  unfold value. cbn [fst fmap option_fmap option_map]. f_equal.
  assert (Hwaves : exists first second, StatInkCoopPostBody.waves body = [first; second]
                     /\ StatInkCoopWave.danger_rate second = Some 120).
  { apply mapCoop_Ok in E as (waves & players & w1 & Hw & Hp & ->).
    vm_compute in Hw. inversion Hw; subst. vm_compute in Hp. inversion Hp; subst.
    eexists _, _. split; reflexivity. }
  destruct Hwaves as (first & second & Hw & Hsecond). rewrite Hw in Hbounds |- *.
  destruct (Hbounds 0%nat first eq_refl) as (rate & Hrate & Hrange & _).
  cbn [fmap list_fmap]. rewrite Hrate, Hsecond. repeat f_equal. cbn in Hrange. lia.
Defined.

(** ** What [exportGame] returns *)

Lemma mapGame_run env game w :
  exportGame env game w
  = match mapGame env game w with
    | (Ok (path, body), w1) =>
        match post_body env path body w1 with
        | (Ok json, w2) =>
            match Js_get json "url" with
            | Ok url =>
                (Ok {| ExportResult.status := "success"; ExportResult.url := url |}, w2)
            | Throw e => (Throw e, w2)
            end
        | (Throw e, w2) => (Throw e, w2)
        end
    | (Throw e, w1) => (Throw e, w1)
    end.
Proof.
  destruct game as [vs|coop]; cbn [exportGame mapGame]; unfold bind, postBattle, postCoop.
  - destruct (mapBattle env vs w) as [[body|e] w1]; [|reflexivity].
    cbv beta iota delta [ret].
    destruct (post_body env "/api/v3/battle" (BattleBody body) w1) as [[json|e] w2];
      [|reflexivity].
    destruct (Js_get json "url"); reflexivity.
  - destruct (mapCoop env coop w) as [[body|e] w1]; [|reflexivity].
    cbv beta iota delta [ret].
    destruct (post_body env "/api/v3/salmon" (CoopBody body) w1) as [[json|e] w2];
      [|reflexivity].
    destruct (Js_get json "url"); reflexivity.
Qed.

Lemma Js_get_not_null v key : v <> JsNull -> Js_get v key = Ok (Js_field key v).
Proof. destruct v; [contradiction | reflexivity..]. Qed.

(** [exportGame] returns, rather than throws, exactly when the session was
    mapped and the server answered the upload with status 200 or 201 and a
    body that is not [null] and has no truthy [error]: the result then is a
    success with what the body has as [url], and the upload is the last
    request sent.  Every failure is thrown; in particular an answer with
    status 200 or 201 and the body [null] makes [exportGame] throw a
    [TypeError] after the upload. *)
Theorem exportGame_success env game w :
  (forall result w',
      exportGame env game w = (Ok result, w') <->
      exists path body w1,
        mapGame env game w = (Ok (path, body), w1)
        /\ (Response.status (upload_response env path body w1) = 200
            \/ Response.status (upload_response env path body w1) = 201)
        /\ json_or_empty (upload_response env path body w1) <> JsNull
        /\ (forall v,
              Js_field "error" (json_or_empty (upload_response env path body w1)) = Some v ->
              truthy v = false)
        /\ result
           = {| ExportResult.status := "success";
                ExportResult.url :=
                  Js_field "url" (json_or_empty (upload_response env path body w1)) |}
        /\ w' = send (upload_request env path body) w1)
  /\ (forall path body w1,
      mapGame env game w = (Ok (path, body), w1) ->
      Response.status (upload_response env path body w1) = 200
      \/ Response.status (upload_response env path body w1) = 201 ->
      json_or_empty (upload_response env path body w1) = JsNull ->
      exists message,
        exportGame env game w
        = (Throw (ThrowTypeError message), send (upload_request env path body) w1)).
Proof.
  rewrite mapGame_run. split.
  - intros result w'.
    destruct (mapGame env game w) as [[[path body]|e] w1].
    + destruct (post_body_outcome env path body w1) as (Hok & _ & _ & Honly & Hsnd).
      cbn zeta in Hok, Honly.
      destruct (post_body env path body w1) as [[json|e] w2] eqn:E;
        cbn [fst snd] in Hok, Honly, Hsnd; subst w2.
      * destruct Honly as (Hgood & Hnn & Hfalsy); [eexists; reflexivity|].
        specialize (Hok Hgood Hnn Hfalsy). inversion Hok; subst json.
        rewrite (Js_get_not_null _ _ Hnn). split.
        -- intros H. inversion H; subst. exists path, body, w1.
           split; [reflexivity|]. split; [exact Hgood|]. split; [exact Hnn|].
           split; [|split; reflexivity].
           intros v Hv. destruct (truthy v) eqn:Ht; [|reflexivity].
           exfalso. apply Hfalsy. exists v. auto.
        -- intros (path' & body' & w1' & Hm & _ & _ & _ & -> & ->).
           inversion Hm; subst. reflexivity.
      * split; [intros H; discriminate H|].
        intros (path' & body' & w1' & Hm & Hgood & Hnn & Hfalsy & _).
        inversion Hm; subst path' body' w1'.
        assert (Hnone : ~ exists v,
                   Js_field "error" (json_or_empty (upload_response env path body w1))
                   = Some v /\ truthy v = true).
        { intros (v & Hv & Ht). rewrite (Hfalsy v Hv) in Ht. discriminate Ht. }
        specialize (Hok Hgood Hnn Hnone). discriminate Hok.
    + split; [intros H; discriminate H|].
      intros (path & body & w1' & Hm & _). discriminate Hm.
  - intros path body w1 Hm Hgood Hnull. rewrite Hm.
    destruct (post_body_outcome env path body w1) as (_ & _ & Hthrow & _ & Hsnd).
    destruct (Hthrow Hgood Hnull) as [message Hfst].
    exists message.
    destruct (post_body env path body w1) as [r w2]. cbn [fst snd] in Hfst, Hsnd.
    subst. reflexivity.
Qed.

Lemma exportGame_success_witness :
  value (exportGame demo_env (GameVsInfo (demo_vs "VsStage-1")) World_initial)
  = Some {| ExportResult.status := "success";
            ExportResult.url := Some (JsString "https://stat.ink/@demo/spl3/1") |}
  /\ exists message,
       fst (exportGame demo_env_upload_null (GameVsInfo (demo_vs "VsStage-1")) World_initial)
       = Throw (ThrowTypeError message).
Proof.
  split.
  - destruct (mapBattle demo_env (demo_vs "VsStage-1") World_initial)
      as [[body|e] w1] eqn:E; [|vm_compute in E; discriminate E].
    assert (Hgame : mapGame demo_env (GameVsInfo (demo_vs "VsStage-1")) World_initial
                    = (Ok ("/api/v3/battle", BattleBody body), w1)).
    { cbn [mapGame]. rewrite (bind_run _ _ _ _ _ E). reflexivity. }
    unfold value.
    rewrite (proj2 (proj1 (exportGame_success demo_env (GameVsInfo (demo_vs "VsStage-1"))
                             World_initial)
                      {| ExportResult.status := "success";
                         ExportResult.url := Some (JsString "https://stat.ink/@demo/spl3/1") |}
                      (send (upload_request demo_env "/api/v3/battle" (BattleBody body)) w1))).
    + reflexivity.
    + exists "/api/v3/battle", (BattleBody body), w1.
      split; [exact Hgame|]. split; [right; reflexivity|]. split; [discriminate|].
      split; [intros v Hv; discriminate Hv|]. split; reflexivity.
  - destruct (mapBattle demo_env_upload_null (demo_vs "VsStage-1") World_initial)
      as [[body|e] w1] eqn:E; [|vm_compute in E; discriminate E].
    assert (Hgame : mapGame demo_env_upload_null (GameVsInfo (demo_vs "VsStage-1"))
                      World_initial
                    = (Ok ("/api/v3/battle", BattleBody body), w1)).
    { cbn [mapGame]. rewrite (bind_run _ _ _ _ _ E). reflexivity. }
    destruct (proj2 (exportGame_success demo_env_upload_null
                       (GameVsInfo (demo_vs "VsStage-1")) World_initial)
                _ _ _ Hgame) as [message Hthrow].
    + left. reflexivity.
    + reflexivity.
    + exists message. rewrite Hthrow. reflexivity.
Defined.

(** ** The inked area of the teams *)

Lemma mapM_index_inked env (l : list VsPlayer.t) : forall index w ys w',
  mapM_index (mapPlayer env) index l w = (Ok ys, w') ->
  map StatInkPlayer.inked ys = map VsPlayer.paint l.
Proof.
  induction l as [|x rest IH]; intros index w ys w' H; cbn [mapM_index] in H.
  - inversion H. reflexivity.
  - apply bind_Ok in H as (y & w1 & Hy & H).
    apply bind_Ok in H as (ys' & w2 & Hrest & H).
    inversion H; subst. cbn [map].
    apply mapPlayer_Ok in Hy as (_ & _ & _ & -> & _).
    rewrite (IH _ _ _ _ Hrest). reflexivity.
Qed.

Lemma sum_paint_Zsum players : sum_paint players = Zsum (map VsPlayer.paint players).
Proof. unfold sum_paint. rewrite fold_left_Zsum. lia. Qed.

(** Under the turf-war and tricolour rules the inked area of each team of a
    mapped battle is the sum of the inked areas of the players the body
    lists for that team; under the other rules no team has an inked area
    or a percentage. *)
Theorem mapBattle_team_inked env vs w body w' :
  mapBattle env vs w = (Ok body, w') ->
  (VsRule.rule (VsHistoryDetail.vsRule (VsInfo.detail vs)) = "TURF_WAR"
   \/ VsRule.rule (VsHistoryDetail.vsRule (VsInfo.detail vs)) = "TRI_COLOR" ->
   StatInkPostBody.our_team_inked body
   = Some (Zsum (map StatInkPlayer.inked (StatInkPostBody.our_team_players body)))
   /\ StatInkPostBody.their_team_inked body
      = Some (Zsum (map StatInkPlayer.inked (StatInkPostBody.their_team_players body)))
   /\ StatInkPostBody.third_team_inked body
      = (fun ps => Zsum (map StatInkPlayer.inked ps))
          <$> StatInkPostBody.third_team_players body)
  /\ (VsRule.rule (VsHistoryDetail.vsRule (VsInfo.detail vs)) <> "TURF_WAR" ->
      VsRule.rule (VsHistoryDetail.vsRule (VsInfo.detail vs)) <> "TRI_COLOR" ->
      StatInkPostBody.our_team_inked body = None
      /\ StatInkPostBody.their_team_inked body = None
      /\ StatInkPostBody.third_team_inked body = None
      /\ StatInkPostBody.our_team_percent body = None
      /\ StatInkPostBody.their_team_percent body = None
      /\ StatInkPostBody.third_team_percent body = None
      /\ StatInkPostBody.third_team_players body = None).
Proof.
  unfold mapBattle. intros H.
  destruct (find VsPlayer.isMyself _) as [self|]; [|discriminate H].
  destruct (VsHistoryDetail.otherTeams (VsInfo.detail vs)) as [|theirTeam moreTeams];
    [discriminate H|].
  apply bind_Ok in H as (lobby & w1 & _ & H).
  apply bind_Ok in H as (stage & w2 & _ & H).
  apply bind_Ok in H as (ours & w3 & Hours & H).
  apply bind_Ok in H as (theirs & w4 & Htheirs & H).
  apply bind_Ok in H as (third_players & w5 & Hthird & H).
  inversion H; subst body w'. clear H. cbn.
  apply mapM_index_inked in Hours. apply mapM_index_inked in Htheirs.
  split.
  - intros Hrule.
    assert (Hturf : String.eqb (VsRule.rule (VsHistoryDetail.vsRule (VsInfo.detail vs)))
                      "TURF_WAR"
                    || String.eqb (VsRule.rule (VsHistoryDetail.vsRule (VsInfo.detail vs)))
                         "TRI_COLOR" = true).
    { destruct Hrule as [-> | ->]; reflexivity. }
    rewrite Hturf in Hthird |- *.
    rewrite Hours, Htheirs, !sum_paint_Zsum.
    split; [reflexivity|]. split; [reflexivity|].
    destruct moreTeams as [|third [|fourth more]]; cbn in Hthird |- *.
    + inversion Hthird. reflexivity.
    + apply bind_Ok in Hthird as (ps & w6 & Hps & Hthird). inversion Hthird; subst.
      apply mapM_index_inked in Hps. cbn. rewrite Hps, sum_paint_Zsum. reflexivity.
    + inversion Hthird. reflexivity.
  - intros H1 H2.
    apply String.eqb_neq in H1. apply String.eqb_neq in H2.
    rewrite H1, H2 in Hthird |- *. cbn [orb].
    destruct moreTeams as [|third [|fourth more]]; cbn in Hthird; inversion Hthird;
      auto 10.
Qed.

Lemma mapBattle_team_inked_witness :
  (fun body => (StatInkPostBody.our_team_inked body, StatInkPostBody.third_team_inked body))
    <$> value (mapBattle demo_env (demo_vs "VsStage-1") World_initial)
  = Some (Some 1974, None).
Proof.
  destruct (mapBattle demo_env (demo_vs "VsStage-1") World_initial)
    as [[body|e] w'] eqn:E; [|vm_compute in E; discriminate E].
  unfold value. cbn [fst fmap option_fmap option_map]. f_equal.
  destruct (proj1 (mapBattle_team_inked _ _ _ _ _ E) (or_introl eq_refl)) as (-> & _ & ->).
  vm_compute in E. inversion E. reflexivity.
Defined.

(** ** Errors of [mapBattle] before any request *)

(** [mapBattle] looks at the battle before it asks the server anything: a
    battle without the player among its own team, without an opposing team
    or of an unknown lobby is refused, in that order, with the state as it
    was and no request sent. *)
Theorem mapBattle_refuses env vs w :
  (find VsPlayer.isMyself (VsTeam.players (VsHistoryDetail.myTeam (VsInfo.detail vs)))
   = None ->
   mapBattle env vs w = (Throw (ThrowError "Self not found"), w))
  /\ (find VsPlayer.isMyself (VsTeam.players (VsHistoryDetail.myTeam (VsInfo.detail vs)))
      <> None ->
      (VsHistoryDetail.otherTeams (VsInfo.detail vs) = [] ->
       mapBattle env vs w = (Throw (ThrowError "Other teams is empty"), w))
      /\ (VsHistoryDetail.otherTeams (VsInfo.detail vs) <> [] ->
          forall e,
            mapLobby env (VsInfo.detail vs) = Throw e ->
            mapBattle env vs w = (Throw e, w))).
Proof.
  unfold mapBattle.
  destruct (find VsPlayer.isMyself _) as [self|]; (split; [|intros Hself; split]);
    try reflexivity; try discriminate; try contradiction.
  - intros ->. reflexivity.
  - intros Hteams e He.
    destruct (VsHistoryDetail.otherTeams (VsInfo.detail vs)); [contradiction|].
    unfold bind. rewrite He. reflexivity.
Qed.

(** ** The catalogs are fetched once *)

Lemma quiet_when_ret ready {A} (a : A) : quiet_when ready (ret a).
Proof. intros w _. reflexivity. Qed.

Lemma quiet_when_throw ready {A} (e : Exn) : quiet_when ready (@throw A e).
Proof. intros w _. reflexivity. Qed.

Lemma quiet_when_bind ready {A B} (m : M A) (k : A -> M B) :
  quiet_when ready m -> (forall a, quiet_when ready (k a)) -> quiet_when ready (bind m k).
Proof.
  intros Hm Hk w Hw. unfold bind. specialize (Hm w Hw).
  destruct (m w) as [[a|e] w1]; cbn [snd] in Hm; subst w1; [|reflexivity].
  apply Hk, Hw.
Qed.

Lemma quiet_when_getCached (ready : World.t -> Prop) env url :
  (forall w, ready w -> is_Some (World.cache w !! url)) ->
  quiet_when ready (_getCached env url).
Proof.
  intros Hready w Hw. destruct (Hready w Hw) as [json Hjson].
  rewrite (_getCached_hit _ _ _ _ Hjson). reflexivity.
Qed.

Lemma quiet_mapBattle env vs : quiet_when battle_catalogs_cached (mapBattle env vs).
Proof.
  apply (mapping_mapBattle env (fun A => @quiet_when battle_catalogs_cached A)).
  - intros A a. apply quiet_when_ret.
  - intros A e. apply quiet_when_throw.
  - intros A B m k. apply quiet_when_bind.
  - apply quiet_when_getCached. intros w [H _]. exact H.
  - apply quiet_when_getCached. intros w [_ H]. exact H.
Qed.

Lemma quiet_mapCoop env coop : quiet_when salmon_map_built (mapCoop env coop).
Proof.
  apply (mapping_mapCoop env (fun A => @quiet_when salmon_map_built A)).
  - intros A a. apply quiet_when_ret.
  - intros A e. apply quiet_when_throw.
  - intros A B m k. apply quiet_when_bind.
  - intros w Hw. rewrite (getSalmonWeaponMap_built _ _ Hw). reflexivity.
Qed.

Lemma extends_cached url w w' :
  extends w w' -> is_Some (World.cache w !! url) -> is_Some (World.cache w' !! url).
Proof. intros [Hcache _] [json H]. exists json. apply Hcache, H. Qed.

Lemma extends_built w w' : extends w w' -> salmon_map_built w -> salmon_map_built w'.
Proof. unfold salmon_map_built. intros [_ Hmap] H. rewrite (Hmap H). exact H. Qed.

Lemma replayable_mapPlayers env players index :
  replayable (mapM_index (mapPlayer env) index players).
Proof.
  apply (mapping_mapM_index (fun A => @replayable A)).
  - intros A a. apply replayable_ret.
  - intros A B m k. apply replayable_bind.
  - intros x i. apply (mapping_mapPlayer env (fun A => @replayable A)).
    + intros A a. apply replayable_ret.
    + intros A e. apply replayable_throw.
    + intros A B m k. apply replayable_bind.
    + apply replayable_getCached.
Qed.

Lemma mapPlayer_cached env player index w p w' :
  mapPlayer env player index w = (Ok p, w') ->
  is_Some (World.cache w' !! (statInk +:+ "/api/v3/ability?full=1")).
Proof.
  unfold mapPlayer, mapGears. intros H.
  apply bind_Ok in H as (gears & w1 & H & Hret). inversion Hret; subst w1.
  apply bind_Ok in H as (amap & w1 & Hamap & H).
  apply bind_Ok in H as (headgear & w2 & Hh & H). apply lift_Ok in Hh as [_ ->].
  apply bind_Ok in H as (clothing & w3 & Hc & H). apply lift_Ok in Hc as [_ ->].
  apply bind_Ok in H as (shoes & w4 & Hs & H). apply lift_Ok in Hs as [_ ->].
  inversion H; subst. exists amap. apply (_getCached_cached _ _ _ _ _ Hamap).
Qed.

Lemma mapBattle_caches env vs w body w' :
  mapBattle env vs w = (Ok body, w') -> battle_catalogs_cached w'.
Proof.
  unfold mapBattle. intros H.
  destruct (find VsPlayer.isMyself _) as [self|] eqn:Hself; [|discriminate H].
  destruct (VsHistoryDetail.otherTeams (VsInfo.detail vs)) as [|theirTeam moreTeams];
    [discriminate H|].
  apply bind_Ok in H as (lobby & w1 & _ & H).
  apply bind_Ok in H as (stage & w2 & Hstage & H).
  apply bind_Ok in H as (ours & w3 & Hours & H).
  apply bind_Ok in H as (theirs & w4 & Htheirs & H).
  apply bind_Ok in H as (third_players & w5 & Hthird & H).
  inversion H; subst body w'. clear H.
  assert (H34 : extends w3 w4)
    by apply (proj1 (replayable_mapPlayers _ _ _) _ _ _ Htheirs).
  assert (H45 : extends w4 w5).
  { destruct moreTeams as [|third [|fourth more]];
      try (inversion Hthird; apply extends_refl).
    destruct (String.eqb _ "TURF_WAR" || String.eqb _ "TRI_COLOR");
      [|inversion Hthird; apply extends_refl].
    apply bind_Ok in Hthird as (ps & w6 & Hps & Hret). inversion Hret; subst.
    apply (proj1 (replayable_mapPlayers _ _ _) _ _ _ Hps). }
  split.
  - apply (extends_cached _ w2 w5).
    + apply (extends_trans _ w3); [|apply (extends_trans _ w4); assumption].
      apply (proj1 (replayable_mapPlayers _ _ _) _ _ _ Hours).
    + unfold mapStage in Hstage.
      apply bind_Ok in Hstage as (catalog & wa & Hcat & Hret).
      destruct (find_stage _ catalog); inversion Hret; subst.
      exists catalog. apply (_getCached_cached _ _ _ _ _ Hcat).
  - apply (extends_cached _ w3 w5); [apply (extends_trans _ w4); assumption|].
    destruct (VsTeam.players (VsHistoryDetail.myTeam (VsInfo.detail vs)))
      as [|first rest]; [discriminate Hself|].
    cbn [mapM_index] in Hours.
    apply bind_Ok in Hours as (p & wa & Hp & Hours).
    apply bind_Ok in Hours as (ps & wb & Hps & Hret). inversion Hret; subst.
    apply (extends_cached _ wa w3).
    + apply (proj1 (replayable_mapPlayers _ _ _) _ _ _ Hps).
    + apply (mapPlayer_cached _ _ _ _ _ _ Hp).
Qed.

(** The catalogs of stages and abilities are fetched once: after one
    battle has been mapped, mapping any battle, in the state that run left
    or in one that knows as much, sends no request and changes nothing,
    whether it succeeds or not. *)
Theorem mapBattle_fetches_once env vs w body w1 vs2 w2 :
  mapBattle env vs w = (Ok body, w1) ->
  extends w1 w2 ->
  snd (mapBattle env vs2 w2) = w2.
Proof.
  intros H Hext. apply quiet_mapBattle.
  destruct (mapBattle_caches _ _ _ _ _ H) as [Hstage Hability].
  split; eapply extends_cached; eassumption.
Qed.

Lemma mapBattle_fetches_once_witness :
  snd (mapBattle demo_env (demo_vs "VsStage-404")
         (snd (mapBattle demo_env (demo_vs "VsStage-1") World_initial)))
  = snd (mapBattle demo_env (demo_vs "VsStage-1") World_initial).
Proof.
  destruct (mapBattle demo_env (demo_vs "VsStage-1") World_initial)
    as [[body|e] w'] eqn:E; [|vm_compute in E; discriminate E].
  cbn [snd]. apply (mapBattle_fetches_once _ _ _ _ _ _ _ E), extends_refl.
Defined.

Lemma replayable_mapCoopWeapons env weapons :
  replayable (mapM (mapCoopWeapon env) weapons).
Proof.
  apply (mapping_mapM (fun A => @replayable A)).
  - intros A a. apply replayable_ret.
  - intros A B m k. apply replayable_bind.
  - intros weapon. apply (mapping_mapCoopWeapon env (fun A => @replayable A)).
    + intros A a. apply replayable_ret.
    + intros A e. apply replayable_throw.
    + intros A B m k. apply replayable_bind.
    + apply replayable_getSalmonWeaponMap.
Qed.

Lemma replayable_mapCoopPlayers env (ps : list (bool * CoopHistoryPlayerResult.t)) :
  replayable (mapM (fun p => mapCoopPlayer env (fst p) (snd p)) ps).
Proof.
  apply (mapping_mapM (fun A => @replayable A)).
  - intros A a. apply replayable_ret.
  - intros A B m k. apply replayable_bind.
  - intros p. apply (mapping_mapCoopPlayer env (fun A => @replayable A)).
    + intros A a. apply replayable_ret.
    + intros A e. apply replayable_throw.
    + intros A B m k. apply replayable_bind.
    + apply replayable_getSalmonWeaponMap.
Qed.

Lemma getSalmonWeaponMap_builds env w m w' :
  getSalmonWeaponMap env w = (Ok m, w') -> salmon_map_built w'.
Proof.
  unfold salmon_map_built. intros H.
  destruct (size (World._salmonWeaponMap w) =? 0)%nat eqn:Hsize.
  - unfold getSalmonWeaponMap, get_world, bind at 1 in H.
    rewrite Hsize in H. unfold bind at 1 in H.
    destruct (getSalmonWeapon env w) as [[weapons|e] w1] eqn:E; [|inversion H].
    unfold bind in H. rewrite salmon_loops_run in H. cbn zeta in H.
    destruct (size (World._salmonWeaponMap (fold_left step_entry (entries weapons) w1))
              =? 0)%nat eqn:Hsize'; inversion H; subst.
    intros Hempty. apply size_eqb_0 in Hempty. congruence.
  - assert (Hne : World._salmonWeaponMap w <> ∅).
    { intros Hempty. apply size_eqb_0 in Hempty. congruence. }
    rewrite (getSalmonWeaponMap_built _ _ Hne) in H. inversion H; subst. exact Hne.
Qed.

Lemma mapCoop_builds env coop w body w' :
  mapCoop env coop w = (Ok body, w') ->
  CoopHistoryPlayerResult.weapons (CoopHistoryDetail.myResult (CoopInfo.detail coop)) <> [] ->
  salmon_map_built w'.
Proof.
  intros H Hweapons. apply mapCoop_Ok in H as (waves & players & w1 & _ & Hp & _).
  cbn [mapM] in Hp.
  apply bind_Ok in Hp as (me & w2 & Hme & Hp).
  apply bind_Ok in Hp as (others & w3 & Hothers & Hret). inversion Hret; subst.
  apply (extends_built w2 w');
    [apply (proj1 (replayable_mapCoopPlayers _ _) _ _ _ Hothers)|].
  unfold mapCoopPlayer in Hme. cbn [fst snd] in Hme.
  apply bind_Ok in Hme as (special & w4 & _ & Hme).
  apply bind_Ok in Hme as (weapons & w5 & Hw & Hret'). inversion Hret'; subst.
  destruct (CoopHistoryPlayerResult.weapons
              (CoopHistoryDetail.myResult (CoopInfo.detail coop))) as [|first rest];
    [contradiction|].
  cbn [mapM] in Hw.
  apply bind_Ok in Hw as (key & w6 & Hkey & Hw).
  apply bind_Ok in Hw as (keys & w7 & Hkeys & Hret''). inversion Hret''; subst.
  apply (extends_built w6 w2);
    [apply (proj1 (replayable_mapCoopWeapons _ _) _ _ _ Hkeys)|].
  unfold mapCoopWeapon in Hkey.
  apply bind_Ok in Hkey as (m & w8 & Hm & Hkey).
  apply getSalmonWeaponMap_builds in Hm.
  destruct (when_truthy _); [inversion Hkey; subst; exact Hm|].
  destruct (isRandom _); inversion Hkey; subst; exact Hm.
Qed.

(** The catalog of salmon weapons is fetched once: after a coop session in
    which the player had a weapon has been mapped, mapping any coop
    session, in the state that run left or in one that knows as much, sends
    no request and changes nothing, whether it succeeds or not. *)
Theorem mapCoop_fetches_once env coop w body w1 coop2 w2 :
  mapCoop env coop w = (Ok body, w1) ->
  CoopHistoryPlayerResult.weapons (CoopHistoryDetail.myResult (CoopInfo.detail coop)) <> [] ->
  extends w1 w2 ->
  snd (mapCoop env coop2 w2) = w2.
Proof.
  intros H Hweapons Hext. apply quiet_mapCoop.
  apply (extends_built w1); [exact Hext|]. apply (mapCoop_builds _ _ _ _ _ H Hweapons).
Qed.

Lemma mapCoop_fetches_once_witness :
  snd (mapCoop demo_env (demo_coop "BIG_RUN" [] 1 40 1)
         (snd (mapCoop demo_env
                 (demo_coop "REGULAR" [demo_wave 1 10 12; demo_wave 2 12 5] 2 60 3)
                 World_initial)))
  = snd (mapCoop demo_env
           (demo_coop "REGULAR" [demo_wave 1 10 12; demo_wave 2 12 5] 2 60 3)
           World_initial).
Proof.
  destruct (mapCoop demo_env
              (demo_coop "REGULAR" [demo_wave 1 10 12; demo_wave 2 12 5] 2 60 3)
              World_initial) as [[body|e] w'] eqn:E; [|vm_compute in E; discriminate E].
  cbn [snd].
  apply (mapCoop_fetches_once _ _ _ _ _ _ _ E); [discriminate | apply extends_refl].
Defined.
